(** * Multi-task trainer: loss reduction, output validation and per-task metrics

    A shallow embedding of [ocpmodels/trainers/mt/trainer.py].

    Numbers.  Tensor entries are modelled as extended rationals: a finite
    value is an exact rational ([Qc]), and the three exceptional results of
    IEEE arithmetic ([+inf], [-inf], [nan]) are separate constructors with the
    IEEE rules for sums, products and quotients.  Rounding, overflow and the
    sign of zero are not modelled.

    Tensors.  A 0-d tensor is [tensor0], a 1-d tensor a [list], a 2-d tensor a
    [matrix] (its column count is kept next to the rows, so that a tensor of
    shape (0, t) still knows t).  The pointwise operations of torch are
    written once, over the class [Tensor]. *)

From Stdlib Require Import QArith Qcanon.
From stdpp Require Import base numbers list strings pretty gmap.

Local Open Scope Qc_scope.

(** ** Scalars *)

Inductive scalar : Type :=
  | Fin (q : Qc)
  | PInf
  | NInf
  | NaN.

#[global] Instance scalar_eq_dec : EqDecision scalar.
Proof. solve_decision. Defined.

Definition of_nat (n : nat) : scalar := Fin (Qc_of_Z (Z.of_nat n)).

(** [x + y] *)
Definition fadd (x y : scalar) : scalar :=
  match x, y with
  | NaN, _ | _, NaN => NaN
  | PInf, NInf | NInf, PInf => NaN
  | PInf, _ | _, PInf => PInf
  | NInf, _ | _, NInf => NInf
  | Fin a, Fin b => Fin (a + b)
  end.

(** The infinity with the sign of [q] times the sign of [pos]; [nan] at zero. *)
Definition inf_times (pos : bool) (q : Qc) : scalar :=
  if decide (q = 0) then NaN
  else if bool_decide (0 < q) then (if pos then PInf else NInf)
       else (if pos then NInf else PInf).

(** [x * y] *)
Definition fmul (x y : scalar) : scalar :=
  match x, y with
  | NaN, _ | _, NaN => NaN
  | Fin a, Fin b => Fin (a * b)
  | PInf, Fin b => inf_times true b
  | NInf, Fin b => inf_times false b
  | Fin a, PInf => inf_times true a
  | Fin a, NInf => inf_times false a
  | PInf, PInf | NInf, NInf => PInf
  | PInf, NInf | NInf, PInf => NInf
  end.

(** [x / y]: a finite value over zero is [nan] (0/0) or an infinity. *)
Definition fdiv (x y : scalar) : scalar :=
  match x, y with
  | NaN, _ | _, NaN => NaN
  | Fin a, Fin b =>
      if decide (b = 0) then inf_times true a else Fin (a / b)
  | Fin _, (PInf | NInf) => Fin 0
  | (PInf | NInf), (PInf | NInf) => NaN
  | PInf, Fin b => if bool_decide (0 ≤ b) then PInf else NInf
  | NInf, Fin b => if bool_decide (0 ≤ b) then NInf else PInf
  end.

(** [x == 0.0] *)
Definition eq0 (x : scalar) : bool :=
  match x with Fin q => bool_decide (q = 0) | _ => false end.

(** [x > 0.0] *)
Definition gt0 (x : scalar) : bool :=
  match x with Fin q => bool_decide (0 < q) | PInf => true | _ => false end.

(** [float(b)] of a boolean, also what torch sums when it sums a bool tensor. *)
Definition b2s (b : bool) : scalar := if b then Fin 1 else Fin 0.

(** [sum] of a flat sequence, accumulated left to right from zero. *)
Definition fsum (l : list scalar) : scalar := foldl fadd (Fin 0) l.

(** ** Exceptions

    A function that can raise returns a [result]; the constructors of [exn]
    are the Python exception classes the trainer raises or lets through. *)

Inductive exn : Type :=
  | ValueError (msg : string)
  | AssertionError (msg : string)
  | NotImplementedError (msg : string)
  | KeyError (key : string)
  | IndexError
  | ZeroDivisionError
  | RuntimeError (msg : string).

Inductive result (A : Type) : Type :=
  | Ok (a : A)
  | Raise (e : exn).
Arguments Ok {A} _.
Arguments Raise {A} _.

#[global] Instance exn_eq_dec : EqDecision exn.
Proof. solve_decision. Defined.
#[global] Instance result_eq_dec `{EqDecision A} : EqDecision (result A).
Proof. solve_decision. Defined.

Definition rbind {A B} (m : result A) (f : A → result B) : result B :=
  match m with Ok a => f a | Raise e => Raise e end.

Notation "'let*' x := m 'in' k" := (rbind m (λ x, k))
  (at level 10, x pattern, m at level 100, k at level 200).

Definition is_ok {A} (r : result A) : bool :=
  match r with Ok _ => true | Raise _ => false end.

(** ** Tensors *)

Record tensor0 (A : Type) : Type := T0 { item : A }.
Arguments T0 {A} _.
Arguments item {A} _.

Record matrix (A : Type) : Type := Mat { m_cols : nat; m_rows : list (list A) }.
Arguments Mat {A} _ _.
Arguments m_cols {A} _.
Arguments m_rows {A} _.

#[global] Instance tensor0_eq_dec `{EqDecision A} : EqDecision (tensor0 A).
Proof. solve_decision. Defined.
#[global] Instance matrix_eq_dec `{EqDecision A} : EqDecision (matrix A).
Proof. solve_decision. Defined.

(** Closed equations between computed values are decided by evaluation (the
    canonicity proof inside a [Qc] is not compared). *)
Ltac by_eval := apply (bool_decide_unpack _); vm_compute; exact I.

(** A matrix is well formed when every row has [m_cols] entries. *)
Definition mat_wf {A} (m : matrix A) : Prop :=
  Forall (λ r, length r = m_cols m) (m_rows m).

(** Broadcasting of one dimension: equal sizes, or one of them is 1. *)
Definition bdim (n m : nat) : result nat :=
  if decide (n = m) then Ok n
  else if decide (n = 1%nat) then Ok m
  else if decide (m = 1%nat) then Ok n
  else Raise (RuntimeError "The size of tensor a must match the size of tensor b").

(** [expand n d l]: a dimension of size [n] (equal to [d], or 1) seen at size [d]. *)
Definition expand {A} (n d : nat) (l : list A) : list A :=
  if decide (n = d) then l
  else match l with x :: _ => replicate d x | [] => [] end.

(** Pointwise structure shared by tensors of every rank.  [tzip] combines two
    operands of one shape ([same_shape]); [tbroadcast] brings two operands of
    the same rank to one shape by torch's rule, or raises. *)
Class Tensor (F : Type → Type) := {
  tmap : ∀ {A B}, (A → B) → F A → F B;
  tzip : ∀ {A B C}, (A → B → C) → F A → F B → F C;
  telems : ∀ {A}, F A → list A;
  same_shape : ∀ {A B}, F A → F B → Prop;
  tbroadcast : ∀ {A B}, F A → F B → result (F A * F B)
}.

#[global] Instance tensor0_Tensor : Tensor tensor0 := {|
  tmap _ _ f x := T0 (f (item x));
  tzip _ _ _ f x y := T0 (f (item x) (item y));
  telems _ x := [item x];
  same_shape _ _ _ _ := True;
  tbroadcast _ _ x y := Ok (x, y)
|}.

#[global] Instance list_Tensor : Tensor list := {|
  tmap _ _ f x := f <$> x;
  tzip _ _ _ f x y := zip_with f x y;
  telems _ x := x;
  same_shape _ _ x y := length x = length y;
  tbroadcast _ _ x y :=
    let* d := bdim (length x) (length y) in
    Ok (expand (length x) d x, expand (length y) d y)
|}.

Definition rows_same_shape {A B} (x : list (list A)) (y : list (list B)) : Prop :=
  Forall2 (λ r r', length r = length r') x y.

#[global] Instance matrix_Tensor : Tensor matrix := {|
  tmap _ _ f x := Mat (m_cols x) (fmap (M:=list) (fmap (M:=list) f) (m_rows x));
  tzip _ _ _ f x y := Mat (m_cols x) (zip_with (zip_with f) (m_rows x) (m_rows y));
  telems _ x := concat (m_rows x);
  same_shape _ _ x y := m_cols x = m_cols y ∧ rows_same_shape (m_rows x) (m_rows y);
  tbroadcast _ _ x y :=
    let* c := bdim (m_cols x) (m_cols y) in
    let* r := bdim (length (m_rows x)) (length (m_rows y)) in
    Ok (Mat c (expand (length (m_rows x)) r (expand (m_cols x) c <$> m_rows x)),
        Mat c (expand (length (m_rows y)) r (expand (m_cols y) c <$> m_rows y)))
|}.

(** ** [_safe_divide] *)

Section pointwise.
Context {F : Type → Type} `{!Tensor F}.

(** [x.masked_fill(m, v)] *)
Definition masked_fill {A} (x : F A) (m : F bool) (v : A) : F A :=
  tzip (λ xi mi, if mi : bool then v else xi) x m.

(** [x == 0.0] *)
Definition teq0 (x : F scalar) : F bool := tmap eq0 x.

(** [a / b] *)
Definition tdiv (a b : F scalar) : result (F scalar) :=
  let* (a, b) := tbroadcast a b in
  Ok (tzip fdiv a b).

Definition _safe_divide (a b : F scalar) : result (F scalar) :=
  let b := masked_fill b (teq0 b) (Fin 1) in
  tdiv a b.
End pointwise.

(** ** [einops.reduce] patterns used by the trainer *)

(** [reduce(x, "b t -> ", "sum")] *)
Definition reduce_bt_sum (x : matrix scalar) : tensor0 scalar :=
  T0 (fsum (concat (m_rows x))).

(** [reduce(x, "b t -> t", "sum")]: the rows are added, one after the other,
    into a row of [t] zeros. *)
Definition reduce_bt_t_sum (x : matrix scalar) : list scalar :=
  foldl (zip_with fadd) (replicate (m_cols x) (Fin 0)) (m_rows x).

(** [reduce(x, "t -> ", "mean")] *)
Definition reduce_t_mean (x : list scalar) : tensor0 scalar :=
  T0 (fdiv (fsum x) (of_nat (length x))).

(** ** [_reduce_loss]

    The mask is a bool tensor; torch sums it as 0/1 ([b2s]). *)
Definition _reduce_loss (loss : matrix scalar) (mask : matrix bool)
    (reduction : string) : result (tensor0 scalar) :=
  if decide (reduction = "sum") then
    Ok (reduce_bt_sum loss)
  else if decide (reduction = "mean") then
    _safe_divide (reduce_bt_sum loss) (reduce_bt_sum (tmap b2s mask))
  else if decide (reduction = "task_mean") then
    let* loss := _safe_divide (reduce_bt_t_sum loss)
                              (reduce_bt_t_sum (tmap b2s mask)) in
    Ok (reduce_t_mean loss)
  else
    Raise (ValueError ("Unknown redution: " +:+ reduction)).

(** Small literals. *)
Definition num (z : Z) : scalar := Fin (Qc_of_Z z).
Definition ratio (p : Z) (q : positive) : scalar := Fin (Q2Qc (p # q)).

(** [[f(x) for x in xs]] where [f] can raise. *)
Fixpoint traverse {A B} (f : A → result B) (xs : list A) : result (list B) :=
  match xs with
  | [] => Ok []
  | x :: xs => let* y := f x in let* ys := traverse f xs in Ok (y :: ys)
  end.


(** A loop that threads an accumulator and stops at the first exception. *)
Fixpoint foldM {A B} (f : B → A → result B) (acc : B) (xs : list A) : result B :=
  match xs with
  | [] => Ok acc
  | x :: xs => let* acc := f acc x in foldM f acc xs
  end.

(** ** Torch operations on the batch tensors *)

(** [torch.cat(xs)] of 1-d tensors; an empty list of tensors is an error. *)
Definition cat1 {A} (xs : list (list A)) : result (list A) :=
  match xs with
  | [] => Raise (RuntimeError "torch.cat(): expected a non-empty list of Tensors")
  | _ => Ok (concat xs)
  end.

(** [torch.cat(xs)] of 2-d tensors along dimension 0: the column counts
    have to agree. *)
Definition cat2 {A} (xs : list (matrix A)) : result (matrix A) :=
  match xs with
  | [] => Raise (RuntimeError "torch.cat(): expected a non-empty list of Tensors")
  | x :: rest =>
      if forallb (λ y, bool_decide (m_cols y = m_cols x)) rest
      then Ok (Mat (m_cols x) (concat (m_rows <$> xs)))
      else Raise (RuntimeError "Sizes of tensors must match except in dimension 0")
  end.

(** [x[index]] for a 2-d [x] and a 1-d integer [index]: the rows
    [x[index[0]]], [x[index[1]]], ... *)
Definition index_rows {A} (x : matrix A) (index : list nat) : result (matrix A) :=
  let* rows := traverse (λ i, match m_rows x !! i with
                                | Some r => Ok r
                                | None => Raise IndexError
                                end) index in
  Ok (Mat (m_cols x) rows).

(** [x[:, j]] *)
Definition column {A} (x : matrix A) (j : nat) : result (list A) :=
  if decide (j < m_cols x)%nat then
    traverse (λ r : list A, match r !! j with
                            | Some v => Ok v
                            | None => Raise IndexError
                            end) (m_rows x)
  else Raise IndexError.

(** [x.any()] *)
Definition any (x : matrix bool) : bool := existsb id (concat (m_rows x)).

(** [mask & rearrange(col, "n -> n 1")]: shapes (n, t) and (m, 1). *)
Definition and_column (mask : matrix bool) (col : list bool) : result (matrix bool) :=
  let n := length (m_rows mask) in
  let* r := bdim n (length col) in
  Ok (Mat (m_cols mask)
        (zip_with (λ row c, (λ b, b && c) <$> row)
           (expand n r (m_rows mask)) (expand (length col) r col))).

(** [loss * coeff]: shapes (n, t) and (t',). *)
Definition mul_row (loss : matrix scalar) (coeff : list scalar) : result (matrix scalar) :=
  let* c := bdim (m_cols loss) (length coeff) in
  Ok (Mat c ((λ row, zip_with fmul (expand (m_cols loss) c row)
                                   (expand (length coeff) c coeff)) <$> m_rows loss)).

(** [torch_scatter.scatter(src, index, dim=0, reduce="sum")]: the index is
    expanded to the rows of [src]; the output has [max(index) + 1] rows of
    zeros, and row [a] of [src] is added into output row [index[a]]. *)
Definition scatter_sum (src : matrix scalar) (index : list nat) : result (matrix scalar) :=
  let n := length (m_rows src) in
  if decide (length index = n ∨ length index = 1%nat) then
    let index := expand (length index) n index in
    let dim_size := match index with [] => 0%nat | _ => S (max_list index) end in
    let out := replicate dim_size (replicate (m_cols src) (Fin 0)) in
    Ok (Mat (m_cols src)
          (foldl (λ out ir, alter (λ acc, zip_with fadd acc ir.2) ir.1 out)
                 out (zip index (m_rows src))))
  else Raise (RuntimeError "The expanded size of the tensor must match the existing size").

(** ** Configuration *)

Record TaskConfig : Type := {
  idx : nat;
  name : string;
  loss_coefficients : gmap string scalar
}.

Record MultiTaskConfig : Type := { tasks : list TaskConfig }.

(** Modelled from the spec: [MultiTaskConfig.task_by_idx] lives in the
    trainer's [config] module, which is not part of the sources at hand; it
    returns the configured task whose [idx] is the given one (and fails when
    there is none). *)
Definition task_by_idx (c : MultiTaskConfig) (task_idx : nat) : result TaskConfig :=
  match list_find (λ t, idx t = task_idx) (tasks c) with
  | Some (_, t) => Ok t
  | None => Raise (ValueError "task_by_idx")
  end.

(** Typed descriptor of an output head: its level, whether it is an
    [AtomLevelOutputHeadConfig], and that class's [train_on_free_atoms]. *)
Record OutputTarget : Type := {
  level : string;
  is_atom_level_head : bool;
  train_on_free_atoms : bool
}.

(** ** Streaming metrics

    [torchmetrics.MeanAbsoluteError]: the state is the sum of the absolute
    errors seen so far and the number of elements seen so far. *)

Record MeanAbsoluteError : Type := { sum_abs_error : scalar; total : nat }.

#[global] Instance MeanAbsoluteError_eq_dec : EqDecision MeanAbsoluteError.
Proof. solve_decision. Defined.

(** [MeanAbsoluteError()], and the state after [reset()]. *)
Definition MAE_new : MeanAbsoluteError := {| sum_abs_error := Fin 0; total := 0 |}.

(** [update]: [err] is [sum(abs(preds - target))] and [n] is [target.numel()]. *)
Definition MAE_update (m : MeanAbsoluteError) (err : scalar) (n : nat) : MeanAbsoluteError :=
  {| sum_abs_error := fadd (sum_abs_error m) err; total := total m + n |}.

(** [compute()] *)
Definition MAE_compute (m : MeanAbsoluteError) : scalar :=
  fdiv (sum_abs_error m) (of_nat (total m)).

Definition MAE_reset (m : MeanAbsoluteError) : MeanAbsoluteError := MAE_new.

Inductive phase : Type := Train | Val.
Inductive quantity : Type := Energy | Forces.

#[global] Instance phase_eq_dec : EqDecision phase.
Proof. solve_decision. Defined.
#[global] Instance quantity_eq_dec : EqDecision quantity.
Proof. solve_decision. Defined.

(** What happened to the accumulators, in order (ghost state). *)
Inductive event : Type :=
  | Updated (p : phase) (q : quantity) (task_idx : nat)
  | WasReset (p : phase) (q : quantity) (task_idx : nat).

#[global] Instance event_eq_dec : EqDecision event.
Proof. solve_decision. Defined.

(** The four dictionaries of accumulators that [load_task] creates. *)
Record PerTaskMetrics : Type := {
  train_per_task_energy_maes : gmap nat MeanAbsoluteError;
  val_per_task_energy_maes : gmap nat MeanAbsoluteError;
  train_per_task_force_maes : gmap nat MeanAbsoluteError;
  val_per_task_force_maes : gmap nat MeanAbsoluteError;
  events : list event
}.

Definition maes (p : phase) (q : quantity) (s : PerTaskMetrics)
    : gmap nat MeanAbsoluteError :=
  match p, q with
  | Train, Energy => train_per_task_energy_maes s
  | Val, Energy => val_per_task_energy_maes s
  | Train, Forces => train_per_task_force_maes s
  | Val, Forces => val_per_task_force_maes s
  end.

Definition set_maes (p : phase) (q : quantity) (d : gmap nat MeanAbsoluteError)
    (s : PerTaskMetrics) : PerTaskMetrics :=
  {| train_per_task_energy_maes :=
       if decide (p = Train ∧ q = Energy) then d else train_per_task_energy_maes s;
     val_per_task_energy_maes :=
       if decide (p = Val ∧ q = Energy) then d else val_per_task_energy_maes s;
     train_per_task_force_maes :=
       if decide (p = Train ∧ q = Forces) then d else train_per_task_force_maes s;
     val_per_task_force_maes :=
       if decide (p = Val ∧ q = Forces) then d else val_per_task_force_maes s;
     events := events s |}.

Definition log (e : event) (s : PerTaskMetrics) : PerTaskMetrics :=
  {| train_per_task_energy_maes := train_per_task_energy_maes s;
     val_per_task_energy_maes := val_per_task_energy_maes s;
     train_per_task_force_maes := train_per_task_force_maes s;
     val_per_task_force_maes := val_per_task_force_maes s;
     events := events s ++ [e] |}.

(** [{task_idx: MeanAbsoluteError() for task_idx in range(n)}] *)
Definition fresh_maes (n : nat) : gmap nat MeanAbsoluteError :=
  list_to_map ((λ task_idx, (task_idx, MAE_new)) <$> seq 0 n).

(** ** The trainer *)

(** State of an [ocpmodels] normalizer: [norm] maps a tensor [x] to
    [(x - mean) / std]. *)
Record Normalizer : Type := { mean : scalar; std : scalar }.

(** Modelled from the spec: [Evaluator.update] belongs to the evaluator
    module, which is not part of the sources at hand; it appends or overwrites
    the one entry [metric_name] of the metrics dictionary. *)
Definition evaluator_update (metric_name : string) (value : scalar)
    (metrics : gmap string scalar) : gmap string scalar :=
  <[metric_name := value]> metrics.

(** [d[k]] of a dictionary. *)
#[global] Instance pretty_string : Pretty string := id.

Definition getitem {K V} `{Countable K, Pretty K} (d : gmap K V) (k : K) : result V :=
  match d !! k with Some v => Ok v | None => Raise (KeyError (pretty k)) end.

Section trainer.
(** Predictions and ground truth reach the loss functions and the metrics
    as the model and the batch provide them (shape (bsz, t) or
    (n_atoms, t, 3)); the trainer only concatenates, normalizes and selects
    from them, so their type [Tgt] is left open, as is the type [Sel] of a
    selection [x[mask]] (shape (k,) or (k, 3)). *)
Context {Tgt Sel : Type}.
(** [torch.cat(xs, dim=0)] *)
Variable cat_targets : list Tgt → result Tgt.
(** [normalizer.norm(x)] *)
Variable norm : Normalizer → Tgt → Tgt.
(** [x[mask]] for a boolean mask *)
Variable select : Tgt → matrix bool → result Sel.
(** [sum(abs(preds - target))] and [target.numel()], or the error of
    torchmetrics' shape check *)
Variable abs_error : Sel → Sel → result (scalar * nat).
(** [target_config.to_dict()] of a typed output-head configuration *)
Variable to_dict : OutputTarget → gmap string string.

Record LossFnConfig : Type := { target : string; reduction : string }.

(** One entry of [self.loss_fns]; [fn] returns the per-element loss,
    of shape (bsz, t) or (n_atoms, t). *)
Record LossFn : Type := {
  config : LossFnConfig;
  fn : Tgt → Tgt → matrix scalar
}.

(** A graph batch: [batch] is the atom -> example index, [fixed] the 0/1
    flag per atom, [attrs] the ground-truth tensors by attribute name. *)
Record Batch : Type := {
  batch : list nat;
  fixed : list Z;
  task_mask : matrix bool;
  task_idx : list nat;
  attrs : gmap string Tgt
}.

(** [denormalize_tensors] of the trainer's normalizer module *)
Variable denormalize_tensors :
  list Batch → string → Sel * Sel → list bool → result (Sel * Sel).
(** entering the [denormalize_context] block *)
Variable denormalize_context :
  list Batch → gmap string Sel → result (list Batch * gmap string Sel).
(** [BaseTrainer._compute_metrics] *)
Variable base_compute_metrics :
  gmap string Sel → list Batch → gmap string scalar → result (gmap string scalar).

Record Trainer : Type := {
  (* fixed by the constructor *)
  multi_task_config : MultiTaskConfig;
  outputs_config : list (string * OutputTarget);
  print_every : nat;
  loss_fns : list LossFn;
  (* [self.model.training], [self.step] *)
  training : bool;
  step : nat;
  (* set by [load_task] *)
  normalizers : gmap string Normalizer;
  typed_output_targets : gmap string OutputTarget;
  output_targets : list (string * gmap string string);
  multi_task_targets : list (string * list string);
  per_task : PerTaskMetrics
}.

Definition num_tasks (self : Trainer) : nat :=
  length (tasks (multi_task_config self)).

Definition set_per_task (s : PerTaskMetrics) (self : Trainer) : Trainer :=
  {| multi_task_config := multi_task_config self;
     outputs_config := outputs_config self;
     print_every := print_every self;
     loss_fns := loss_fns self;
     training := training self;
     step := step self;
     normalizers := normalizers self;
     typed_output_targets := typed_output_targets self;
     output_targets := output_targets self;
     multi_task_targets := multi_task_targets self;
     per_task := s |}.

Definition set_normalizers (d : gmap string Normalizer) (self : Trainer) : Trainer :=
  {| multi_task_config := multi_task_config self;
     outputs_config := outputs_config self;
     print_every := print_every self;
     loss_fns := loss_fns self;
     training := training self;
     step := step self;
     normalizers := d;
     typed_output_targets := typed_output_targets self;
     output_targets := output_targets self;
     multi_task_targets := multi_task_targets self;
     per_task := per_task self |}.

Definition set_training (b : bool) (self : Trainer) : Trainer :=
  {| multi_task_config := multi_task_config self;
     outputs_config := outputs_config self;
     print_every := print_every self;
     loss_fns := loss_fns self;
     training := b;
     step := step self;
     normalizers := normalizers self;
     typed_output_targets := typed_output_targets self;
     output_targets := output_targets self;
     multi_task_targets := multi_task_targets self;
     per_task := per_task self |}.

Definition set_step (n : nat) (self : Trainer) : Trainer :=
  {| multi_task_config := multi_task_config self;
     outputs_config := outputs_config self;
     print_every := print_every self;
     loss_fns := loss_fns self;
     training := training self;
     step := n;
     normalizers := normalizers self;
     typed_output_targets := typed_output_targets self;
     output_targets := output_targets self;
     multi_task_targets := multi_task_targets self;
     per_task := per_task self |}.

(** *** [load_task] *)
Definition load_task (self : Trainer) : Trainer :=
  {| multi_task_config := multi_task_config self;
     outputs_config := outputs_config self;
     print_every := print_every self;
     loss_fns := loss_fns self;
     training := training self;
     step := step self;
     (* We don't use this way of normalizing. *)
     normalizers := ∅;
     typed_output_targets := list_to_map (outputs_config self);
     output_targets :=
       (λ '(target_name, target_config), (target_name, to_dict target_config))
         <$> outputs_config self;
     multi_task_targets :=
       (λ '(target_name, _),
          (target_name,
           (λ task_idx, target_name +:+ "_task_" +:+ pretty task_idx)
             <$> seq 0 (num_tasks self)))
         <$> outputs_config self;
     per_task :=
       {| train_per_task_energy_maes := fresh_maes (num_tasks self);
          val_per_task_energy_maes := fresh_maes (num_tasks self);
          train_per_task_force_maes := fresh_maes (num_tasks self);
          val_per_task_force_maes := fresh_maes (num_tasks self);
          events := events (per_task self) |} |}.

(** *** [load_checkpoint], as far as the normalizers and the step counter
    go: a checkpointed normalizer state is loaded into the normalizer that
    is registered under the same key, if there is one. *)
Definition load_checkpoint (checkpoint_step : option nat)
    (checkpoint_normalizers : list (string * Normalizer)) (self : Trainer) : Trainer :=
  let self := set_step (default 0%nat checkpoint_step) self in
  foldl (λ self '(key, state),
           match normalizers self !! key with
           | Some _ => set_normalizers (<[key := state]> (normalizers self)) self
           | None => self
           end)
        self checkpoint_normalizers.

(** *** [_apply_loss_coefficient] *)
Definition _apply_loss_coefficient (self : Trainer) (loss : matrix scalar)
    (loss_info : LossFn) : result (matrix scalar) :=
  let* coeff :=
    traverse (λ task_idx,
                let* task := task_by_idx (multi_task_config self) task_idx in
                Ok (default (Fin 1)
                      (loss_coefficients task !! target (config loss_info))))
             (seq 0 (num_tasks self)) in
  mul_row loss coeff.

(** *** [_compute_loss] *)

(** Lines 484-498: the structure-wise rewriting of the loss, the mask and
    the reduction kind, and the final reduction. *)
Definition reduce_term (level : string) (loss : matrix scalar)
    (mask : matrix bool) (batch_idx : list nat) (reduction : string)
    : result (tensor0 scalar) :=
  let* (loss, mask, reduction) :=
    if decide (reduction = "structure_wise_mean") then
      if decide (level = "atom") then
        let* loss := scatter_sum loss batch_idx in
        let* force_loss_mask_natoms := scatter_sum (tmap b2s mask) batch_idx in
        let* loss := _safe_divide loss force_loss_mask_natoms in
        let mask := tmap gt0 force_loss_mask_natoms in
        Ok (loss, mask, "mean")
      else Raise (AssertionError ("level='" +:+ level +:+ "' must be atom"))
    else Ok (loss, mask, reduction) in
  _reduce_loss loss mask reduction.

(** Lines 473-475: the ground truth as it is handed to the loss function. *)
Definition loss_target (self : Trainer) (target_name : string) (target : Tgt) : Tgt :=
  match normalizers self !! target_name with
  | Some normalizer => norm normalizer target
  | None => target
  end.

(** One iteration of the loop over [self.loss_fns]. *)
Definition loss_term (self : Trainer) (out : gmap string Tgt)
    (batch_list : list Batch) (batch_idx : list nat) (free_mask : list bool)
    (task_mask : matrix bool) (loss_info : LossFn) : result (tensor0 scalar) :=
  let target_name := target (config loss_info) in
  let* output_target := getitem (typed_output_targets self) target_name in
  let level := level output_target in
  let* targets :=
    traverse (λ b, getitem (attrs b) (target_name +:+ "_onehot")) batch_list in
  let* target := cat_targets targets in
  let* pred := getitem out target_name in
  let* mask :=
    if decide (level = "atom") then index_rows task_mask batch_idx
    else Ok task_mask in
  let* mask :=
    if bool_decide (level = "atom") && is_atom_level_head output_target
       && train_on_free_atoms output_target
    then and_column mask free_mask
    else Ok mask in
  let target := loss_target self target_name target in
  let loss := fn loss_info pred target in
  let* loss := _apply_loss_coefficient self loss loss_info in
  reduce_term level loss mask batch_idx (reduction (config loss_info)).

(** The sanity check [assert hasattr(lc, "grad_fn")] holds for every
    tensor and is left out; [sum(losses)] starts from 0. *)
Definition _compute_loss (self : Trainer) (out : gmap string Tgt)
    (batch_list : list Batch) : result (tensor0 scalar) :=
  let* batch_idx := cat1 (batch <$> batch_list) in
  let* fixed := cat1 (fixed <$> batch_list) in
  let free_mask := (λ f, bool_decide (f = 0%Z)) <$> fixed in
  let* task_mask := cat2 (task_mask <$> batch_list) in
  let* losses :=
    traverse (loss_term self out batch_list batch_idx free_mask task_mask)
             (loss_fns self) in
  Ok (T0 (fsum (item <$> losses))).

(** *** Accumulator calls *)

(** [d[task_idx](preds, target)]: the accumulator takes the batch in and
    the call returns the mean absolute error of this batch alone. *)
Definition forward (p : phase) (q : quantity) (task_idx : nat)
    (preds target : Sel) (self : Trainer) : result (scalar * Trainer) :=
  let* m := getitem (maes p q (per_task self)) task_idx in
  let* (err, n) := abs_error preds target in
  Ok (MAE_compute (MAE_update MAE_new err n),
      set_per_task
        (log (Updated p q task_idx)
           (set_maes p q (<[task_idx := MAE_update m err n]> (maes p q (per_task self)))
              (per_task self)))
        self).

(** [d[task_idx].reset()] *)
Definition reset (p : phase) (q : quantity) (task_idx : nat)
    (self : Trainer) : result Trainer :=
  let* m := getitem (maes p q (per_task self)) task_idx in
  Ok (set_per_task
        (log (WasReset p q task_idx)
           (set_maes p q (<[task_idx := MAE_reset m]> (maes p q (per_task self)))
              (per_task self)))
        self).

(** *** [_compute_per_task_metrics] *)

(** The combined activity mask of a task, shape (bsz, t). *)
Definition activity_mask (batch_list : list Batch) (task : TaskConfig)
    : result (matrix bool) :=
  let* tm := cat2 (task_mask <$> batch_list) in
  let* ti := cat1 (task_idx <$> batch_list) in
  and_column tm ((λ i, bool_decide (i = idx task)) <$> ti).

(** One iteration of the loop over the tasks. *)
Definition per_task_step (outputs : gmap string Tgt) (batch_list : list Batch)
    (st : gmap string scalar * Trainer) (task : TaskConfig)
    : result (gmap string scalar * Trainer) :=
  let '(metrics, self) := st in
  let ph := if negb (training self) then Val else Train in
  let* mask := activity_mask batch_list task in
  if negb (any mask) then Ok (metrics, self)
  else
    let* batch_idx := cat1 (batch <$> batch_list) in
    let* node_mask := index_rows mask batch_idx in

    let* targets := traverse (λ b, getitem (attrs b) "energy_onehot") batch_list in
    let* energy_target := cat_targets targets in
    let* energy_target := select energy_target mask in
    let* energy_pred := getitem outputs "energy" in
    let* energy_pred := select energy_pred mask in
    let* col := column mask (idx task) in
    let* (energy_target, energy_pred) :=
      denormalize_tensors batch_list "energy" (energy_target, energy_pred) col in
    let* (energy_mae, self) :=
      forward ph Energy (idx task) energy_pred energy_target self in
    let metrics := evaluator_update (name task +:+ "_energy_mae") energy_mae metrics in

    let* targets := traverse (λ b, getitem (attrs b) "forces_onehot") batch_list in
    let* forces_target := cat_targets targets in
    let* forces_target := select forces_target node_mask in
    let* forces_pred := getitem outputs "forces" in
    let* forces_pred := select forces_pred node_mask in
    let* col := column node_mask (idx task) in
    let* (forces_target, forces_pred) :=
      denormalize_tensors batch_list "forces" (forces_target, forces_pred) col in
    let* (forces_mae, self) :=
      forward ph Forces (idx task) forces_pred forces_target self in
    let metrics := evaluator_update (name task +:+ "_forces_mae") forces_mae metrics in
    Ok (metrics, self).

Definition _compute_per_task_metrics (outputs : gmap string Tgt)
    (batch_list : list Batch) (self : Trainer)
    : result (gmap string scalar * Trainer) :=
  foldM (per_task_step outputs batch_list) (∅, self)
        (tasks (multi_task_config self)).

(** *** [_compute_metrics]

    The outputs are visited in the order of [map_to_list]; the order only
    decides which of several exceptions is seen first. *)
Definition _compute_metrics (outputs : gmap string Tgt) (batch_list : list Batch)
    (metrics : gmap string scalar) (self : Trainer)
    : result (gmap string scalar * Trainer) :=
  (* First, compute the aggregate metrics across all tasks *)
  let* batch_idx := cat1 (batch <$> batch_list) in
  let* task_mask := cat2 (task_mask <$> batch_list) in
  let* task_mask_node := index_rows task_mask batch_idx in
  let* aggregated_outputs :=
    foldM (λ (aggregated_outputs : gmap string Sel) '(target_name, target_value),
             let* output_target := getitem (typed_output_targets self) target_name in
             let level := level output_target in
             if decide (level = "system") then
               let* v := select target_value task_mask in
               Ok (<[target_name := v]> aggregated_outputs)
             else if decide (level = "atom") then
               let* v := select target_value task_mask_node in
               Ok (<[target_name := v]> aggregated_outputs)
             else Raise (NotImplementedError ("level='" +:+ level +:+ "' not implemented.")))
          ∅ (map_to_list outputs) in
  let* (denormed_batch_list, denormed_aggregated_outputs) :=
    denormalize_context batch_list aggregated_outputs in
  let* metrics :=
    base_compute_metrics denormed_aggregated_outputs denormed_batch_list metrics in
  (* Now, compute the per-task metrics *)
  let* (per_task_metrics, self) := _compute_per_task_metrics outputs batch_list self in
  let metrics := per_task_metrics ∪ metrics in
  let* self :=
    if training self then
      if decide (print_every self = 0%nat) then Raise ZeroDivisionError
      else if decide (step self mod print_every self = 0)%nat then
        (* Reset the train per-task metrics *)
        foldM (λ self task_idx,
                 let* self := reset Train Energy task_idx self in
                 reset Train Forces task_idx self)
              self (seq 0 (num_tasks self))
      else Ok self
    else Ok self in
  Ok (metrics, self).

(** *** [validate] *)

(** Modelled from the spec: [BaseTrainer.validate], the shared single-task
    validation loop, is not part of the sources at hand.  It puts the model
    in eval mode and hands every batch of the loader, with the model's
    outputs for it, to [_compute_metrics], threading the metrics dictionary
    (its loss entry, logging and cross-process aggregation are left out).
    The loader is given as the list of (outputs, batch) pairs. *)
Definition base_validate (loader : list (gmap string Tgt * list Batch))
    (self : Trainer) : result (gmap string scalar * Trainer) :=
  let self := set_training false self in
  foldM (λ '(metrics, self) '(outputs, batch_list),
           _compute_metrics outputs batch_list metrics self)
        (∅, self) loader.

(** The closing loop of [validate], one task index. *)
Definition validate_step (st : gmap string scalar * Trainer) (task_idx : nat)
    : result (gmap string scalar * Trainer) :=
  let '(metrics, self) := st in
  let* energy_mae := getitem (val_per_task_energy_maes (per_task self)) task_idx in
  let metrics :=
    evaluator_update ("task_" +:+ pretty task_idx +:+ "_energy_mae")
                     (MAE_compute energy_mae) metrics in
  let* self := reset Val Energy task_idx self in
  let* force_mae := getitem (val_per_task_force_maes (per_task self)) task_idx in
  let metrics :=
    evaluator_update ("task_" +:+ pretty task_idx +:+ "_forces_mae")
                     (MAE_compute force_mae) metrics in
  let* self := reset Val Forces task_idx self in
  Ok (metrics, self).

(** [ensure_fitted(..., warn=True)] only warns and is left out. *)
Definition validate (loader : list (gmap string Tgt * list Batch))
    (self : Trainer) : result (gmap string scalar * Trainer) :=
  let* (metrics, self) := base_validate loader self in
  (* For the per-task metrics, we compute and return the state here
     so that we can report the final metric. *)
  foldM validate_step (metrics, self) (seq 0 (num_tasks self)).

(** *** [_validate_mt_outputs]

    A tensor is given by its shape, the only thing the validation reads;
    the result lists the targets a warning was logged for.  The messages of
    the two assertions, which print the shape, are abbreviated. *)
Definition validate_output (self : Trainer) (outputs : gmap string (list nat))
    (warnings : list string) (item : string * gmap string string)
    : result (list string) :=
  let '(target, config) := item in
  match outputs !! target with
  | None => Ok (warnings ++ [target])
  | Some shape =>
      let system := default "system" (config !! "level") in
      if decide (system = "system") then
        if bool_decide (length shape = 2%nat)
           && bool_decide (shape !! 1%nat = Some (num_tasks self))
        then Ok warnings
        else Raise (AssertionError "System output should be (bsz, num_tasks)")
      else if decide (system = "atom") then
        if bool_decide (length shape = 3%nat)
           && bool_decide (shape !! 1%nat = Some (num_tasks self))
        then Ok warnings
        else Raise (AssertionError "Atom output should be (n_atoms, num_tasks, 3)")
      else Raise (NotImplementedError ("system='" +:+ system +:+ "' not implemented."))
  end.

Definition _validate_mt_outputs (self : Trainer) (outputs : gmap string (list nat))
    : result (list string) :=
  foldM (validate_output self outputs) [] (output_targets self).

(** *** The trainer as a state machine *)

(** The operations of the trainer that run after [load_task]. *)
Inductive operation : Type :=
  | LoadTask
  | LoadCheckpoint (checkpoint_step : option nat)
                   (checkpoint_normalizers : list (string * Normalizer))
  | ComputeLoss (out : gmap string Tgt) (batch_list : list Batch)
  | ComputeMetrics (outputs : gmap string Tgt) (batch_list : list Batch)
                   (metrics : gmap string scalar)
  | Validate (loader : list (gmap string Tgt * list Batch)).

(** The trainer after an operation ([_compute_loss] only reads it; an
    operation that raises is taken to leave it as it was). *)
Definition run_operation (self : Trainer) (o : operation) : Trainer :=
  match o with
  | LoadTask => load_task self
  | LoadCheckpoint checkpoint_step checkpoint_normalizers =>
      load_checkpoint checkpoint_step checkpoint_normalizers self
  | ComputeLoss out batch_list => self
  | ComputeMetrics outputs batch_list metrics =>
      match _compute_metrics outputs batch_list metrics self with
      | Ok (_, self') => self'
      | Raise _ => self
      end
  | Validate loader =>
      match validate loader self with
      | Ok (_, self') => self'
      | Raise _ => self
      end
  end.
End trainer.

(** ** More of the trainer *)

(** *** [load_checkpoint]: matching the "module." prefixes (lines 153-172)

    A state dict is an ordered dictionary, given as the list of its items. *)

(** [s.count("module")]: the occurrences are counted from the left and do not
    overlap; [skip] is the number of characters left of the occurrence that
    was just counted. *)
Fixpoint count_module_go (skip : nat) (s : string) : nat :=
  match s with
  | EmptyString => 0
  | String _ s' =>
      match skip with
      | S skip => count_module_go skip s'
      | O => if Strings.String.prefix "module" s
             then S (count_module_go 5 s')
             else count_module_go 0 s'
      end
  end.

Definition count_module (s : string) : nat := count_module_go 0 s.

(** [n * s] *)
Fixpoint str_repeat (n : nat) (s : string) : string :=
  match n with
  | O => ""
  | S n => s +:+ str_repeat n s
  end.

(** [s[n:]] *)
Fixpoint str_drop (n : nat) (s : string) : string :=
  match n, s with
  | O, _ => s
  | S n, String _ s' => str_drop n s'
  | S _, EmptyString => ""
  end.

(** [d[k] = v] on an ordered dictionary: an existing key keeps its place. *)
Fixpoint dict_set {V} (k : string) (v : V) (d : list (string * V)) : list (string * V) :=
  match d with
  | [] => [(k, v)]
  | (k', v') :: d => if decide (k' = k) then (k, v) :: d else (k', v') :: dict_set k v d
  end.

(** [{f(k): v for k, v in d.items()}] *)
Definition rename_keys {V} (f : string → string) (d : list (string * V))
    : list (string * V) :=
  foldl (λ new_dict kv, dict_set (f kv.1) kv.2 new_dict) [] d.

(** The state dict that [load_checkpoint] hands to [load_state_dict], from
    the checkpoint's state dict and the keys of the model's state dict;
    [None] stands for the [StopIteration] of [next(iter(...))] on an empty
    dictionary. *)
Definition match_module_prefixes {V} (checkpoint_state_dict : list (string * V))
    (model_keys : list string) : option (list (string * V)) :=
  match checkpoint_state_dict, model_keys with
  | (ckpt_first, _) :: _, mod_first :: _ =>
      let ckpt_key_count := count_module ckpt_first in
      let mod_key_count := count_module mod_first in
      let key_count_diff := (Z.of_nat mod_key_count - Z.of_nat ckpt_key_count)%Z in
      if decide (key_count_diff > 0)%Z then
        Some (rename_keys
                (λ k, str_repeat (Z.to_nat key_count_diff) "module." +:+ k)
                checkpoint_state_dict)
      else if decide (key_count_diff < 0)%Z then
        Some (rename_keys
                (λ k, str_drop (String.length "module."
                                * Z.to_nat (Z.abs key_count_diff)) k)
                checkpoint_state_dict)
      else Some checkpoint_state_dict
  | _, _ => None
  end.

(** *** [_merge_mt_outputs] and [_forward] (lines 673-711) *)

(** [d.pop(key)] *)
Definition dict_pop {V} (d : gmap string V) (key : string)
    : result (V * gmap string V) :=
  match d !! key with
  | Some v => Ok (v, delete key d)
  | None => Raise (KeyError key)
  end.

(** [[merged_outputs.pop(key) for key in target_key_list]] *)
Definition pop_all {V} (merged_outputs : gmap string V)
    (target_key_list : list string) : result (list V * gmap string V) :=
  foldM (λ '(tensors, merged_outputs) key,
           let* (v, merged_outputs) := dict_pop merged_outputs key in
           Ok (tensors ++ [v], merged_outputs))
        ([], merged_outputs) target_key_list.

(** One round of the loop of [_merge_mt_outputs]. *)
Definition merge_target {V} (stack : list V → result V)
    (merged_outputs : gmap string V) (item : string * list string)
    : result (gmap string V) :=
  let '(target_name, target_key_list) := item in
  let* (tensors, merged_outputs) := pop_all merged_outputs target_key_list in
  let* stacked := stack tensors in
  Ok (<[target_name := stacked]> merged_outputs).

(** [self.multi_task_targets] is a [defaultdict]: a target gets its item when
    its first key is appended, so with no task it has none. *)
Definition multi_task_targets_items {Tgt} (self : @Trainer Tgt)
    : list (string * list string) :=
  filter (λ item, item.2 ≠ []) (multi_task_targets self).

(** [stack] is [torch.stack(tensors, dim=1)]. *)
Definition _merge_mt_outputs {Tgt V} (stack : list V → result V)
    (self : @Trainer Tgt) (outputs : gmap string V) : result (gmap string V) :=
  foldM (merge_target stack) outputs (multi_task_targets_items self).

(** [torch.stack(tensors, dim=1)] on the shapes of the tensors. *)
Definition stack_dim1 (shapes : list (list nat)) : result (list nat) :=
  match shapes with
  | [] => Raise (RuntimeError "stack expects a non-empty TensorList")
  | shape :: rest =>
      if bool_decide (Forall (λ shape', shape' = shape) rest) then
        match shape with
        | [] => Raise IndexError
        | d0 :: ds => Ok (d0 :: length shapes :: ds)
        end
      else Raise (RuntimeError "stack expects each tensor to be equal size")
  end.

(** [_forward], from the outputs of [super()._forward(batch_list)]; as in
    [_validate_mt_outputs] a tensor is given by its shape. *)
Definition _forward {Tgt} (self : @Trainer Tgt) (outputs : gmap string (list nat))
    : result (gmap string (list nat)) :=
  let* outputs := _merge_mt_outputs stack_dim1 self outputs in
  let* _ := _validate_mt_outputs self outputs in
  Ok outputs.

(** * Specification-side definitions

    The notions the properties below are stated with, and small concrete
    inputs to run the definitions on. *)

(** The denominator after [masked_fill(b == 0.0, 1.0)], entry by entry. *)
Definition fill_zero (y : scalar) : scalar := if eq0 y then Fin 1 else y.

(** Number of true entries. *)
Definition count_true (l : list bool) : nat := length (filter (λ b, b = true) l).

(** The quotient [s / n] with the safe-division rule: a zero count is
    replaced by 1. *)
Definition safe_quotient (s : scalar) (n : nat) : scalar :=
  if decide (n = 0%nat) then s else fdiv s (of_nat n).

(** The [mean] reduction as the specification words it: the total of the
    loss over the number of active entries of the mask, with the
    safe-division rule. *)
Definition mean_spec (loss : matrix scalar) (mask : matrix bool) : scalar :=
  safe_quotient (fsum (telems loss)) (count_true (telems mask)).

(** Total of column [t]. *)
Definition column_total (x : matrix scalar) (t : nat) : scalar :=
  fsum ((λ r, default (Fin 0) (r !! t)) <$> m_rows x).

(** Number of true entries of column [t]. *)
Definition column_count (m : matrix bool) (t : nat) : nat :=
  count_true ((λ r, default false (r !! t)) <$> m_rows m).

(** Per-task mean as the specification words it: the total of the task's
    column over the number of its active examples, with the safe-division
    rule. *)
Definition per_task_mean (loss : matrix scalar) (mask : matrix bool) (t : nat) : scalar :=
  safe_quotient (column_total loss t) (column_count mask t).

(** The unweighted arithmetic mean of the per-task means. *)
Definition task_mean_spec (loss : matrix scalar) (mask : matrix bool) : scalar :=
  let per_task := per_task_mean loss mask <$> seq 0 (m_cols loss) in
  fdiv (fsum per_task) (of_nat (length per_task)).

(** The coefficient the configuration of [task] gives to quantity [Q]. *)
Definition configured_coefficient (task : TaskConfig) (Q : string) : scalar :=
  match loss_coefficients task !! Q with
  | Some c => c
  | None => Fin 1
  end.

(** A three-task configuration used to run the definitions: the first task
    weights the energy loss by 2, the others configure no energy
    coefficient. *)
Definition example_config : MultiTaskConfig :=
  {| tasks := [ {| idx := 0; name := "oc20";
                   loss_coefficients := {[ "energy" := num 2 ]} |};
                {| idx := 1; name := "oc22"; loss_coefficients := ∅ |};
                {| idx := 2; name := "ani1x";
                   loss_coefficients := {[ "forces" := num 3 ]} |} ] |}.

Definition example_outputs_config : list (string * OutputTarget) :=
  [ ("energy", {| level := "system"; is_atom_level_head := false;
                  train_on_free_atoms := false |});
    ("forces", {| level := "atom"; is_atom_level_head := true;
                  train_on_free_atoms := true |}) ].

Definition example_to_dict (c : OutputTarget) : gmap string string :=
  {[ "level" := level c ]}.

(** An energy loss term; its loss function stands for a per-element loss of
    3 on the one example, in the first task's column. *)
Definition example_energy_loss : @LossFn unit :=
  {| config := {| target := "energy"; reduction := "mean" |};
     fn := λ _ _, Mat 3 [[num 3; num 0; num 0]] |}.

Definition example_trainer : @Trainer unit :=
  load_task example_to_dict
    {| multi_task_config := example_config;
       outputs_config := example_outputs_config;
       print_every := 10;
       loss_fns := [example_energy_loss];
       training := true;
       step := 0;
       normalizers := ∅;
       typed_output_targets := ∅;
       output_targets := [];
       multi_task_targets := [];
       per_task := {| train_per_task_energy_maes := ∅;
                      val_per_task_energy_maes := ∅;
                      train_per_task_force_maes := ∅;
                      val_per_task_force_maes := ∅;
                      events := [] |} |}.

(** Rank [rank] with second dimension [n]. *)
Definition shape_ok (rank n : nat) (shape : list nat) : Prop :=
  length shape = rank ∧ shape !! 1%nat = Some n.

(** [config.get("level", "system")] *)
Definition configured_level (config : gmap string string) : string :=
  default "system" (config !! "level").

(** What the specification asks of one configured target: nothing when the
    outputs lack it; rank 2 for a system-level target and rank 3 for an
    atom-level one, with second dimension [n], when they have it. *)
Definition accepts (n : nat) (outputs : gmap string (list nat))
    (item : string * gmap string string) : Prop :=
  match outputs !! item.1 with
  | None => True
  | Some shape =>
      (configured_level item.2 = "system" ∧ shape_ok 2 n shape) ∨
      (configured_level item.2 = "atom" ∧ shape_ok 3 n shape)
  end.

(** The targets a warning is logged for, in configuration order. *)
Definition missing_targets (outputs : gmap string (list nat))
    (items : list (string * gmap string string)) : list string :=
  (filter (λ item, outputs !! item.1 = None) items).*1.

(** The accumulator that an event is about. *)
Definition touches (p : phase) (q : quantity) (i : nat) (e : event) : Prop :=
  e = Updated p q i ∨ e = WasReset p q i.

(** [evolves E self self']: [self'] is [self] up to the per-task metric
    state; the events logged in between all satisfy [E]; no dictionary gained
    or lost a key; and an accumulator that no event allowed by [E] touches is
    as it was. *)
Definition evolves {Tgt : Type} (E : event → Prop) (self self' : @Trainer Tgt)
    : Prop :=
  self' = set_per_task (per_task self') self ∧
  (∃ evs, events (per_task self') = events (per_task self) ++ evs ∧ Forall E evs) ∧
  (∀ p q, dom (maes p q (per_task self')) = dom (maes p q (per_task self))) ∧
  (∀ p q i, (∀ e, E e → ¬ touches p q i e) →
            maes p q (per_task self') !! i = maes p q (per_task self) !! i).

(** Inversion of a successful sequence of steps. *)
Ltac inv_bind H :=
  repeat match type of H with
  | rbind ?m _ = Ok _ =>
      let E := fresh "E" in
      destruct m eqn:E; cbn [rbind] in H; [|discriminate H]
  | match ?x with (_, _) => _ end = Ok _ => destruct x
  end.

(** The accumulators [_compute_per_task_metrics] works on. *)
Definition metric_phase {Tgt : Type} (self : @Trainer Tgt) : phase :=
  if negb (training self) then Val else Train.

(** The iteration for [task] is skipped ([continue]): its combined activity
    mask has no true entry. *)
Definition is_skipped {Tgt : Type} (batch_list : list (@Batch Tgt))
    (task : TaskConfig) : bool :=
  match activity_mask batch_list task with
  | Ok mask => negb (any mask)
  | Raise _ => false
  end.

(** What one call of [_compute_per_task_metrics] may log: updates, in the
    phase at hand, of accumulators of tasks that are not skipped. *)
Definition active_update {Tgt : Type} (batch_list : list (@Batch Tgt))
    (self : @Trainer Tgt) (e : event) : Prop :=
  ∃ task q, task ∈ tasks (multi_task_config self)
    ∧ is_skipped batch_list task = false
    ∧ e = Updated (metric_phase self) q (idx task).

(** The metric entries one call may add. *)
Definition active_entry {Tgt : Type} (batch_list : list (@Batch Tgt))
    (self : @Trainer Tgt) (k : string) : Prop :=
  ∃ task, task ∈ tasks (multi_task_config self)
    ∧ is_skipped batch_list task = false
    ∧ (k = name task +:+ "_energy_mae" ∨ k = name task +:+ "_forces_mae").

(** A one-example batch for the first task of [example_config], and stand-ins
    for the collaborators, used to run the definitions. *)
Definition example_batch : @Batch unit :=
  {| batch := [0; 0]%nat;
     fixed := [0; 1]%Z;
     task_mask := Mat 3 [[true; false; false]];
     task_idx := [0%nat];
     attrs := {[ "energy_onehot" := (); "forces_onehot" := () ]} |}.

Definition example_cat (xs : list unit) : result unit := Ok ().

Definition example_select (x : unit) (mask : matrix bool) : result (list bool) :=
  Ok (concat (m_rows mask)).

Definition example_abs_error (preds target : list bool) : result (scalar * nat) :=
  Ok (of_nat (count_true preds), length preds).

Definition example_denormalize (batch_list : list (@Batch unit)) (target : string)
    (tensors : list bool * list bool) (mask : list bool)
    : result (list bool * list bool) := Ok tensors.

(** [f"task_{task_idx}_energy_mae"] and [f"task_{task_idx}_forces_mae"] *)
Definition energy_key (task_idx : nat) : string :=
  "task_" +:+ pretty task_idx +:+ "_energy_mae".

Definition forces_key (task_idx : nat) : string :=
  "task_" +:+ pretty task_idx +:+ "_forces_mae".

(** The resets that close a validation pass over [n] tasks. *)
Definition closing_resets (n : nat) : list event :=
  flat_map (λ task_idx, [WasReset Val Energy task_idx; WasReset Val Forces task_idx])
           (seq 0 n).

(** Events of a pass in eval mode: updates of validation accumulators. *)
Definition eval_update (e : event) : Prop := ∃ q i, e = Updated Val q i.

(** Events of the closing loop over the indices in [l]. *)
Definition closing_reset (l : list nat) (e : event) : Prop :=
  ∃ q i, i ∈ l ∧ e = WasReset Val q i.

Definition example_denormalize_context (batch_list : list (@Batch unit))
    (aggregated : gmap string (list bool))
    : result (list (@Batch unit) * gmap string (list bool)) :=
  Ok (batch_list, aggregated).

Definition example_base_compute_metrics (aggregated : gmap string (list bool))
    (batch_list : list (@Batch unit)) (metrics : gmap string scalar)
    : result (gmap string scalar) :=
  Ok metrics.

Definition example_loader : list (gmap string unit * list (@Batch unit)) :=
  [ ({[ "energy" := (); "forces" := () ]}, [example_batch]) ].

(** The rows of [x] (one per atom) that [index] maps to structure [s]. *)
Definition structure_rows {A} (x : matrix A) (index : list nat) (s : nat) : list (list A) :=
  (filter (λ p, p.1 = s) (zip index (m_rows x))).*2.

(** Total of the loss of the atoms of structure [s], for task [t]. *)
Definition structure_total (x : matrix scalar) (index : list nat) (s t : nat) : scalar :=
  column_total (Mat (m_cols x) (structure_rows x index s)) t.

(** Number of valid atoms of structure [s] for task [t]. *)
Definition structure_count (mask : matrix bool) (index : list nat) (s t : nat) : nat :=
  column_count (Mat (m_cols mask) (structure_rows mask index s)) t.

(** Number of output rows of a scatter along [index]. *)
Definition num_structures (index : list nat) : nat :=
  match index with [] => 0%nat | _ => S (max_list index) end.

(** The matrix with [n] rows and [c] columns whose entry (s, t) is [f s t]. *)
Definition tabulate {A} (c n : nat) (f : nat → nat → A) : matrix A :=
  Mat c ((λ s, f s <$> seq 0 c) <$> seq 0 n).

(** The per-structure loss and mask, as the specification words them. *)
Definition swm_loss (loss : matrix scalar) (mask : matrix bool) (index : list nat)
    : matrix scalar :=
  tabulate (m_cols loss) (num_structures index)
    (λ s t, safe_quotient (structure_total loss index s t) (structure_count mask index s t)).

Definition swm_mask (loss : matrix scalar) (mask : matrix bool) (index : list nat)
    : matrix bool :=
  tabulate (m_cols loss) (num_structures index)
    (λ s t, bool_decide (0 < structure_count mask index s t)%nat).

(** What one call of [_compute_metrics] may log: updates in the phase at
    hand and, on a print step in training mode, resets of the training
    accumulators of the task indices. *)
Definition metrics_event {Tgt : Type} (self : @Trainer Tgt) (e : event) : Prop :=
  (∃ q i, e = Updated (metric_phase self) q i) ∨
  (training self = true ∧ (step self mod print_every self = 0)%nat ∧
   ∃ q i, (i < num_tasks self)%nat ∧ e = WasReset Train q i).

(** The events logged between two states of the trainer. *)
Definition logged {Tgt : Type} (self self' : @Trainer Tgt) (evs : list event) : Prop :=
  events (per_task self') = events (per_task self) ++ evs.

(** The keys of the four accumulator dictionaries are the task indices. *)
Definition keys_are_tasks {Tgt : Type} (self : @Trainer Tgt) : Prop :=
  ∀ p q i, is_Some (maes p q (per_task self) !! i) ↔ (i < num_tasks self)%nat.

(** Two trainers that differ at most in what their accumulators hold (and in
    the ghost log): same configuration, same keys in the four dictionaries. *)
Definition same_but_accumulators {Tgt : Type} (self1 self2 : @Trainer Tgt) : Prop :=
  self2 = set_per_task (per_task self2) self1 ∧
  ∀ p q, dom (maes p q (per_task self2)) = dom (maes p q (per_task self1)).

(** * Properties *)

(** ** The tensor operations agree with the flattened view *)

Class TensorLaws (F : Type → Type) `{!Tensor F} : Prop := {
  tbroadcast_same : ∀ {A B} (x : F A) (y : F B),
    same_shape x y → tbroadcast x y = Ok (x, y);
  telems_tmap : ∀ {A B} (f : A → B) (x : F A),
    telems (tmap f x) = f <$> telems x;
  telems_tzip : ∀ {A B C} (f : A → B → C) (x : F A) (y : F B),
    same_shape x y → telems (tzip f x y) = zip_with f (telems x) (telems y);
  same_shape_refl : ∀ {A} (x : F A), same_shape x x;
  same_shape_tmap : ∀ {A B} (f : A → B) (x : F A), same_shape x (tmap f x);
  same_shape_tzip : ∀ {A B C D} (f : B → C → D) (x : F A) (y : F B) (z : F C),
    same_shape x y → same_shape y z → same_shape x (tzip f y z);
  same_shape_length : ∀ {A B} (x : F A) (y : F B),
    same_shape x y → length (telems x) = length (telems y)
}.

#[global] Instance tensor0_TensorLaws : TensorLaws tensor0.
Proof. split; done. Qed.

#[global] Instance list_TensorLaws : TensorLaws list.
Proof.
  split.
  - intros A B x y H. cbn in *. unfold bdim. rewrite H.
    rewrite decide_True by done. cbn. unfold expand.
    by rewrite !decide_True by done.
  - done.
  - done.
  - done.
  - intros. cbn. by rewrite length_fmap.
  - intros A B C D f x y z Hxy Hyz. cbn in *. rewrite length_zip_with. lia.
  - done.
Qed.

Lemma concat_zip_with {A B C} (f : A → B → C) (x : list (list A)) (y : list (list B)) :
  rows_same_shape x y →
  concat (zip_with (zip_with f) x y) = zip_with f (concat x) (concat y).
Proof.
  induction 1 as [|r r' x y Hr _ IH]; [done|].
  cbn. rewrite IH. symmetry. by apply zip_with_app.
Qed.

Lemma rows_same_shape_length {A B} (x : list (list A)) (y : list (list B)) :
  rows_same_shape x y → length (concat x) = length (concat y).
Proof.
  induction 1 as [|r r' x y Hr _ IH]; [done|].
  cbn. rewrite !length_app. by rewrite Hr, IH.
Qed.

#[global] Instance matrix_TensorLaws : TensorLaws matrix.
Proof.
  split.
  - intros A B [c x] [c' y] [Hc H]. cbn in *. subst c'.
    pose proof (Forall2_length _ _ _ H) as Hl.
    unfold bdim. rewrite Hl, !decide_True by done. cbn.
    unfold expand. rewrite !decide_True by done.
    destruct (decide (c = c)); [|done].
    by rewrite !list_fmap_id.
  - intros A B f [c rs]. cbn. induction rs as [|r rs IH]; [done|].
    cbn. by rewrite fmap_app, IH.
  - intros A B C f x y [_ H]. cbn. by apply concat_zip_with.
  - intros A [c rs]. cbn. split; [done|].
    induction rs as [|r rs IH]; by constructor.
  - intros A B f [c rs]. cbn. split; [done|].
    induction rs as [|r rs IH]; constructor; [by rewrite length_fmap|done].
  - intros A B C D f [c1 x] [c2 y] [c3 z] [Hc Hxy] [Hc' Hyz]. cbn in *.
    split; [done|]. clear Hc Hc'. revert z Hyz.
    induction Hxy as [|r r' x y Hr _ IH]; intros z Hyz.
    + inversion Hyz. constructor.
    + inversion Hyz as [|r'' ? z' ? Hr' Hyz']; subst. cbn. constructor.
      * rewrite length_zip_with. lia.
      * by apply IH.
  - intros A B x y [_ H]. cbn. by apply rows_same_shape_length.
Qed.

(** ** Scalars *)

Lemma fdiv_1 (x : scalar) : fdiv x (Fin 1) = x.
Proof.
  destruct x as [a| | |]; cbn; try done.
  rewrite decide_False by done. f_equal. apply (right_id 1 Qcdiv).
Qed.

Lemma eq0_true (x : scalar) : eq0 x = true ↔ x = Fin 0.
Proof.
  destruct x as [a| | |]; cbn; try (split; done).
  rewrite bool_decide_eq_true. split; [by intros ->|by intros [=]].
Qed.

Lemma fdiv_finite (a b : Qc) : b ≠ 0 → fdiv (Fin a) (Fin b) = Fin (a / b).
Proof. intros Hb. cbn. by rewrite decide_False. Qed.

(** ** C1: [_safe_divide] *)

Section safe_divide.
Context {F : Type → Type} `{!Tensor F, !TensorLaws F}.

Lemma masked_fill_elems (b : F scalar) :
  telems (masked_fill b (teq0 b) (Fin 1)) = fill_zero <$> telems b.
Proof.
  unfold masked_fill, teq0.
  rewrite telems_tzip by apply same_shape_tmap.
  rewrite telems_tmap.
  generalize (telems b). intros l.
  induction l as [|y l IH]; [done|]. cbn. by rewrite IH.
Qed.

Lemma safe_divide_ok (a b : F scalar) :
  same_shape a b →
  _safe_divide a b = Ok (tzip fdiv a (masked_fill b (teq0 b) (Fin 1))).
Proof.
  intros H. unfold _safe_divide, tdiv.
  rewrite tbroadcast_same; [done|].
  apply same_shape_tzip; [done|apply same_shape_tmap].
Qed.

Lemma safe_divide_elems (a b r : F scalar) :
  same_shape a b → _safe_divide a b = Ok r →
  telems r = zip_with (λ x y, fdiv x (fill_zero y)) (telems a) (telems b).
Proof.
  intros H Hr. rewrite safe_divide_ok in Hr by done. injection Hr as <-.
  rewrite telems_tzip
    by (apply same_shape_tzip; [done|apply same_shape_tmap]).
  rewrite masked_fill_elems.
  generalize (telems a) (telems b). intros la.
  induction la as [|x la IH]; intros [|y lb]; cbn; [done..|].
  by rewrite IH.
Qed.
End safe_divide.

(** C1.  For tensors [a] and [b] of one shape, [_safe_divide a b] does not
    raise; its result has the shape of [a] and is, entry by entry, [a]
    divided by [b] with every zero replaced by 1.  Where [b] is zero the
    result is the entry of [a], and where the entries of [a] and [b] are
    finite the result is finite (no NaN or infinity comes from a zero
    denominator). *)
Theorem safe_divide_spec {F : Type → Type} `{!Tensor F, !TensorLaws F}
    (a b : F scalar) :
  same_shape a b →
  ∃ r, _safe_divide a b = Ok r ∧ same_shape a r ∧
    telems r = zip_with (λ x y, fdiv x (if eq0 y then Fin 1 else y))
                        (telems a) (telems b) ∧
    (∀ i, telems b !! i = Some (Fin 0) → telems r !! i = telems a !! i) ∧
    (∀ i x y, telems a !! i = Some (Fin x) → telems b !! i = Some (Fin y) →
              ∃ z, telems r !! i = Some (Fin z)).
Proof.
  intros H. eexists. split; [by apply safe_divide_ok|].
  assert (He := safe_divide_elems a b _ H (safe_divide_ok a b H)).
  split; [|split; [exact He|split]].
  - apply same_shape_tzip; [apply same_shape_refl|].
    apply same_shape_tzip; [done|apply same_shape_tmap].
  - intros i Hb. rewrite He, lookup_zip_with, Hb.
    destruct (telems a !! i) as [x|] eqn:Ha; cbn; [|done].
    f_equal. apply fdiv_1.
  - intros i x y Ha Hb.
    assert (∃ z, fdiv (Fin x) (if eq0 (Fin y) then Fin 1 else Fin y) = Fin z)
      as [z Hz].
    { unfold eq0. destruct (bool_decide_reflect (y = 0)) as [->|Hy].
      - exists x. apply fdiv_1.
      - exists (x / y). by apply fdiv_finite. }
    exists z. rewrite He, lookup_zip_with, Ha, Hb. by rewrite <- Hz.
Qed.

Lemma safe_divide_spec_witness :
  ∃ r, _safe_divide [Fin 1; Fin 0] [Fin 0; Fin 1] = Ok r ∧
    same_shape [Fin 1; Fin 0] r ∧
    telems r = zip_with (λ x y, fdiv x (if eq0 y then Fin 1 else y))
                        (telems [Fin 1; Fin 0]) (telems [Fin 0; Fin 1]) ∧
    (∀ i, telems [Fin 0; Fin 1] !! i = Some (Fin 0) →
          telems r !! i = telems [Fin 1; Fin 0] !! i) ∧
    (∀ i x y, telems [Fin 1; Fin 0] !! i = Some (Fin x) →
              telems [Fin 0; Fin 1] !! i = Some (Fin y) →
              ∃ z, telems r !! i = Some (Fin z)).
Proof. apply (safe_divide_spec (F:=list) [Fin 1; Fin 0] [Fin 0; Fin 1]). reflexivity. Defined.

(** ** Sums and counts *)

Lemma of_nat_S (n : nat) : of_nat (S n) = fadd (of_nat n) (Fin 1).
Proof.
  unfold of_nat. cbn. f_equal.
  by rewrite Nat2Z.inj_succ, <- Z.add_1_r, Z2Qc_inj_add, Z2Qc_inj_1.
Qed.

Lemma of_nat_0 : of_nat 0 = Fin 0.
Proof. unfold of_nat. f_equal. apply Z2Qc_inj_0. Qed.

Lemma eq0_of_nat (n : nat) : eq0 (of_nat n) = bool_decide (n = 0%nat).
Proof.
  unfold of_nat, eq0. apply bool_decide_ext.
  rewrite <- Z2Qc_inj_0, Z2Qc_inj_iff. lia.
Qed.

Lemma fadd_0_r (x : scalar) : fadd x (Fin 0) = x.
Proof. destruct x; cbn; [|done..]. by rewrite Qcplus_0_r. Qed.

Lemma count_true_cons (b : bool) (l : list bool) :
  count_true (b :: l) = ((if b then 1 else 0) + count_true l)%nat.
Proof.
  unfold count_true. destruct b.
  - by rewrite filter_cons_True by done.
  - by rewrite filter_cons_False by done.
Qed.

Lemma fsum_b2s_from (k : nat) (l : list bool) :
  foldl fadd (of_nat k) (b2s <$> l) = of_nat (k + count_true l).
Proof.
  revert k. induction l as [|b l IH]; intros k.
  - cbn. by rewrite Nat.add_0_r.
  - rewrite count_true_cons, fmap_cons. cbn [foldl]. destruct b.
    + cbn [b2s]. rewrite <- of_nat_S, IH. f_equal. lia.
    + cbn [b2s]. rewrite fadd_0_r, IH. f_equal.
Qed.

Lemma fsum_b2s (l : list bool) : fsum (b2s <$> l) = of_nat (count_true l).
Proof. unfold fsum. rewrite <- of_nat_0. apply (fsum_b2s_from 0). Qed.

Lemma safe_divide0 (s c : scalar) :
  _safe_divide (T0 s) (T0 c) = Ok (T0 (fdiv s (fill_zero c))).
Proof. done. Qed.

Lemma safe_quotient_fill (s : scalar) (n : nat) :
  fdiv s (fill_zero (of_nat n)) = safe_quotient s n.
Proof.
  unfold fill_zero, safe_quotient. rewrite eq0_of_nat.
  destruct (decide (n = 0%nat)) as [->|Hn].
  - apply fdiv_1.
  - by rewrite bool_decide_eq_false_2.
Qed.

Lemma count_true_all (l : list bool) :
  Forall (λ b, b = true) l → count_true l = length l.
Proof.
  induction 1 as [|b l Hb _ IH]; [done|].
  rewrite count_true_cons, IH, Hb. done.
Qed.

Lemma concat_fmap_fmap {A B} (f : A → B) (x : list (list A)) :
  concat (fmap (M:=list) (fmap (M:=list) f) x) = f <$> concat x.
Proof.
  induction x as [|r x IH]; [done|]. cbn. by rewrite fmap_app, IH.
Qed.

(** ** C4: the [mean] and [sum] reductions *)

Lemma reduce_loss_mean (loss : matrix scalar) (mask : matrix bool) :
  _reduce_loss loss mask "mean" = Ok (T0 (mean_spec loss mask)).
Proof.
  unfold _reduce_loss. rewrite decide_False by done. rewrite decide_True by done.
  unfold reduce_bt_sum. rewrite safe_divide0. do 2 f_equal.
  cbn [tmap matrix_Tensor m_rows]. rewrite concat_fmap_fmap, fsum_b2s.
  apply safe_quotient_fill.
Qed.

(** C4 (as amended).  [_reduce_loss] with kind [sum] returns the total of all
    loss entries; with kind [mean] it returns the total of the loss over the
    number of true mask entries, a zero count being replaced by 1; for an
    all-true mask over a tensor with at least one entry this is
    [sum(loss) / numel(loss)]. *)
Theorem reduce_loss_mean_sum_spec (loss : matrix scalar) (mask : matrix bool) :
  _reduce_loss loss mask "sum" = Ok (T0 (fsum (telems loss))) ∧
  _reduce_loss loss mask "mean" = Ok (T0 (mean_spec loss mask)) ∧
  (same_shape loss mask → Forall (λ b, b = true) (telems mask) →
   telems loss ≠ [] →
   _reduce_loss loss mask "mean"
   = Ok (T0 (fdiv (fsum (telems loss)) (of_nat (length (telems loss)))))).
Proof.
  split; [done|]. split; [apply reduce_loss_mean|].
  intros Hs Hall Hne. rewrite reduce_loss_mean. do 2 f_equal.
  unfold mean_spec, safe_quotient.
  rewrite (count_true_all _ Hall), <- (same_shape_length _ _ Hs).
  rewrite decide_False; [done|].
  by destruct (telems loss).
Qed.

Lemma reduce_loss_mean_sum_spec_witness :
  _reduce_loss (Mat 1 [[num 3]; [num 5]]) (Mat 1 [[true]; [true]]) "mean"
  = Ok (T0 (fdiv (fsum (telems (Mat 1 [[num 3]; [num 5]])))
                 (of_nat (length (telems (Mat 1 [[num 3]; [num 5]])))))).
Proof.
  apply (proj2 (proj2 (reduce_loss_mean_sum_spec
                         (Mat 1 [[num 3]; [num 5]]) (Mat 1 [[true]; [true]])))).
  - split; [reflexivity|]. repeat constructor.
  - repeat constructor.
  - discriminate.
Defined.

(** C4 as first stated fails on a tensor without entries: the mask is
    (vacuously) all true, [mean] gives 0, and [sum(loss) / numel(loss)] is
    0/0. *)
Lemma reduce_loss_mean_empty_counterexample :
  same_shape (Mat 1 ([] : list (list scalar))) (Mat 1 ([] : list (list bool))) ∧
  Forall (λ b, b = true) (telems (Mat 1 ([] : list (list bool)))) ∧
  _reduce_loss (Mat 1 []) (Mat 1 []) "mean" = Ok (T0 (Fin 0)) ∧
  fdiv (fsum (telems (Mat 1 ([] : list (list scalar)))))
       (of_nat (length (telems (Mat 1 ([] : list (list scalar)))))) = NaN ∧
  _reduce_loss (Mat 1 []) (Mat 1 []) "mean"
  ≠ Ok (T0 (fdiv (fsum (telems (Mat 1 ([] : list (list scalar)))))
                 (of_nat (length (telems (Mat 1 ([] : list (list scalar)))))))).
Proof.
  split; [split; [done|constructor]|].
  split; [constructor|].
  split; [by_eval|]. split; [by_eval|]. by_eval.
Qed.

(** ** Column sums *)

Lemma foldl_zip_with_fadd (rows : list (list scalar)) (acc : list scalar) :
  Forall (λ r, length r = length acc) rows →
  foldl (zip_with fadd) acc rows
  = (λ t, foldl fadd (default (Fin 0) (acc !! t))
                ((λ r, default (Fin 0) (r !! t)) <$> rows))
      <$> seq 0 (length acc).
Proof.
  revert acc. induction rows as [|r rows IH]; intros acc Hwf.
  - cbn. apply list_eq. intros i. rewrite list_lookup_fmap.
    destruct (decide (i < length acc)%nat) as [Hi|Hi].
    + rewrite lookup_seq_lt by done. cbn.
      destruct (lookup_lt_is_Some_2 acc i Hi) as [x Hx]. by rewrite Hx.
    + rewrite lookup_seq_ge by lia. cbn. apply lookup_ge_None. lia.
  - inversion Hwf as [|? ? Hr Hwf']; subst.
    cbn [foldl]. rewrite IH.
    + rewrite length_zip_with, Hr, Nat.min_id.
      apply list_fmap_ext. intros i t Ht.
      apply lookup_seq in Ht as [-> Ht]. change (0 + i)%nat with i.
      cbn [fmap list_fmap foldl].
      rewrite lookup_zip_with.
      destruct (lookup_lt_is_Some_2 acc i Ht) as [x Hx].
      destruct (lookup_lt_is_Some_2 r i ltac:(lia)) as [y Hy].
      by rewrite Hx, Hy.
    + rewrite length_zip_with, Hr, Nat.min_id.
      eapply Forall_impl; [exact Hwf'|]. cbn. intros; lia.
Qed.

Lemma reduce_bt_t_sum_columns (x : matrix scalar) :
  mat_wf x → reduce_bt_t_sum x = column_total x <$> seq 0 (m_cols x).
Proof.
  intros Hwf. unfold reduce_bt_t_sum. rewrite foldl_zip_with_fadd.
  - rewrite length_replicate. apply list_fmap_ext. intros i t Ht.
    apply lookup_seq in Ht as [-> Ht]. change (0 + i)%nat with i.
    by rewrite lookup_replicate_2.
  - by rewrite length_replicate.
Qed.

Lemma column_total_b2s (m : matrix bool) (t : nat) :
  column_total (tmap b2s m) t = of_nat (column_count m t).
Proof.
  unfold column_total, column_count. rewrite <- fsum_b2s. f_equal.
  cbn [tmap matrix_Tensor m_rows]. rewrite <- !list_fmap_compose.
  apply list_fmap_ext. intros i r _. cbn. rewrite list_lookup_fmap.
  by destruct (r !! t).
Qed.

Lemma mat_wf_tmap {A B} (f : A → B) (x : matrix A) : mat_wf x → mat_wf (tmap f x).
Proof.
  unfold mat_wf. cbn. intros H. apply Forall_fmap.
  eapply Forall_impl; [exact H|]. intros r Hr. cbn. by rewrite length_fmap.
Qed.

(** ** C3: the [task_mean] reduction *)

Lemma zip_with_fmap_same {A B C D} (h : B → C → D) (f : A → B) (g : A → C) (l : list A) :
  zip_with h (f <$> l) (g <$> l) = (λ t, h (f t) (g t)) <$> l.
Proof. induction l as [|x l IH]; [done|]. cbn. by rewrite IH. Qed.

Lemma safe_divide_columns (loss : matrix scalar) (mask : matrix bool) :
  mat_wf loss → mat_wf mask → m_cols loss = m_cols mask →
  _safe_divide (reduce_bt_t_sum loss) (reduce_bt_t_sum (tmap b2s mask))
  = Ok (per_task_mean loss mask <$> seq 0 (m_cols loss)).
Proof.
  intros Hl Hm Hc.
  rewrite (reduce_bt_t_sum_columns loss) by done.
  rewrite (reduce_bt_t_sum_columns (tmap b2s mask)) by by apply mat_wf_tmap.
  change (m_cols (tmap b2s mask)) with (m_cols mask). rewrite <- Hc.
  assert (Hs : same_shape (column_total loss <$> seq 0 (m_cols loss))
                 (column_total (tmap b2s mask) <$> seq 0 (m_cols loss))).
  { cbn. by rewrite !length_fmap. }
  pose proof (safe_divide_ok _ _ Hs) as Hok.
  pose proof (safe_divide_elems _ _ _ Hs Hok) as He.
  rewrite Hok. f_equal. cbn [telems list_Tensor] in He. rewrite He.
  rewrite zip_with_fmap_same. apply list_fmap_ext. intros i t _.
  rewrite column_total_b2s. apply safe_quotient_fill.
Qed.

Lemma reduce_loss_task_mean (loss : matrix scalar) (mask : matrix bool) :
  mat_wf loss → mat_wf mask → m_cols loss = m_cols mask →
  _reduce_loss loss mask "task_mean" = Ok (T0 (task_mean_spec loss mask)).
Proof.
  intros Hl Hm Hc. unfold _reduce_loss.
  rewrite !decide_False by done. rewrite decide_True by done.
  by rewrite safe_divide_columns.
Qed.

(** C3.  On a loss tensor and a mask of shape (examples, tasks),
    [_reduce_loss] with kind [task_mean] returns the unweighted arithmetic
    mean, over the tasks, of the per-task quotient (column total of the loss
    over the column count of the mask, a zero count replaced by 1).  With
    task A active on one example of loss 4 and task B active on three examples
    of loss 2 each, [task_mean] is 3 and [mean] is 5/2. *)
Theorem reduce_loss_task_mean_spec :
  (∀ (loss : matrix scalar) (mask : matrix bool),
     mat_wf loss → mat_wf mask → m_cols loss = m_cols mask →
     _reduce_loss loss mask "task_mean" = Ok (T0 (task_mean_spec loss mask))) ∧
  _reduce_loss
    (Mat 2 [[num 4; num 0]; [num 0; num 2]; [num 0; num 2]; [num 0; num 2]])
    (Mat 2 [[true; false]; [false; true]; [false; true]; [false; true]])
    "task_mean" = Ok (T0 (num 3)) ∧
  _reduce_loss
    (Mat 2 [[num 4; num 0]; [num 0; num 2]; [num 0; num 2]; [num 0; num 2]])
    (Mat 2 [[true; false]; [false; true]; [false; true]; [false; true]])
    "mean" = Ok (T0 (ratio 5 2)).
Proof.
  split; [exact reduce_loss_task_mean|]. split; by_eval.
Qed.

Lemma reduce_loss_task_mean_spec_witness :
  _reduce_loss (Mat 2 [[num 4; num 0]; [num 0; num 2]])
               (Mat 2 [[true; false]; [false; true]]) "task_mean"
  = Ok (T0 (task_mean_spec (Mat 2 [[num 4; num 0]; [num 0; num 2]])
                           (Mat 2 [[true; false]; [false; true]]))).
Proof.
  apply (proj1 reduce_loss_task_mean_spec).
  - repeat constructor.
  - repeat constructor.
  - reflexivity.
Defined.

(** ** C5: unknown reduction kinds *)

Lemma length_reduce_bt_t_sum (x : matrix scalar) :
  mat_wf x → length (reduce_bt_t_sum x) = m_cols x.
Proof.
  intros H. rewrite reduce_bt_t_sum_columns by done.
  by rewrite length_fmap, length_seq.
Qed.

(** C5.  [_reduce_loss] raises [ValueError] for every reduction kind other
    than [sum], [mean] and [task_mean], and returns a value for each of these
    three on a loss tensor and a mask of shape (examples, tasks). *)
Theorem reduce_loss_kinds (loss : matrix scalar) (mask : matrix bool)
    (reduction : string) :
  (reduction ∉ ["sum"; "mean"; "task_mean"] →
   _reduce_loss loss mask reduction
   = Raise (ValueError ("Unknown redution: " +:+ reduction))) ∧
  (mat_wf loss → mat_wf mask → m_cols loss = m_cols mask →
   reduction ∈ ["sum"; "mean"; "task_mean"] →
   ∃ v, _reduce_loss loss mask reduction = Ok v).
Proof.
  split.
  - intros Hn. unfold _reduce_loss.
    rewrite !decide_False; [done|set_solver..].
  - intros Hl Hm Hc Hin.
    apply elem_of_cons in Hin as [->|Hin]; [by eexists|].
    apply elem_of_cons in Hin as [->|Hin];
      [eexists; apply reduce_loss_mean|].
    apply list_elem_of_singleton in Hin as ->.
    eexists. by apply reduce_loss_task_mean.
Qed.

Lemma reduce_loss_kinds_witness :
  _reduce_loss (Mat 1 [[num 3]]) (Mat 1 [[true]]) "max"
  = Raise (ValueError ("Unknown redution: " +:+ "max")) ∧
  ∃ v, _reduce_loss (Mat 1 [[num 3]]) (Mat 1 [[true]]) "task_mean" = Ok v.
Proof.
  split.
  - apply (proj1 (reduce_loss_kinds (Mat 1 [[num 3]]) (Mat 1 [[true]]) "max")).
    vm_compute. intros H. repeat (apply elem_of_cons in H as [H|H]; [discriminate|]).
    by apply elem_of_nil in H.
  - apply (proj2 (reduce_loss_kinds (Mat 1 [[num 3]]) (Mat 1 [[true]]) "task_mean")).
    + repeat constructor.
    + repeat constructor.
    + reflexivity.
    + set_solver.
Defined.

(** ** Loops that can raise *)

Lemma traverse_ok {A B} (f : A → result B) (g : A → B) (xs : list A) :
  (∀ x, x ∈ xs → f x = Ok (g x)) → traverse f xs = Ok (g <$> xs).
Proof.
  induction xs as [|x xs IH]; intros H; [done|]. cbn.
  rewrite (H x) by set_solver. cbn. rewrite IH by set_solver. done.
Qed.

Lemma traverse_ext {A B} (f g : A → result B) (xs : list A) :
  (∀ x, f x = g x) → traverse f xs = traverse g xs.
Proof.
  intros H. induction xs as [|x xs IH]; [done|]. cbn. by rewrite H, IH.
Qed.

Lemma foldM_inv {A B} (P : B → Prop) (f : B → A → result B) (xs : list A)
    (acc r : B) :
  (∀ b x b', x ∈ xs → P b → f b x = Ok b' → P b') →
  P acc → foldM f acc xs = Ok r → P r.
Proof.
  revert acc. induction xs as [|x xs IH]; intros acc Hf Hacc Hr; cbn in Hr.
  - by injection Hr as <-.
  - destruct (f acc x) as [b|e] eqn:Hb; [|done]. cbn in Hr.
    apply (IH b); [|by apply (Hf acc x b); [left|..]|done].
    intros b0 x0 b0' Hx0. apply Hf. by right.
Qed.

(** ** C7: [_apply_loss_coefficient] *)

Section loss_coefficient.
Context {Tgt : Type}.
Implicit Types (self : @Trainer Tgt) (loss_info : @LossFn Tgt).

Lemma task_by_idx_ok (c : MultiTaskConfig) (t : nat) :
  (∃ task, task ∈ tasks c ∧ idx task = t) → ∃ task, task_by_idx c t = Ok task.
Proof.
  intros (task & Hin & Ht). unfold task_by_idx.
  destruct (list_find_elem_of (λ x, idx x = t) (tasks c) task Hin Ht) as [[i x] ->].
  by eexists.
Qed.

Lemma mul_row_same (loss : matrix scalar) (coeff : list scalar) :
  m_cols loss = length coeff →
  mul_row loss coeff
  = Ok (Mat (m_cols loss) ((λ row, zip_with fmul row coeff) <$> m_rows loss)).
Proof.
  intros H. unfold mul_row, bdim. rewrite decide_True by done. cbn.
  unfold expand. rewrite <- H. rewrite !decide_True by done.
  by destruct (decide (m_cols loss = m_cols loss)).
Qed.
End loss_coefficient.

(** C7.  With one configured task per index below [num_tasks] and a loss
    tensor with [num_tasks] columns, [_apply_loss_coefficient] returns the
    loss with every row multiplied entry by entry by a vector of length
    [num_tasks]; entry [t] of the vector is the coefficient that the task with
    index [t] configures for the targeted quantity, and 1 when it configures
    none. *)
Theorem apply_loss_coefficient_spec {Tgt : Type} (self : @Trainer Tgt)
    (loss : matrix scalar) (loss_info : @LossFn Tgt) :
  m_cols loss = num_tasks self →
  (∀ t, (t < num_tasks self)%nat →
        ∃ task, task ∈ tasks (multi_task_config self) ∧ idx task = t) →
  ∃ coeff,
    _apply_loss_coefficient self loss loss_info
    = Ok (Mat (m_cols loss) ((λ row, zip_with fmul row coeff) <$> m_rows loss)) ∧
    length coeff = num_tasks self ∧
    (∀ t task, (t < num_tasks self)%nat →
       task_by_idx (multi_task_config self) t = Ok task →
       coeff !! t = Some (configured_coefficient task (target (config loss_info))) ∧
       (loss_coefficients task !! target (config loss_info) = None →
        coeff !! t = Some (Fin 1))).
Proof.
  intros Hc Htasks.
  set (Q := target (config loss_info)).
  set (pick := λ t, match task_by_idx (multi_task_config self) t with
                    | Ok task => configured_coefficient task Q
                    | Raise _ => Fin 1
                    end).
  exists (pick <$> seq 0 (num_tasks self)).
  assert (Hlen : length (pick <$> seq 0 (num_tasks self)) = num_tasks self)
    by by rewrite length_fmap, length_seq.
  split; [|split; [exact Hlen|]].
  - unfold _apply_loss_coefficient.
    rewrite (traverse_ok _ pick).
    + cbn. apply mul_row_same. by rewrite Hlen.
    + intros t Ht. apply elem_of_seq in Ht.
      destruct (task_by_idx_ok _ t (Htasks t ltac:(lia))) as [task Htask].
      unfold pick. rewrite Htask. cbn. unfold configured_coefficient, Q.
      by destruct (loss_coefficients task !! _).
  - intros t task Ht Htask.
    assert (Hl : (pick <$> seq 0 (num_tasks self)) !! t
                 = Some (configured_coefficient task Q)).
    { rewrite list_lookup_fmap, lookup_seq_lt by done. cbn.
      unfold pick. by rewrite Htask. }
    split; [exact Hl|]. intros Hnone. rewrite Hl.
    unfold configured_coefficient. by rewrite Hnone.
Qed.

Example apply_loss_coefficient_ex :
  _apply_loss_coefficient example_trainer (Mat 3 [[num 3; num 5; num 7]])
                          example_energy_loss
  = Ok (Mat 3 [[num 6; num 5; num 7]]).
Proof. by_eval. Qed.

Lemma apply_loss_coefficient_spec_witness :
  ∃ coeff,
    _apply_loss_coefficient example_trainer (Mat 3 [[num 3; num 5; num 7]])
                            example_energy_loss
    = Ok (Mat 3 ((λ row, zip_with fmul row coeff) <$> [[num 3; num 5; num 7]])) ∧
    length coeff = 3%nat ∧
    (∀ t task, (t < 3)%nat →
       task_by_idx example_config t = Ok task →
       coeff !! t = Some (configured_coefficient task "energy") ∧
       (loss_coefficients task !! "energy" = None → coeff !! t = Some (Fin 1))).
Proof.
  apply (apply_loss_coefficient_spec example_trainer
           (Mat 3 [[num 3; num 5; num 7]]) example_energy_loss).
  - reflexivity.
  - intros t Ht. change (num_tasks example_trainer) with 3%nat in Ht.
    destruct t as [|[|[|t]]]; [| | |lia].
    + eexists. split; [apply list_elem_of_here|reflexivity].
    + eexists. split; [apply list_elem_of_further, list_elem_of_here|reflexivity].
    + eexists. split; [do 2 apply list_elem_of_further; apply list_elem_of_here
                      |reflexivity].
Defined.

(** ** C6: [_validate_mt_outputs] *)

Section validate_outputs.
Context {Tgt : Type}.
Implicit Types (self : @Trainer Tgt).

Lemma shape_check (rank n : nat) (shape : list nat) :
  bool_decide (length shape = rank) && bool_decide (shape !! 1%nat = Some n) = true
  ↔ shape_ok rank n shape.
Proof.
  unfold shape_ok. rewrite andb_true_iff, !bool_decide_eq_true. done.
Qed.

Lemma validate_output_absent self outputs warnings target config :
  outputs !! target = None →
  validate_output self outputs warnings (target, config) = Ok (warnings ++ [target]).
Proof. intros H. cbn. by rewrite H. Qed.

Lemma validate_output_system self outputs warnings target config shape :
  outputs !! target = Some shape → configured_level config = "system" →
  validate_output self outputs warnings (target, config)
  = if decide (shape_ok 2 (num_tasks self) shape) then Ok warnings
    else Raise (AssertionError "System output should be (bsz, num_tasks)").
Proof.
  intros H Hl. cbn. rewrite H. fold (configured_level config). rewrite Hl.
  rewrite decide_True by done.
  destruct (decide (shape_ok 2 (num_tasks self) shape)) as [Hs|Hs].
  - apply shape_check in Hs. by rewrite Hs.
  - rewrite <- shape_check in Hs. apply not_true_is_false in Hs. by rewrite Hs.
Qed.

Lemma validate_output_atom self outputs warnings target config shape :
  outputs !! target = Some shape → configured_level config = "atom" →
  validate_output self outputs warnings (target, config)
  = if decide (shape_ok 3 (num_tasks self) shape) then Ok warnings
    else Raise (AssertionError "Atom output should be (n_atoms, num_tasks, 3)").
Proof.
  intros H Hl. cbn. rewrite H. fold (configured_level config). rewrite Hl.
  rewrite decide_False by done. rewrite decide_True by done.
  destruct (decide (shape_ok 3 (num_tasks self) shape)) as [Hs|Hs].
  - apply shape_check in Hs. by rewrite Hs.
  - rewrite <- shape_check in Hs. apply not_true_is_false in Hs. by rewrite Hs.
Qed.

Lemma validate_output_other self outputs warnings target config shape :
  outputs !! target = Some shape →
  configured_level config ≠ "system" → configured_level config ≠ "atom" →
  validate_output self outputs warnings (target, config)
  = Raise (NotImplementedError
             ("system='" +:+ configured_level config +:+ "' not implemented.")).
Proof.
  intros H Hs Ha. cbn. rewrite H. fold (configured_level config).
  by rewrite !decide_False by done.
Qed.

Lemma validate_output_ok self outputs warnings item ws :
  validate_output self outputs warnings item = Ok ws
  ↔ accepts (num_tasks self) outputs item
    ∧ ws = warnings ++ missing_targets outputs [item].
Proof.
  destruct item as [target config]. unfold accepts, missing_targets.
  cbn [fst snd].
  destruct (outputs !! target) as [shape|] eqn:Hout.
  - rewrite filter_cons_False by (cbn; by rewrite Hout).
    rewrite filter_nil. cbn [fmap list_fmap]. rewrite app_nil_r.
    destruct (decide (configured_level config = "system")) as [Hs|Hs].
    { rewrite (validate_output_system _ _ _ _ _ _ Hout Hs).
      case_decide.
      - split; [intros [= ->]; by auto|by intros [_ ->]].
      - split; [done|]. intros [[[_ ?]|[Ha _]] _]; [done|].
        rewrite Hs in Ha. discriminate. }
    destruct (decide (configured_level config = "atom")) as [Ha|Ha].
    { rewrite (validate_output_atom _ _ _ _ _ _ Hout Ha).
      case_decide.
      - split; [intros [= ->]; by auto|by intros [_ ->]].
      - split; [done|]. intros [[[? _]|[_ ?]] _]; done. }
    rewrite (validate_output_other _ _ _ _ _ _ Hout Hs Ha).
    split; [done|]. intros [[[? _]|[? _]] _]; done.
  - rewrite (validate_output_absent _ _ _ _ _ Hout).
    rewrite filter_cons_True by (cbn; by rewrite Hout).
    rewrite filter_nil. cbn.
    split; [by intros [= ->]|by intros [_ ->]].
Qed.

Lemma missing_targets_cons (outputs : gmap string (list nat)) item items :
  missing_targets outputs (item :: items)
  = missing_targets outputs [item] ++ missing_targets outputs items.
Proof.
  unfold missing_targets.
  destruct (decide (outputs !! item.1 = None)) as [H|H].
  - by rewrite !filter_cons_True by done.
  - by rewrite !filter_cons_False by done.
Qed.

Lemma validate_mt_outputs_from self outputs items warnings ws :
  foldM (validate_output self outputs) warnings items = Ok ws
  ↔ Forall (accepts (num_tasks self) outputs) items
    ∧ ws = warnings ++ missing_targets outputs items.
Proof.
  revert warnings. induction items as [|item items IH]; intros warnings.
  - unfold missing_targets. cbn. rewrite app_nil_r.
    split; [by intros [= ->]|by intros [_ ->]].
  - cbn [foldM].
    destruct (validate_output self outputs warnings item) as [w'|e] eqn:Hv;
      cbn [rbind].
    + apply validate_output_ok in Hv as [Hacc ->]. rewrite IH.
      rewrite Forall_cons, (missing_targets_cons _ item items).
      rewrite <- (assoc (++)).
      split; [by intros [? ->]|by intros [[_ ?] ->]].
    + split; [done|]. intros [Hall _]. apply Forall_cons in Hall as [Hacc _].
      assert (Hok := proj2 (validate_output_ok self outputs warnings item _)
                       (conj Hacc eq_refl)).
      rewrite Hv in Hok. discriminate.
Qed.
End validate_outputs.

(** C6.  For a configured target that the merged outputs contain,
    [_validate_mt_outputs] accepts the tensor exactly when it has rank 2
    (system level, also the default level) or rank 3 (atom level) and second
    dimension [num_tasks], raises an assertion error on any other shape, and
    raises [NotImplementedError] for any other level; a configured target
    that the outputs lack is only recorded as a warning.  The whole check
    succeeds exactly when every configured target is accepted, and then
    returns the warned targets.  With three tasks, a system-level tensor of
    shape (8, 3) passes and one of shape (8, 2) fails. *)
Theorem validate_mt_outputs_spec :
  (∀ (Tgt : Type) (self : @Trainer Tgt) (outputs : gmap string (list nat)),
    (∀ warnings target config shape,
       outputs !! target = Some shape →
       (configured_level config = "system" →
          (shape_ok 2 (num_tasks self) shape →
             validate_output self outputs warnings (target, config) = Ok warnings) ∧
          (¬ shape_ok 2 (num_tasks self) shape →
             ∃ msg, validate_output self outputs warnings (target, config)
                    = Raise (AssertionError msg))) ∧
       (configured_level config = "atom" →
          (shape_ok 3 (num_tasks self) shape →
             validate_output self outputs warnings (target, config) = Ok warnings) ∧
          (¬ shape_ok 3 (num_tasks self) shape →
             ∃ msg, validate_output self outputs warnings (target, config)
                    = Raise (AssertionError msg))) ∧
       (configured_level config ≠ "system" → configured_level config ≠ "atom" →
          ∃ msg, validate_output self outputs warnings (target, config)
                 = Raise (NotImplementedError msg))) ∧
    (∀ warnings target config,
       outputs !! target = None →
       validate_output self outputs warnings (target, config)
       = Ok (warnings ++ [target])) ∧
    (∀ ws, _validate_mt_outputs self outputs = Ok ws
           ↔ Forall (accepts (num_tasks self) outputs) (output_targets self)
             ∧ ws = missing_targets outputs (output_targets self))) ∧
  num_tasks example_trainer = 3%nat ∧
  _validate_mt_outputs example_trainer {[ "energy" := [8; 3]%nat ]} = Ok ["forces"] ∧
  _validate_mt_outputs example_trainer {[ "energy" := [8; 2]%nat ]}
  = Raise (AssertionError "System output should be (bsz, num_tasks)").
Proof.
  split; [|split; [done|split; by_eval]].
  intros Tgt self outputs. split; [|split].
  - intros warnings target config shape Hout. split; [|split].
    + intros Hl. rewrite (validate_output_system _ _ _ _ _ _ Hout Hl).
      split; intros Hs; [by rewrite decide_True|].
      rewrite decide_False by done. by eexists.
    + intros Hl. rewrite (validate_output_atom _ _ _ _ _ _ Hout Hl).
      split; intros Hs; [by rewrite decide_True|].
      rewrite decide_False by done. by eexists.
    + intros Hs Ha. rewrite (validate_output_other _ _ _ _ _ _ Hout Hs Ha).
      by eexists.
  - intros. by apply validate_output_absent.
  - intros ws. unfold _validate_mt_outputs.
    rewrite validate_mt_outputs_from. done.
Qed.

Lemma validate_mt_outputs_spec_witness :
  validate_output example_trainer {[ "energy" := [8; 3]%nat ]} []
    ("energy", {[ "level" := "system" ]}) = Ok [] ∧
  validate_output example_trainer {[ "energy" := [8; 3]%nat ]} []
    ("forces", {[ "level" := "atom" ]}) = Ok ([] ++ ["forces"]).
Proof.
  destruct (proj1 validate_mt_outputs_spec unit example_trainer
              {[ "energy" := [8; 3]%nat ]}) as (Hpresent & Habsent & _).
  split.
  - destruct (Hpresent [] "energy" {[ "level" := "system" ]} [8; 3]%nat)
      as (Hsystem & _).
    + reflexivity.
    + destruct Hsystem as [Hpass _].
      * reflexivity.
      * apply Hpass. split; reflexivity.
  - apply (Habsent [] "forces" {[ "level" := "atom" ]}). reflexivity.
Defined.

(** ** How the trainer's operations change the accumulators *)

Lemma maes_set_maes (p q p' q' : _) (d : gmap nat MeanAbsoluteError) (s : PerTaskMetrics) :
  maes p q (set_maes p' q' d s)
  = if decide (p = p' ∧ q = q') then d else maes p q s.
Proof. by destruct p, q, p', q'. Qed.

Lemma maes_log (p q : _) (e : event) (s : PerTaskMetrics) :
  maes p q (log e s) = maes p q s.
Proof. by destruct p, q. Qed.

Section evolution.
Context {Tgt : Type}.
Implicit Types (self : @Trainer Tgt) (E : event → Prop).

Lemma evolves_refl E self : evolves E self self.
Proof.
  split; [by destruct self|]. split; [|done].
  exists []. by rewrite app_nil_r.
Qed.

Lemma evolves_trans E self1 self2 self3 :
  evolves E self1 self2 → evolves E self2 self3 → evolves E self1 self3.
Proof.
  intros (Hf1 & (ev1 & He1 & HE1) & Hd1 & Hu1) (Hf2 & (ev2 & He2 & HE2) & Hd2 & Hu2).
  split; [|split; [|split]].
  - transitivity (set_per_task (per_task self3) self2); [exact Hf2|].
    by rewrite Hf1.
  - exists (ev1 ++ ev2). rewrite He2, He1, (assoc (++)). split; [done|].
    by apply Forall_app.
  - intros p q. by rewrite Hd2, Hd1.
  - intros p q i H. by rewrite Hu2, Hu1.
Qed.

Lemma evolves_weaken E E' self self' :
  (∀ e, E e → E' e) → evolves E self self' → evolves E' self self'.
Proof.
  intros HE (Hf & (evs & He & Hall) & Hd & Hu).
  split; [done|]. split; [|split; [done|]].
  - exists evs. split; [done|]. eapply Forall_impl; [exact Hall|done].
  - intros p q i H. apply Hu. intros e He'. apply H. by apply HE.
Qed.

(** Replacing the accumulator at an existing key [i] of family [(p, q)] and
    logging an event about it. *)
Lemma replace_evolves self (p : phase) (q : quantity) (i : nat)
    (m m' : MeanAbsoluteError) (e : event) :
  maes p q (per_task self) !! i = Some m → touches p q i e →
  evolves (λ e', e' = e) self
    (set_per_task
       (log e (set_maes p q (<[i := m']> (maes p q (per_task self))) (per_task self)))
       self).
Proof.
  intros Hm He. split; [done|]. split; [|split].
  - exists [e]. split; [done|]. by constructor.
  - intros p0 q0. cbn [per_task set_per_task].
    rewrite maes_log, maes_set_maes. case_decide as Hpq; [|done].
    destruct Hpq as [-> ->]. apply dom_insert_lookup_L. by eexists.
  - intros p0 q0 i0 Hno. cbn [per_task set_per_task].
    rewrite maes_log, maes_set_maes. case_decide as Hpq; [|done].
    destruct Hpq as [-> ->]. apply lookup_insert_ne. intros ->.
    by apply (Hno e).
Qed.

Lemma getitem_Ok {K V} `{Countable K, Pretty K} (d : gmap K V) (k : K) (v : V) :
  getitem d k = Ok v ↔ d !! k = Some v.
Proof.
  unfold getitem. destruct (d !! k); split; intros [=]; by subst.
Qed.

Lemma reset_Ok self (p : phase) (q : quantity) (i : nat) self' :
  reset p q i self = Ok self' →
  evolves (λ e, e = WasReset p q i) self self'
  ∧ maes p q (per_task self') !! i = Some MAE_new
  ∧ events (per_task self') = events (per_task self) ++ [WasReset p q i].
Proof.
  unfold reset. intros H.
  destruct (getitem (maes p q (per_task self)) i) as [m|] eqn:Hm; [|done].
  cbn in H. injection H as <-. apply getitem_Ok in Hm. split; [|split].
  - eapply replace_evolves; [done|by right].
  - cbn [per_task set_per_task]. rewrite maes_log, maes_set_maes.
    rewrite decide_True by done. apply lookup_insert_eq.
  - done.
Qed.

Lemma reset_is_Ok self (p : phase) (q : quantity) (i : nat) :
  is_Some (maes p q (per_task self) !! i) → ∃ self', reset p q i self = Ok self'.
Proof.
  intros [m Hm]. unfold reset. apply getitem_Ok in Hm. rewrite Hm. by eexists.
Qed.
End evolution.

Section forwarding.
Context {Tgt Sel : Type}.
Variable abs_error : Sel → Sel → result (scalar * nat).
Implicit Types (self : @Trainer Tgt).

Lemma forward_Ok self (p : phase) (q : quantity) (i : nat) (preds target : Sel)
    (v : scalar) self' :
  forward abs_error p q i preds target self = Ok (v, self') →
  evolves (λ e, e = Updated p q i) self self'
  ∧ ∃ m err n, maes p q (per_task self) !! i = Some m
      ∧ abs_error preds target = Ok (err, n)
      ∧ v = MAE_compute (MAE_update MAE_new err n)
      ∧ maes p q (per_task self') !! i = Some (MAE_update m err n).
Proof.
  unfold forward. intros H.
  destruct (getitem (maes p q (per_task self)) i) as [m|] eqn:Hm; [|done].
  cbn in H. destruct (abs_error preds target) as [[err n]|] eqn:Herr; [|done].
  cbn in H. injection H as <- <-. apply getitem_Ok in Hm. split.
  - eapply replace_evolves; [done|by left].
  - exists m, err, n. split_and!; [done..|].
    cbn [per_task set_per_task]. rewrite maes_log, maes_set_maes.
    rewrite decide_True by done. apply lookup_insert_eq.
Qed.
End forwarding.

(** ** C10: tasks without an active example *)

Section per_task_metrics.
Context {Tgt Sel : Type}.
Variable cat_targets : list Tgt → result Tgt.
Variable select : Tgt → matrix bool → result Sel.
Variable abs_error : Sel → Sel → result (scalar * nat).
Variable denormalize_tensors :
  list (@Batch Tgt) → string → Sel * Sel → list bool → result (Sel * Sel).
Implicit Types (self : @Trainer Tgt) (batch_list : list (@Batch Tgt))
  (task : TaskConfig) (metrics : gmap string scalar).

Lemma activity_mask_idx batch_list task task' :
  idx task = idx task' → activity_mask batch_list task = activity_mask batch_list task'.
Proof. unfold activity_mask. by intros ->. Qed.

Lemma is_skipped_idx batch_list task task' :
  idx task = idx task' → is_skipped batch_list task = is_skipped batch_list task'.
Proof. unfold is_skipped. by intros ->%(activity_mask_idx batch_list). Qed.

Lemma per_task_step_skipped outputs batch_list metrics self task :
  is_skipped batch_list task = true →
  per_task_step cat_targets select abs_error denormalize_tensors
    outputs batch_list (metrics, self) task = Ok (metrics, self).
Proof.
  unfold is_skipped, per_task_step. intros H.
  destruct (activity_mask batch_list task) as [mask|]; [|done].
  cbn [rbind]. by rewrite H.
Qed.

Lemma per_task_step_active outputs batch_list metrics self task metrics' self' :
  is_skipped batch_list task = false →
  per_task_step cat_targets select abs_error denormalize_tensors
    outputs batch_list (metrics, self) task = Ok (metrics', self') →
  evolves (λ e, ∃ q, e = Updated (metric_phase self) q (idx task)) self self'
  ∧ ∀ k, k ≠ name task +:+ "_energy_mae" → k ≠ name task +:+ "_forces_mae" →
         metrics' !! k = metrics !! k.
Proof.
  unfold is_skipped, per_task_step. intros Hs H.
  destruct (activity_mask batch_list task) as [mask|]; [|done].
  cbn [rbind] in H. rewrite Hs in H.
  inv_bind H. injection H as <- <-.
  match goal with
  | H1 : forward _ _ Energy _ _ _ self = Ok (_, ?s1),
    H2 : forward _ _ Forces _ _ _ ?s1 = Ok _ |- _ =>
      apply forward_Ok in H1 as [H1 _]; apply forward_Ok in H2 as [H2 _]
  end.
  split.
  - eapply evolves_trans.
    + eapply evolves_weaken; [|eassumption]. intros e ->. by eexists.
    + eapply evolves_weaken; [|eassumption]. intros e ->. by eexists.
  - intros k Hk1 Hk2. unfold evaluator_update.
    by rewrite !lookup_insert_ne.
Qed.

Lemma evolves_config E self self' :
  evolves E self self' →
  multi_task_config self' = multi_task_config self ∧ training self' = training self.
Proof. intros [-> _]. done. Qed.

Lemma compute_per_task_metrics_Ok outputs batch_list self metrics' self' :
  _compute_per_task_metrics cat_targets select abs_error denormalize_tensors
    outputs batch_list self = Ok (metrics', self') →
  evolves (active_update batch_list self) self self'
  ∧ ∀ k v, metrics' !! k = Some v → active_entry batch_list self k.
Proof.
  unfold _compute_per_task_metrics. intros H.
  apply (foldM_inv
    (λ st, evolves (active_update batch_list self) self st.2
           ∧ ∀ k v, st.1 !! k = Some v → active_entry batch_list self k)
    _ _ _ _) in H; [done| |].
  - intros [m s] task [m1 s1] Hin [Hev Hkeys] Hstep. cbn [fst snd] in *.
    destruct (is_skipped batch_list task) eqn:Hsk.
    + rewrite per_task_step_skipped in Hstep by done. by injection Hstep as <- <-.
    + apply per_task_step_active in Hstep as [Hev' Hm]; [|done].
      destruct (evolves_config _ _ _ Hev) as [Hcfg Htr].
      split.
      * eapply evolves_trans; [exact Hev|].
        eapply evolves_weaken; [|exact Hev'].
        intros e [q ->]. exists task, q. split_and!; [done..|].
        unfold metric_phase. by rewrite Htr.
      * intros k v Hk.
        destruct (decide (k = name task +:+ "_energy_mae")) as [->|Hk1];
          [exists task; by auto|].
        destruct (decide (k = name task +:+ "_forces_mae")) as [->|Hk2];
          [exists task; by auto|].
        rewrite Hm in Hk by done. by eapply Hkeys.
  - split; [apply evolves_refl|]. intros k v Hk. cbn in Hk.
    by rewrite lookup_empty in Hk.
Qed.
End per_task_metrics.

Lemma activity_mask_any_task {Tgt : Type} (batch_list : list (@Batch Tgt))
    (task task' : TaskConfig) (mask : matrix bool) :
  activity_mask batch_list task = Ok mask →
  ∃ mask', activity_mask batch_list task' = Ok mask'.
Proof.
  unfold activity_mask. intros H. inv_bind H. cbn [rbind].
  unfold and_column in *. rewrite length_fmap in *.
  destruct (bdim _ _); [|done]. by eexists.
Qed.

(** C10.  When the combined activity mask of a task has no true entry, the
    task's iteration in [_compute_per_task_metrics] changes neither the
    metrics nor the trainer; and over a whole call that returns, the four
    accumulators stored under the task's index are unchanged, every logged
    event is an update for a task whose activity mask has a true entry (none
    is about this task's accumulators), and every metric entry of the result
    is the energy or forces entry of a task whose activity mask has a true
    entry. *)
Theorem compute_per_task_metrics_inactive {Tgt Sel : Type}
    (cat_targets : list Tgt → result Tgt)
    (select : Tgt → matrix bool → result Sel)
    (abs_error : Sel → Sel → result (scalar * nat))
    (denormalize_tensors :
       list (@Batch Tgt) → string → Sel * Sel → list bool → result (Sel * Sel))
    (outputs : gmap string Tgt) (batch_list : list (@Batch Tgt))
    (self : @Trainer Tgt) (task : TaskConfig) (mask : matrix bool) :
  activity_mask batch_list task = Ok mask → any mask = false →
  (∀ metrics,
     per_task_step cat_targets select abs_error denormalize_tensors
       outputs batch_list (metrics, self) task = Ok (metrics, self)) ∧
  (∀ metrics' self',
     _compute_per_task_metrics cat_targets select abs_error denormalize_tensors
       outputs batch_list self = Ok (metrics', self') →
     (∀ p q, maes p q (per_task self') !! idx task
             = maes p q (per_task self) !! idx task) ∧
     (∃ evs, events (per_task self') = events (per_task self) ++ evs
             ∧ Forall (λ e, (∀ p q, ¬ touches p q (idx task) e)
                            ∧ ∃ task' mask' q,
                                task' ∈ tasks (multi_task_config self)
                                ∧ activity_mask batch_list task' = Ok mask'
                                ∧ any mask' = true
                                ∧ e = Updated (metric_phase self) q (idx task'))
                      evs) ∧
     (∀ k v, metrics' !! k = Some v →
        ∃ task' mask',
          task' ∈ tasks (multi_task_config self)
          ∧ activity_mask batch_list task' = Ok mask' ∧ any mask' = true
          ∧ (k = name task' +:+ "_energy_mae" ∨ k = name task' +:+ "_forces_mae"))).
Proof.
  intros Hmask Hany.
  assert (Hsk : is_skipped batch_list task = true).
  { unfold is_skipped. by rewrite Hmask, Hany. }
  split; [intros; by apply per_task_step_skipped|].
  intros metrics' self' H.
  apply compute_per_task_metrics_Ok in H as [Hev Hkeys].
  assert (Hno : ∀ e, active_update batch_list self e →
                     ∀ p q, ¬ touches p q (idx task) e).
  { intros e (task' & q' & _ & Hact & ->) p q [[=]|[=]]; subst.
    rewrite (is_skipped_idx batch_list task' task) in Hact by done. congruence. }
  assert (Hactive : ∀ task', is_skipped batch_list task' = false →
            ∃ mask', activity_mask batch_list task' = Ok mask' ∧ any mask' = true).
  { intros task' Hact.
    destruct (activity_mask_any_task batch_list task task' mask Hmask) as [mask' Hm'].
    exists mask'. split; [done|].
    unfold is_skipped in Hact. rewrite Hm' in Hact. by destruct (any mask'). }
  destruct Hev as (_ & (evs & Hevs & Hall) & _ & Hunt).
  split; [|split].
  - intros p q. apply Hunt. intros e He. by apply Hno.
  - exists evs. split; [done|]. eapply Forall_impl; [exact Hall|].
    intros e He. split; [by apply Hno|].
    destruct He as (task' & q & Hin & Hact & ->).
    destruct (Hactive task' Hact) as [mask' [Hm' Hany']].
    by exists task', mask', q.
  - intros k v Hk. destruct (Hkeys k v Hk) as (task' & Hin & Hact & Hname).
    destruct (Hactive task' Hact) as [mask' [Hm' Hany']].
    by exists task', mask'.
Qed.

Lemma compute_per_task_metrics_inactive_witness :
  per_task_step example_cat example_select example_abs_error example_denormalize
    {[ "energy" := (); "forces" := () ]} [example_batch]
    (∅, example_trainer) {| idx := 1; name := "oc22"; loss_coefficients := ∅ |}
  = Ok (∅, example_trainer).
Proof.
  apply (proj1 (compute_per_task_metrics_inactive
                  example_cat example_select example_abs_error example_denormalize
                  {[ "energy" := (); "forces" := () ]} [example_batch]
                  example_trainer
                  {| idx := 1; name := "oc22"; loss_coefficients := ∅ |}
                  (Mat 3 [[false; false; false]]) eq_refl eq_refl)).
Defined.

(** ** Metric names *)

Lemma ascii_list_app (a b : string) :
  Strings.String.list_ascii_of_string (a +:+ b) = Strings.String.list_ascii_of_string a ++ Strings.String.list_ascii_of_string b.
Proof. induction a as [|c a IH]; [done|]. cbn. by rewrite <- IH. Qed.

Lemma string_app_inj_suffix (a b s1 s2 : string) :
  length (Strings.String.list_ascii_of_string s1) = length (Strings.String.list_ascii_of_string s2) →
  a +:+ s1 = b +:+ s2 → a = b ∧ s1 = s2.
Proof.
  intros Hlen Heq. apply (f_equal Strings.String.list_ascii_of_string) in Heq.
  rewrite !ascii_list_app in Heq.
  apply app_inj_2 in Heq as [Ha Hs]; [|done].
  split.
  - by rewrite <- (Strings.String.string_of_list_ascii_of_string a), Ha,
                  Strings.String.string_of_list_ascii_of_string.
  - by rewrite <- (Strings.String.string_of_list_ascii_of_string s1), Hs,
                  Strings.String.string_of_list_ascii_of_string.
Qed.

Lemma energy_key_inj (i j : nat) : energy_key i = energy_key j → i = j.
Proof.
  unfold energy_key. intros H%(inj (String.app _)).
  apply string_app_inj_suffix in H as [H _]; [|done].
  by apply (inj pretty) in H.
Qed.

Lemma forces_key_inj (i j : nat) : forces_key i = forces_key j → i = j.
Proof.
  unfold forces_key. intros H%(inj (String.app _)).
  apply string_app_inj_suffix in H as [H _]; [|done].
  by apply (inj pretty) in H.
Qed.

Lemma energy_key_forces_key (i j : nat) : energy_key i ≠ forces_key j.
Proof.
  unfold energy_key, forces_key. intros H%(inj (String.app _)).
  apply string_app_inj_suffix in H as [_ H]; [|done]. discriminate.
Qed.

(** ** C8: the validation pass *)

Section validation.
Context {Tgt Sel : Type}.
Variable cat_targets : list Tgt → result Tgt.
Variable select : Tgt → matrix bool → result Sel.
Variable abs_error : Sel → Sel → result (scalar * nat).
Variable denormalize_tensors :
  list (@Batch Tgt) → string → Sel * Sel → list bool → result (Sel * Sel).
Variable denormalize_context :
  list (@Batch Tgt) → gmap string Sel → result (list (@Batch Tgt) * gmap string Sel).
Variable base_compute_metrics :
  gmap string Sel → list (@Batch Tgt) → gmap string scalar → result (gmap string scalar).
Implicit Types (self : @Trainer Tgt) (metrics : gmap string scalar).

Lemma compute_metrics_eval outputs batch_list metrics self metrics' self' :
  training self = false →
  _compute_metrics cat_targets select abs_error denormalize_tensors
    denormalize_context base_compute_metrics outputs batch_list metrics self
  = Ok (metrics', self') →
  evolves eval_update self self'.
Proof.
  unfold _compute_metrics. intros Htr H. inv_bind H. injection H as <- <-.
  match goal with
  | H : _compute_per_task_metrics _ _ _ _ _ _ _ = Ok _ |- _ =>
      apply compute_per_task_metrics_Ok in H as [Hev _]
  end.
  destruct (evolves_config _ _ _ Hev) as [_ Htr'].
  match goal with
  | H : (if training ?s then _ else _) = Ok _ |- _ =>
      rewrite Htr', Htr in H; injection H as <-
  end.
  eapply evolves_weaken; [|exact Hev].
  intros e (task & q & _ & _ & ->). exists q, (idx task).
  unfold metric_phase. by rewrite Htr.
Qed.

Lemma base_validate_Ok loader self metrics0 self0 :
  base_validate cat_targets select abs_error denormalize_tensors
    denormalize_context base_compute_metrics loader self = Ok (metrics0, self0) →
  evolves eval_update (set_training false self) self0.
Proof.
  unfold base_validate. intros H.
  apply (foldM_inv (λ st, evolves eval_update (set_training false self) st.2)
           _ _ _ _) in H; [done| |apply evolves_refl].
  intros [m s] [outputs batch_list] [m1 s1] _ Hev Hstep. cbn [fst snd] in *.
  destruct (evolves_config _ _ _ Hev) as [_ Htr].
  eapply evolves_trans; [exact Hev|].
  eapply compute_metrics_eval; [|exact Hstep]. by rewrite Htr.
Qed.
End validation.

Section closing_loop.
Context {Tgt : Type}.
Implicit Types (self : @Trainer Tgt) (metrics : gmap string scalar).

Lemma validate_step_Ok metrics self (i : nat) (me mf : MeanAbsoluteError) :
  maes Val Energy (per_task self) !! i = Some me →
  maes Val Forces (per_task self) !! i = Some mf →
  ∃ self',
    validate_step (metrics, self) i
    = Ok (<[forces_key i := MAE_compute mf]>
            (<[energy_key i := MAE_compute me]> metrics), self')
    ∧ evolves (closing_reset [i]) self self'
    ∧ events (per_task self')
      = events (per_task self) ++ [WasReset Val Energy i; WasReset Val Forces i]
    ∧ ∀ q, maes Val q (per_task self') !! i = Some MAE_new.
Proof.
  intros Hme Hmf.
  destruct (reset_is_Ok self Val Energy i) as [s1 H1]; [by eexists|].
  pose proof (reset_Ok _ _ _ _ _ H1) as (Hev1 & Hnew1 & Hlog1).
  assert (Hmf1 : maes Val Forces (per_task s1) !! i = Some mf).
  { destruct Hev1 as (_ & _ & _ & Hunt). rewrite Hunt; [done|].
    intros e -> [[=]|[=]]. }
  destruct (reset_is_Ok s1 Val Forces i) as [s2 H2]; [by eexists|].
  pose proof (reset_Ok _ _ _ _ _ H2) as (Hev2 & Hnew2 & Hlog2).
  exists s2. split_and!.
  - unfold validate_step.
    change (val_per_task_energy_maes (per_task self))
      with (maes Val Energy (per_task self)).
    rewrite (proj2 (getitem_Ok _ _ _) Hme). cbn [rbind]. rewrite H1. cbn [rbind].
    change (val_per_task_force_maes (per_task s1))
      with (maes Val Forces (per_task s1)).
    rewrite (proj2 (getitem_Ok _ _ _) Hmf1). cbn [rbind]. rewrite H2. done.
  - eapply evolves_trans.
    + eapply evolves_weaken; [|exact Hev1].
      intros e ->. exists Energy, i. split; [apply list_elem_of_here|done].
    + eapply evolves_weaken; [|exact Hev2].
      intros e ->. exists Forces, i. split; [apply list_elem_of_here|done].
  - rewrite Hlog2, Hlog1, <- (assoc (++)). done.
  - intros [|]; [|done].
    destruct Hev2 as (_ & _ & _ & Hunt). rewrite Hunt; [done|].
    intros e -> [[=]|[=]].
Qed.

Lemma validate_loop (l : list nat) metrics self :
  NoDup l →
  (∀ q i, i ∈ l → is_Some (maes Val q (per_task self) !! i)) →
  ∃ metrics' self',
    foldM validate_step (metrics, self) l = Ok (metrics', self')
    ∧ evolves (closing_reset l) self self'
    ∧ events (per_task self')
      = events (per_task self)
        ++ flat_map (λ i, [WasReset Val Energy i; WasReset Val Forces i]) l
    ∧ (∀ q i, i ∈ l → maes Val q (per_task self') !! i = Some MAE_new)
    ∧ (∀ i me, i ∈ l → maes Val Energy (per_task self) !! i = Some me →
               metrics' !! energy_key i = Some (MAE_compute me))
    ∧ (∀ i mf, i ∈ l → maes Val Forces (per_task self) !! i = Some mf →
               metrics' !! forces_key i = Some (MAE_compute mf))
    ∧ (∀ k, (∀ i, i ∈ l → k ≠ energy_key i ∧ k ≠ forces_key i) →
            metrics' !! k = metrics !! k).
Proof.
  revert metrics self. induction l as [|i l IH]; intros metrics self Hnd Hkeys.
  - exists metrics, self. split_and!; try done.
    + apply evolves_refl.
    + cbn. by rewrite app_nil_r.
    + intros ?? []%elem_of_nil.
    + intros ?? []%elem_of_nil.
    + intros ?? []%elem_of_nil.
  - apply NoDup_cons in Hnd as [Hi Hnd].
    destruct (Hkeys Energy i ltac:(left)) as [me Hme].
    destruct (Hkeys Forces i ltac:(left)) as [mf Hmf].
    destruct (validate_step_Ok metrics self i me mf Hme Hmf)
      as (s1 & Hstep & Hev1 & Hlog1 & Hnew1).
    pose proof Hev1 as (_ & _ & Hdom1 & Hunt1).
    assert (Hother : ∀ q j, j ∈ l →
              maes Val q (per_task s1) !! j = maes Val q (per_task self) !! j).
    { intros q j Hj. apply Hunt1. intros e (q' & i' & Hi' & ->) [[=]|[=]]; subst.
      apply list_elem_of_singleton in Hi' as ->. done. }
    destruct (IH (<[forces_key i := MAE_compute mf]>
                    (<[energy_key i := MAE_compute me]> metrics)) s1 Hnd)
      as (m' & s' & Hfold & Hev & Hlog & Hnew & Hen & Hfo & Hrest).
    { intros q j Hj. rewrite Hother by done. apply Hkeys. by right. }
    pose proof Hev as (_ & _ & _ & Hunt).
    assert (Hkeep : ∀ k, (k = energy_key i ∨ k = forces_key i) →
              m' !! k = (<[forces_key i := MAE_compute mf]>
                           (<[energy_key i := MAE_compute me]> metrics)) !! k).
    { intros k Hk. apply Hrest. intros j Hj.
      assert (i ≠ j) by (intros ->; done).
      destruct Hk as [-> | ->]; split.
      - by intros ?%energy_key_inj.
      - apply energy_key_forces_key.
      - intros H'. by apply (energy_key_forces_key j i).
      - by intros ?%forces_key_inj. }
    exists m', s'. split_and!.
    + cbn [foldM]. rewrite Hstep. cbn [rbind]. exact Hfold.
    + eapply evolves_trans.
      * eapply evolves_weaken; [|exact Hev1].
        intros e (q & j & ->%list_elem_of_singleton & ->). exists q, i.
        split; [left|done].
      * eapply evolves_weaken; [|exact Hev].
        intros e (q & j & Hj & ->). exists q, j. split; [by right|done].
    + rewrite Hlog, Hlog1, <- (assoc (++)). done.
    + intros q j [->|Hj]%elem_of_cons; [|by apply Hnew].
      rewrite Hunt; [apply Hnew1|].
      intros e (q' & j & Hj & ->) [[=]|[=]]; subst. done.
    + intros j me' [->|Hj]%elem_of_cons Hme'.
      * rewrite Hkeep by by left.
        rewrite lookup_insert_ne by (intros H'; by apply (energy_key_forces_key i i)).
        rewrite lookup_insert_eq. congruence.
      * apply Hen; [done|]. by rewrite Hother.
    + intros j mf' [->|Hj]%elem_of_cons Hmf'.
      * rewrite Hkeep by by right. rewrite lookup_insert_eq. congruence.
      * apply Hfo; [done|]. by rewrite Hother.
    + intros k Hk. rewrite Hrest.
      * destruct (Hk i ltac:(left)) as [Hk1 Hk2].
        by rewrite !lookup_insert_ne.
      * intros j Hj. apply Hk. by right.
Qed.
End closing_loop.

Lemma closing_resets_elem (n : nat) (e : event) :
  e ∈ closing_resets n ↔ ∃ q i, (i < n)%nat ∧ e = WasReset Val q i.
Proof.
  unfold closing_resets.
  assert (∀ l, e ∈ flat_map (λ i, [WasReset Val Energy i; WasReset Val Forces i]) l
               ↔ ∃ q i, i ∈ l ∧ e = WasReset Val q i) as H.
  { induction l as [|j l IH]; cbn.
    - split; [by intros ?%elem_of_nil|]. by intros (? & ? & ?%elem_of_nil & _).
    - rewrite !elem_of_cons, IH. split.
      + intros [->|[->|(q & i & Hi & ->)]].
        * exists Energy, j. split; [by left|done].
        * exists Forces, j. split; [by left|done].
        * exists q, i. split; [by right|done].
      + intros (q & i & [->|Hi]%elem_of_cons & ->).
        * destruct q; auto.
        * right. right. by exists q, i. }
  rewrite H. by setoid_rewrite elem_of_seq; split;
    intros (q & i & Hi & ->); exists q, i; (split; [lia|done]).
Qed.

Lemma closing_resets_NoDup (n : nat) : NoDup (closing_resets n).
Proof.
  unfold closing_resets. generalize 0%nat as a.
  induction n as [|n IH]; intros a; cbn; [constructor|].
  assert (∀ q, WasReset Val q a
               ∉ flat_map (λ i, [WasReset Val Energy i; WasReset Val Forces i])
                          (seq (S a) n)) as Hfresh.
  { intros q Hin. apply list_elem_of_In, in_flat_map in Hin as (j & Hj & Hin).
    apply in_seq in Hj. cbn in Hin. destruct Hin as [[=]|[[=]|[]]]; lia. }
  constructor; [|constructor; [apply Hfresh|apply IH]].
  rewrite elem_of_cons. intros [[=]|Hin]. by apply (Hfresh Energy).
Qed.

(** C8.  Let the accumulators of every task index exist, as after
    [load_task], and let the shared validation loop return.  Then [validate]
    returns; the entries it reports for every task index are the values that
    the validation energy and forces accumulators have at the end of the loop;
    the loop itself logs no reset at all, and after it every validation
    accumulator is reset, each exactly once; afterwards every validation
    accumulator is in its initial state, so that the next update of it is
    read back as the mean absolute error of that update alone. *)
Theorem validate_reports_and_resets {Tgt Sel : Type}
    (cat_targets : list Tgt → result Tgt)
    (select : Tgt → matrix bool → result Sel)
    (abs_error : Sel → Sel → result (scalar * nat))
    (denormalize_tensors :
       list (@Batch Tgt) → string → Sel * Sel → list bool → result (Sel * Sel))
    (denormalize_context :
       list (@Batch Tgt) → gmap string Sel
       → result (list (@Batch Tgt) * gmap string Sel))
    (base_compute_metrics :
       gmap string Sel → list (@Batch Tgt) → gmap string scalar
       → result (gmap string scalar))
    (loader : list (gmap string Tgt * list (@Batch Tgt))) (self : @Trainer Tgt) :
  (∀ q i, (i < num_tasks self)%nat → is_Some (maes Val q (per_task self) !! i)) →
  is_ok (base_validate cat_targets select abs_error denormalize_tensors
           denormalize_context base_compute_metrics loader self) = true →
  ∃ metrics0 self0 metrics self',
    base_validate cat_targets select abs_error denormalize_tensors
      denormalize_context base_compute_metrics loader self = Ok (metrics0, self0)
    ∧ validate cat_targets select abs_error denormalize_tensors
        denormalize_context base_compute_metrics loader self = Ok (metrics, self')
    ∧ (∀ i, (i < num_tasks self)%nat →
         ∃ me mf,
           val_per_task_energy_maes (per_task self0) !! i = Some me
           ∧ val_per_task_force_maes (per_task self0) !! i = Some mf
           ∧ metrics !! ("task_" +:+ pretty i +:+ "_energy_mae") = Some (MAE_compute me)
           ∧ metrics !! ("task_" +:+ pretty i +:+ "_forces_mae") = Some (MAE_compute mf))
    ∧ (∃ pass, events (per_task self0) = events (per_task self) ++ pass
               ∧ Forall (λ e, ∀ p q i, e ≠ WasReset p q i) pass)
    ∧ events (per_task self')
      = events (per_task self0) ++ closing_resets (num_tasks self)
    ∧ NoDup (closing_resets (num_tasks self))
    ∧ (∀ q i, (i < num_tasks self)%nat →
              WasReset Val q i ∈ closing_resets (num_tasks self))
    ∧ (∀ q i, (i < num_tasks self)%nat →
              maes Val q (per_task self') !! i = Some MAE_new)
    ∧ (∀ q i preds target v self'',
         (i < num_tasks self)%nat →
         forward abs_error Val q i preds target self' = Ok (v, self'') →
         ∃ err n,
           abs_error preds target = Ok (err, n)
           ∧ maes Val q (per_task self'') !! i = Some (MAE_update MAE_new err n)
           ∧ v = MAE_compute (MAE_update MAE_new err n)).
Proof.
  intros Hkeys Hbase.
  destruct (base_validate _ _ _ _ _ _ loader self) as [[m0 s0]|] eqn:Hb;
    [clear Hbase|done].
  pose proof (base_validate_Ok _ _ _ _ _ _ _ _ _ _ Hb) as Hev.
  destruct (evolves_config _ _ _ Hev) as [Hcfg _].
  assert (Hn : num_tasks s0 = num_tasks self) by (unfold num_tasks; by rewrite Hcfg).
  destruct Hev as (_ & (pass & Hpass & Hall) & Hdom & _).
  destruct (validate_loop (seq 0 (num_tasks self)) m0 s0 (NoDup_seq _ _))
    as (m' & s' & Hfold & _ & Hlog & Hnew & Hen & Hfo & _).
  { intros q i Hi%elem_of_seq. apply elem_of_dom. rewrite Hdom.
    apply elem_of_dom, Hkeys. lia. }
  exists m0, s0, m', s'. split_and!.
  - done.
  - unfold validate. rewrite Hb. cbn [rbind]. by rewrite Hn.
  - intros i Hi.
    destruct (Hkeys Energy i Hi) as [me0 Hme0].
    destruct (Hkeys Forces i Hi) as [mf0 Hmf0].
    assert (is_Some (maes Val Energy (per_task s0) !! i)) as [me Hme].
    { apply elem_of_dom. rewrite Hdom. apply elem_of_dom. by eexists. }
    assert (is_Some (maes Val Forces (per_task s0) !! i)) as [mf Hmf].
    { apply elem_of_dom. rewrite Hdom. apply elem_of_dom. by eexists. }
    exists me, mf. split_and!; [done..| |].
    + apply Hen; [apply elem_of_seq; lia|done].
    + apply Hfo; [apply elem_of_seq; lia|done].
  - exists pass. split; [done|].
    eapply Forall_impl; [exact Hall|]. by intros e (q' & i' & ->) p q i.
  - done.
  - apply closing_resets_NoDup.
  - intros q i Hi. apply closing_resets_elem. by exists q, i.
  - intros q i Hi. apply Hnew. apply elem_of_seq. lia.
  - intros q i preds target v self'' Hi Hf.
    apply forward_Ok in Hf as (_ & m & err & n & Hm & Herr & -> & Hm').
    rewrite Hnew in Hm by (apply elem_of_seq; lia). injection Hm as <-.
    by exists err, n.
Qed.

Lemma validate_reports_and_resets_witness :
  ∃ metrics self',
    validate example_cat example_select example_abs_error example_denormalize
      example_denormalize_context example_base_compute_metrics
      example_loader example_trainer = Ok (metrics, self')
    ∧ ∀ q i, (i < 3)%nat → maes Val q (per_task self') !! i = Some MAE_new.
Proof.
  destruct (validate_reports_and_resets
              example_cat example_select example_abs_error example_denormalize
              example_denormalize_context example_base_compute_metrics
              example_loader example_trainer)
    as (m0 & s0 & m & s' & _ & Hv & _ & _ & _ & _ & _ & Hnew & _).
  - intros q i Hi. change (num_tasks example_trainer) with 3%nat in Hi.
    destruct q, i as [|[|[|i]]]; try lia; vm_compute; eauto.
  - vm_compute. reflexivity.
  - exists m, s'. split; [exact Hv|exact Hnew].
Defined.

(** ** C9: the normalizer registry *)

Section normalizer_registry.
Context {Tgt Sel : Type}.
Variable cat_targets : list Tgt → result Tgt.
Variable norm : Normalizer → Tgt → Tgt.
Variable select : Tgt → matrix bool → result Sel.
Variable abs_error : Sel → Sel → result (scalar * nat).
Variable to_dict : OutputTarget → gmap string string.
Variable denormalize_tensors :
  list (@Batch Tgt) → string → Sel * Sel → list bool → result (Sel * Sel).
Variable denormalize_context :
  list (@Batch Tgt) → gmap string Sel → result (list (@Batch Tgt) * gmap string Sel).
Variable base_compute_metrics :
  gmap string Sel → list (@Batch Tgt) → gmap string scalar → result (gmap string scalar).
Implicit Types (self : @Trainer Tgt).

Local Abbreviation run_operation :=
  (run_operation cat_targets select abs_error to_dict denormalize_tensors
     denormalize_context base_compute_metrics).

Lemma evolves_normalizers (E : event → Prop) self self' :
  evolves E self self' → normalizers self' = normalizers self.
Proof. intros [-> _]. done. Qed.

Lemma reset_normalizers self (p : phase) (q : quantity) (i : nat) self' :
  reset p q i self = Ok self' → normalizers self' = normalizers self.
Proof. intros (H & _)%reset_Ok. by eapply evolves_normalizers. Qed.

Lemma compute_metrics_normalizers outputs batch_list metrics self metrics' self' :
  _compute_metrics cat_targets select abs_error denormalize_tensors
    denormalize_context base_compute_metrics outputs batch_list metrics self
  = Ok (metrics', self') →
  normalizers self' = normalizers self.
Proof.
  unfold _compute_metrics. intros H. inv_bind H. injection H as <- <-.
  match goal with
  | H : _compute_per_task_metrics _ _ _ _ _ _ _ = Ok _ |- _ =>
      apply compute_per_task_metrics_Ok in H as [Hev%evolves_normalizers _]
  end.
  rewrite <- Hev.
  match goal with
  | H : (if training ?s then _ else _) = Ok _ |- _ => rename H into Hreset
  end.
  destruct (training _); [|by injection Hreset as <-].
  destruct (decide _); [done|]. destruct (decide _); [|by injection Hreset as <-].
  match type of Hev with
  | normalizers ?t = _ =>
      apply (foldM_inv (λ s, normalizers s = normalizers t)) in Hreset;
        [exact Hreset| |reflexivity]
  end.
  intros s i s' _ Hs Hstep. cbn beta in Hstep. inv_bind Hstep.
  apply reset_normalizers in Hstep.
  match goal with
  | H : reset Train Energy _ _ = Ok _ |- _ => apply reset_normalizers in H
  end.
  congruence.
Qed.

Lemma validate_normalizers loader self metrics self' :
  validate cat_targets select abs_error denormalize_tensors
    denormalize_context base_compute_metrics loader self = Ok (metrics, self') →
  normalizers self' = normalizers self.
Proof.
  unfold validate. intros H. inv_bind H.
  match goal with
  | H : base_validate _ _ _ _ _ _ _ _ = Ok _ |- _ =>
      apply base_validate_Ok, evolves_normalizers in H; rename H into Hbase
  end.
  cbn in Hbase. rewrite <- Hbase.
  match type of Hbase with
  | normalizers ?t = _ =>
      apply (foldM_inv (λ st, normalizers st.2 = normalizers t)) in H;
        [exact H| |reflexivity]
  end.
  intros [m s] i [m1 s1] _ Hs Hstep. cbn [fst snd] in *.
  unfold validate_step in Hstep. inv_bind Hstep. injection Hstep as <- <-.
  repeat match goal with
  | H : reset _ _ _ _ = Ok _ |- _ => apply reset_normalizers in H
  end.
  congruence.
Qed.

Lemma load_checkpoint_empty checkpoint_step checkpoint_normalizers self :
  normalizers self = ∅ →
  normalizers (load_checkpoint checkpoint_step checkpoint_normalizers self) = ∅.
Proof.
  unfold load_checkpoint. intros H.
  assert (normalizers (set_step (default 0%nat checkpoint_step) self) = ∅) as H0
    by done.
  revert H0. generalize (set_step (default 0%nat checkpoint_step) self).
  induction checkpoint_normalizers as [|[key state] l IH]; intros s Hs; [done|].
  cbn [foldl]. rewrite Hs, lookup_empty. by apply IH.
Qed.

(** With an empty registry the loss does not depend on what [norm] does. *)
Lemma compute_loss_norm_irrelevant (norm' : Normalizer → Tgt → Tgt) self
    (out : gmap string Tgt) (batch_list : list (@Batch Tgt)) :
  normalizers self = ∅ →
  _compute_loss cat_targets norm self out batch_list
  = _compute_loss cat_targets norm' self out batch_list.
Proof.
  intros H. unfold _compute_loss.
  destruct (cat1 (batch <$> batch_list)) as [batch_idx|]; [|done].
  destruct (cat1 (fixed <$> batch_list)) as [fixed|]; [|done].
  destruct (cat2 (task_mask <$> batch_list)) as [task_mask|]; [|done].
  cbn [rbind]. erewrite traverse_ext; [done|].
  intros loss_info. unfold loss_term, loss_target.
  by rewrite H, lookup_empty.
Qed.

Lemma run_operation_empty self (o : @operation Tgt) :
  normalizers self = ∅ → normalizers (run_operation self o) = ∅.
Proof.
  intros H. destruct o as [|cs cn|out bl|outputs bl metrics|loader]; cbn.
  - done.
  - by apply load_checkpoint_empty.
  - done.
  - destruct (_compute_metrics _ _ _ _ _ _ _ _ _ self) as [[m s]|] eqn:Hm; [|done].
    apply compute_metrics_normalizers in Hm. congruence.
  - destruct (validate _ _ _ _ _ _ _ self) as [[m s]|] eqn:Hv; [|done].
    apply validate_normalizers in Hv. congruence.
Qed.
End normalizer_registry.

(** C9.  [load_task] leaves the normalizer registry empty, no operation of
    the trainer that follows adds an entry to it, and so whatever the target
    name and the ground truth, [_compute_loss] hands the ground truth to the
    loss function as it is: the normalizing branch is not taken, and the
    computed loss does not depend on what [norm] would do. *)
Theorem normalizers_stay_empty {Tgt Sel : Type}
    (cat_targets : list Tgt → result Tgt)
    (norm : Normalizer → Tgt → Tgt)
    (select : Tgt → matrix bool → result Sel)
    (abs_error : Sel → Sel → result (scalar * nat))
    (to_dict : OutputTarget → gmap string string)
    (denormalize_tensors :
       list (@Batch Tgt) → string → Sel * Sel → list bool → result (Sel * Sel))
    (denormalize_context :
       list (@Batch Tgt) → gmap string Sel
       → result (list (@Batch Tgt) * gmap string Sel))
    (base_compute_metrics :
       gmap string Sel → list (@Batch Tgt) → gmap string scalar
       → result (gmap string scalar))
    (self0 : @Trainer Tgt) (operations : list (@operation Tgt)) :
  normalizers (load_task to_dict self0) = ∅ ∧
  normalizers
    (foldl (run_operation cat_targets select abs_error to_dict denormalize_tensors
              denormalize_context base_compute_metrics)
           (load_task to_dict self0) operations) = ∅ ∧
  (∀ target_name target,
    loss_target norm
      (foldl (run_operation cat_targets select abs_error to_dict denormalize_tensors
                denormalize_context base_compute_metrics)
             (load_task to_dict self0) operations)
      target_name target = target) ∧
  ∀ (norm' : Normalizer → Tgt → Tgt) out batch_list,
    _compute_loss cat_targets norm
      (foldl (run_operation cat_targets select abs_error to_dict denormalize_tensors
                denormalize_context base_compute_metrics)
             (load_task to_dict self0) operations)
      out batch_list
    = _compute_loss cat_targets norm'
        (foldl (run_operation cat_targets select abs_error to_dict denormalize_tensors
                  denormalize_context base_compute_metrics)
               (load_task to_dict self0) operations)
        out batch_list.
Proof.
  assert (normalizers
    (foldl (run_operation cat_targets select abs_error to_dict denormalize_tensors
              denormalize_context base_compute_metrics)
           (load_task to_dict self0) operations) = ∅) as H.
  { assert (normalizers (load_task to_dict self0) = ∅) as H0 by done.
    revert H0. generalize (load_task to_dict self0).
    induction operations as [|o l IH]; intros s Hs; [done|].
    cbn [foldl]. apply IH. by apply run_operation_empty. }
  split; [done|]. split; [exact H|]. split.
  - intros target_name target. unfold loss_target. by rewrite H, lookup_empty.
  - intros norm' out batch_list. by apply compute_loss_norm_irrelevant.
Qed.

Example compute_loss_ex :
  _compute_loss example_cat (λ _ x, x) example_trainer {[ "energy" := () ]}
                [example_batch]
  = Ok (T0 (num 6)).
Proof. by_eval. Qed.

(** ** C2: the structure-wise mean *)

Lemma tabulate_tmap {A B} (g : A → B) (c n : nat) (f : nat → nat → A) :
  tmap g (tabulate c n f) = tabulate c n (λ s t, g (f s t)).
Proof.
  unfold tabulate. cbn. f_equal. rewrite <- list_fmap_compose.
  apply list_fmap_ext. intros i s _. cbn. by rewrite <- list_fmap_compose.
Qed.

Lemma tabulate_tzip {A B C} (h : A → B → C) (c n : nat) (f : nat → nat → A)
    (g : nat → nat → B) :
  tzip h (tabulate c n f) (tabulate c n g) = tabulate c n (λ s t, h (f s t) (g s t)).
Proof.
  unfold tabulate. cbn. f_equal. rewrite zip_with_fmap_same.
  apply list_fmap_ext. intros i s _. cbn. by rewrite zip_with_fmap_same.
Qed.

Lemma tabulate_same_shape {A B} (c n : nat) (f : nat → nat → A) (g : nat → nat → B) :
  same_shape (tabulate c n f) (tabulate c n g).
Proof.
  split; [done|]. cbn. unfold rows_same_shape.
  apply Forall2_fmap, Forall_Forall2_diag, Forall_forall. intros s _.
  by rewrite !length_fmap.
Qed.

Lemma tabulate_ext {A} (c n : nat) (f g : nat → nat → A) :
  (∀ s t, (s < n)%nat → (t < c)%nat → f s t = g s t) → tabulate c n f = tabulate c n g.
Proof.
  intros H. unfold tabulate. f_equal. apply list_fmap_ext.
  intros i s [-> Hs]%lookup_seq. apply list_fmap_ext.
  intros j t [-> Ht]%lookup_seq. by apply H.
Qed.

(** The scatter loop, row by row. *)
Lemma scatter_loop (pairs : list (nat * list scalar)) (out : list (list scalar)) :
  foldl (λ out ir, alter (λ acc, zip_with fadd acc ir.2) ir.1 out) out pairs
  = imap (λ s acc, foldl (zip_with fadd) acc (filter (λ p, p.1 = s) pairs).*2) out.
Proof.
  revert out. induction pairs as [|[i r] pairs IH]; intros out.
  - cbn. apply list_eq. intros k. rewrite list_lookup_imap.
    by destruct (out !! k).
  - cbn [foldl]. rewrite IH. apply list_eq. intros k.
    rewrite !list_lookup_imap, list_lookup_alter. cbn [fst snd].
    destruct (decide (i = k)) as [->|Hik].
    + rewrite filter_cons_True by done. by destruct (out !! k).
    + rewrite filter_cons_False by done. done.
Qed.

Lemma imap_replicate {A B} (f : nat → A → B) (n : nat) (z : A) :
  imap f (replicate n z) = (λ s, f s z) <$> seq 0 n.
Proof.
  apply list_eq. intros k. rewrite list_lookup_imap, list_lookup_fmap.
  destruct (decide (k < n)%nat) as [Hk|Hk].
  - by rewrite lookup_replicate_2, lookup_seq_lt by done.
  - rewrite lookup_seq_ge by lia.
    by rewrite (proj1 (lookup_replicate_None _ _ _)) by lia.
Qed.

Lemma structure_rows_wf {A} (x : matrix A) (index : list nat) (s : nat) :
  mat_wf x → mat_wf (Mat (m_cols x) (structure_rows x index s)).
Proof.
  unfold mat_wf, structure_rows. cbn. intros H. apply Forall_forall.
  intros r Hr. apply list_elem_of_fmap in Hr as ([i r'] & -> & Hin).
  apply list_elem_of_filter in Hin as [_ Hin]. apply elem_of_zip_r in Hin.
  by apply (proj1 (Forall_forall _ _) H).
Qed.

Lemma scatter_sum_spec (x : matrix scalar) (index : list nat) :
  mat_wf x → length index = length (m_rows x) →
  scatter_sum x index
  = Ok (tabulate (m_cols x) (num_structures index) (structure_total x index)).
Proof.
  intros Hwf Hlen. unfold scatter_sum.
  rewrite decide_True by by left. unfold expand. rewrite decide_True by done.
  fold (num_structures index). rewrite scatter_loop, imap_replicate.
  unfold tabulate. do 2 f_equal. apply list_fmap_ext. intros i s _.
  change (foldl (zip_with fadd) (replicate (m_cols x) (Fin 0))
            (filter (λ p, p.1 = s) (zip index (m_rows x))).*2)
    with (reduce_bt_t_sum (Mat (m_cols x) (structure_rows x index s))).
  by rewrite reduce_bt_t_sum_columns by by apply structure_rows_wf.
Qed.

Lemma structure_rows_tmap {A B} (g : A → B) (x : matrix A) (index : list nat) (s : nat) :
  structure_rows (tmap g x) index s
  = fmap (M:=list) (fmap (M:=list) g) (structure_rows x index s).
Proof.
  unfold structure_rows. cbn [tmap matrix_Tensor m_rows].
  generalize (m_rows x). intros rows. revert rows.
  induction index as [|i index IH]; intros [|r rows]; [done..|].
  cbn [fmap list_fmap zip zip_with].
  destruct (decide (i = s)) as [Hi|Hi].
  - rewrite !filter_cons_True by done. cbn. f_equal. apply IH.
  - rewrite !filter_cons_False by done. apply IH.
Qed.

Lemma structure_total_b2s (mask : matrix bool) (index : list nat) (s t : nat) :
  structure_total (tmap b2s mask) index s t = of_nat (structure_count mask index s t).
Proof.
  unfold structure_total, structure_count. rewrite structure_rows_tmap.
  apply (column_total_b2s (Mat (m_cols mask) (structure_rows mask index s))).
Qed.

Lemma gt0_of_nat (n : nat) : gt0 (of_nat n) = bool_decide (0 < n)%nat.
Proof.
  unfold gt0, of_nat. apply bool_decide_ext.
  rewrite <- Z2Qc_inj_0, <- Z2Qc_inj_lt. lia.
Qed.

Lemma structure_wise_rewrite (loss : matrix scalar) (mask : matrix bool)
    (index : list nat) :
  mat_wf loss → mat_wf mask → m_cols loss = m_cols mask →
  length index = length (m_rows loss) →
  length (m_rows mask) = length (m_rows loss) →
  ∃ counts,
    scatter_sum (tmap b2s mask) index = Ok counts
    ∧ tmap gt0 counts = swm_mask loss mask index
    ∧ (let* sums := scatter_sum loss index in _safe_divide sums counts)
      = Ok (swm_loss loss mask index).
Proof.
  intros Hl Hm Hc Hlen Hrows.
  eexists. split; [|split].
  - apply scatter_sum_spec; [by apply mat_wf_tmap|].
    cbn. by rewrite length_fmap, Hrows.
  - change (m_cols (tmap b2s mask)) with (m_cols mask). rewrite <- Hc.
    rewrite tabulate_tmap. apply tabulate_ext. intros s t _ _.
    by rewrite structure_total_b2s, gt0_of_nat.
  - rewrite scatter_sum_spec by done. cbn [rbind].
    change (m_cols (tmap b2s mask)) with (m_cols mask). rewrite <- Hc.
    rewrite safe_divide_ok by apply tabulate_same_shape.
    f_equal. unfold masked_fill, teq0.
    rewrite tabulate_tmap, !tabulate_tzip. apply tabulate_ext. intros s t _ _.
    rewrite structure_total_b2s.
    apply (safe_quotient_fill (structure_total loss index s t)).
Qed.

Lemma reduce_term_structure_wise (loss : matrix scalar) (mask : matrix bool)
    (index : list nat) :
  mat_wf loss → mat_wf mask → m_cols loss = m_cols mask →
  length index = length (m_rows loss) →
  length (m_rows mask) = length (m_rows loss) →
  reduce_term "atom" loss mask index "structure_wise_mean"
  = _reduce_loss (swm_loss loss mask index) (swm_mask loss mask index) "mean".
Proof.
  intros Hl Hm Hc Hlen Hrows.
  destruct (structure_wise_rewrite loss mask index Hl Hm Hc Hlen Hrows)
    as (counts & Hcounts & Hmask & Hdiv).
  unfold reduce_term. rewrite !decide_True by done.
  destruct (scatter_sum loss index) as [sums|] eqn:Hsums; [|done].
  cbn [rbind] in *. rewrite Hcounts. cbn [rbind]. rewrite Hdiv. cbn [rbind].
  by rewrite Hmask.
Qed.

Lemma tabulate_lookup {A} (c n : nat) (f : nat → nat → A) (s t : nat) :
  (s < n)%nat → (t < c)%nat →
  m_rows (tabulate c n f) !! s ≫= (.!! t) = Some (f s t).
Proof.
  intros Hs Ht. unfold tabulate. cbn.
  rewrite list_lookup_fmap, lookup_seq_lt by done. cbn.
  by rewrite list_lookup_fmap, lookup_seq_lt by done.
Qed.

Lemma fsum_zeros (l : list scalar) : Forall (λ x, x = Fin 0) l → fsum l = Fin 0.
Proof.
  unfold fsum. induction 1 as [|x l -> _ IH]; [done|].
  cbn. by rewrite Qcplus_0_r.
Qed.

Lemma structure_rows_elem {A} (x : matrix A) (index : list nat) (s : nat) (r : list A) :
  r ∈ structure_rows x index s
  ↔ ∃ a, index !! a = Some s ∧ m_rows x !! a = Some r.
Proof.
  unfold structure_rows. rewrite list_elem_of_fmap. split.
  - intros ([i r'] & -> & [Hi Hin]%list_elem_of_filter). cbn in Hi. subst i.
    apply list_elem_of_lookup in Hin as [a Ha]. exists a.
    by apply lookup_zip_with_Some in Ha as (? & ? & [= <- <-] & ? & ?).
  - intros (a & Hi & Hr). exists (s, r). split; [done|].
    apply list_elem_of_filter. split; [done|].
    apply list_elem_of_lookup. exists a.
    apply lookup_zip_with_Some. by exists s, r.
Qed.

Lemma count_true_0 (l : list bool) : count_true l = 0%nat → Forall (λ b, b = false) l.
Proof.
  induction l as [|b l IH]; [constructor|].
  rewrite count_true_cons. destruct b; [discriminate|].
  intros H. constructor; [done|]. by apply IH.
Qed.

Lemma structure_total_masked_out (loss : matrix scalar) (mask : matrix bool)
    (index : list nat) (s t : nat) :
  mat_wf mask → (t < m_cols mask)%nat →
  length (m_rows mask) = length (m_rows loss) →
  (∀ a row mrow, m_rows loss !! a = Some row → m_rows mask !! a = Some mrow →
                 mrow !! t = Some false → row !! t = Some (Fin 0)) →
  structure_count mask index s t = 0%nat →
  structure_total loss index s t = Fin 0.
Proof.
  intros Hwf Ht Hrows Hzero Hcount.
  unfold structure_total, column_total. cbn [m_rows].
  apply fsum_zeros, Forall_fmap, Forall_forall. intros r Hr. cbn.
  apply structure_rows_elem in Hr as (a & Hi & Hr).
  destruct (lookup_lt_is_Some_2 (m_rows mask) a) as [mrow Hmrow].
  { rewrite Hrows. by eapply lookup_lt_Some. }
  assert (Hlen : length mrow = m_cols mask).
  { apply (proj1 (Forall_forall _ _) Hwf). by eapply list_elem_of_lookup_2. }
  destruct (lookup_lt_is_Some_2 mrow t) as [b Hb]; [lia|].
  assert (b = false) as ->.
  { apply count_true_0 in Hcount.
    unfold column_count in Hcount. cbn [m_rows] in Hcount.
    rewrite Forall_fmap, Forall_forall in Hcount.
    specialize (Hcount mrow). cbn in Hcount. rewrite Hb in Hcount.
    apply Hcount, structure_rows_elem. by exists a. }
  by rewrite (Hzero a r mrow Hr Hmrow Hb).
Qed.

(** C2 (as amended).  In [_compute_loss], a loss term with reduction
    [structure_wise_mean] on a target that is not atom-level raises an
    assertion error.  On an atom-level target the per-atom loss and the
    per-atom mask are scatter-summed by the atom-to-example index, divided
    with safe division, the mask becomes "this structure has a valid atom",
    and the result is reduced with kind [mean].  A structure without valid
    atom for a task is not counted in the denominator; its term in the
    numerator is the plain sum of the loss of its atoms, which is zero when
    the loss is zero wherever the mask is false. *)
Theorem structure_wise_mean_spec (loss : matrix scalar) (mask : matrix bool)
    (index : list nat) :
  (∀ level, level ≠ "atom" →
     ∃ msg, reduce_term level loss mask index "structure_wise_mean"
            = Raise (AssertionError msg)) ∧
  (mat_wf loss → mat_wf mask → m_cols loss = m_cols mask →
   length index = length (m_rows loss) →
   length (m_rows mask) = length (m_rows loss) →
   reduce_term "atom" loss mask index "structure_wise_mean"
   = _reduce_loss (swm_loss loss mask index) (swm_mask loss mask index) "mean"
   ∧ reduce_term "atom" loss mask index "structure_wise_mean"
     = Ok (T0 (mean_spec (swm_loss loss mask index) (swm_mask loss mask index)))
   ∧ ∀ s t, (s < num_structures index)%nat → (t < m_cols loss)%nat →
       structure_count mask index s t = 0%nat →
       m_rows (swm_mask loss mask index) !! s ≫= (.!! t) = Some false
       ∧ m_rows (swm_loss loss mask index) !! s ≫= (.!! t)
         = Some (structure_total loss index s t)
       ∧ ((∀ a row mrow, m_rows loss !! a = Some row →
                         m_rows mask !! a = Some mrow →
                         mrow !! t = Some false → row !! t = Some (Fin 0)) →
          m_rows (swm_loss loss mask index) !! s ≫= (.!! t) = Some (Fin 0))).
Proof.
  split.
  - intros level Hlevel. unfold reduce_term.
    rewrite decide_True by done. rewrite decide_False by done. by eexists.
  - intros Hl Hm Hc Hlen Hrows.
    pose proof (reduce_term_structure_wise loss mask index Hl Hm Hc Hlen Hrows) as Hr.
    split; [exact Hr|]. split; [by rewrite Hr, reduce_loss_mean|].
    intros s t Hs Ht Hcount. unfold swm_mask, swm_loss.
    rewrite !tabulate_lookup by done. rewrite Hcount.
    split; [done|]. split; [done|].
    intros Hzero. unfold safe_quotient. rewrite decide_True by done. f_equal.
    apply (structure_total_masked_out loss mask index s t); [done|lia|done..].
Qed.

Lemma structure_wise_mean_spec_witness :
  reduce_term "atom" (Mat 1 [[num 5]; [num 3]; [num 0]])
              (Mat 1 [[true]; [true]; [false]]) [0; 0; 1]%nat "structure_wise_mean"
  = _reduce_loss
      (swm_loss (Mat 1 [[num 5]; [num 3]; [num 0]])
                (Mat 1 [[true]; [true]; [false]]) [0; 0; 1]%nat)
      (swm_mask (Mat 1 [[num 5]; [num 3]; [num 0]])
                (Mat 1 [[true]; [true]; [false]]) [0; 0; 1]%nat) "mean".
Proof.
  apply (proj2 (structure_wise_mean_spec (Mat 1 [[num 5]; [num 3]; [num 0]])
                  (Mat 1 [[true]; [true]; [false]]) [0; 0; 1]%nat)).
  - repeat constructor.
  - repeat constructor.
  - reflexivity.
  - reflexivity.
  - reflexivity.
Defined.

Example structure_wise_mean_ex :
  reduce_term "atom" (Mat 1 [[num 5]; [num 3]; [num 0]])
              (Mat 1 [[true]; [true]; [false]]) [0; 0; 1]%nat "structure_wise_mean"
  = Ok (T0 (num 4)).
Proof. by_eval. Qed.

(** C2 as first stated fails where the loss of a masked-out atom is not
    zero: the only structure has no valid atom for the only task, it is left
    out of the denominator, and yet the reduced loss is its loss, 5. *)
Lemma structure_wise_mean_counterexample :
  structure_count (Mat 1 [[false]]) [0%nat] 0 0 = 0%nat ∧
  m_rows (swm_mask (Mat 1 [[num 5]]) (Mat 1 [[false]]) [0%nat]) !! 0%nat
    ≫= (.!! 0%nat) = Some false ∧
  reduce_term "atom" (Mat 1 [[num 5]]) (Mat 1 [[false]]) [0%nat]
              "structure_wise_mean" = Ok (T0 (num 5)) ∧
  reduce_term "atom" (Mat 1 [[num 5]]) (Mat 1 [[false]]) [0%nat]
              "structure_wise_mean" ≠ Ok (T0 (Fin 0)).
Proof. split; [done|]. split; [done|]. split; by_eval. Qed.

(** ** [load_checkpoint]: matching the "module." prefixes *)

Lemma count_module_prefix s :
  count_module ("module." +:+ s) = S (count_module s).
Proof. reflexivity. Qed.

Lemma count_module_repeat d s :
  count_module (str_repeat d "module." +:+ s) = (d + count_module s)%nat.
Proof.
  induction d as [|d IH]; [done|].
  change (str_repeat (S d) "module." +:+ s)
    with ("module." +:+ (str_repeat d "module." +:+ s)).
  by rewrite count_module_prefix, IH.
Qed.

Lemma str_drop_repeat d s :
  str_drop (String.length "module." * d) (str_repeat d "module." +:+ s) = s.
Proof.
  induction d as [|d IH]; [done|].
  replace (String.length "module." * S d)%nat
    with (7 + String.length "module." * d)%nat by (cbn; lia).
  exact IH.
Qed.

Lemma string_app_assoc (s t u : string) : (s +:+ t) +:+ u = s +:+ (t +:+ u).
Proof.
  induction s as [|a s IH]; [done|].
  change (String a ((s +:+ t) +:+ u) = String a (s +:+ (t +:+ u))).
  by rewrite IH.
Qed.

Lemma str_repeat_add a b s t :
  str_repeat (a + b) s +:+ t = str_repeat a s +:+ (str_repeat b s +:+ t).
Proof.
  induction a as [|a IH]; [done|].
  cbn [str_repeat Nat.add]. by rewrite !string_app_assoc, IH.
Qed.

Lemma dict_set_fresh {V} k (v : V) d :
  k ∉ d.*1 → dict_set k v d = d ++ [(k, v)].
Proof.
  induction d as [|[k' v'] d IH]; intros Hk; [done|].
  cbn in *. apply not_elem_of_cons in Hk as [Hne Hk].
  destruct (decide (k' = k)) as [->|_]; [done|]. by rewrite IH.
Qed.

Lemma rename_keys_from {V} (f : string → string) (d acc : list (string * V)) :
  NoDup (acc.*1 ++ (f <$> d.*1)) →
  foldl (λ new_dict kv, dict_set (f kv.1) kv.2 new_dict) acc d
  = acc ++ (prod_map f id <$> d).
Proof.
  revert acc. induction d as [|[k v] d IH]; intros acc Hnd.
  { by rewrite app_nil_r. }
  cbn [foldl fmap list_fmap fst snd] in *.
  rewrite dict_set_fresh.
  - rewrite IH.
    + by rewrite <- app_assoc.
    + rewrite fmap_app, <- app_assoc. exact Hnd.
  - apply NoDup_app in Hnd as (_ & Hnd & _).
    intros Hin. apply (Hnd _ Hin). left.
Qed.

(** Renaming the keys one to one keeps every item, in order. *)
Lemma rename_keys_NoDup {V} (f : string → string) (d : list (string * V)) :
  NoDup (f <$> d.*1) → rename_keys f d = prod_map f id <$> d.
Proof. intros Hnd. unfold rename_keys. by rewrite rename_keys_from. Qed.

Lemma rename_keys_fmap {V} (f g : string → string) (d : list (string * V)) :
  NoDup ((f ∘ g) <$> d.*1) →
  rename_keys f (prod_map g id <$> d) = prod_map (f ∘ g) id <$> d.
Proof.
  intros Hnd. rewrite rename_keys_NoDup.
  - rewrite <- list_fmap_compose. apply list_fmap_ext. by intros _ [??] _.
  - rewrite <- !list_fmap_compose. rewrite list_fmap_compose in Hnd.
    rewrite <- !list_fmap_compose in Hnd. exact Hnd.
Qed.

Lemma prefix_keys_NoDup (n : nat) (keys : list string) :
  NoDup keys → NoDup ((λ k, str_repeat n "module." +:+ k) <$> keys).
Proof. intros Hnd. by apply (NoDup_fmap_2 _). Qed.

Lemma fmap_keys_ext {V} (f g : string → string) (d : list (string * V)) :
  (∀ k, f k = g k) → prod_map f id <$> d = prod_map g id <$> d.
Proof.
  intros Hfg. apply list_fmap_ext. intros _ [k v] _. cbn. by rewrite Hfg.
Qed.

Lemma fmap_keys_id {V} (f : string → string) (d : list (string * V)) :
  (∀ k, f k = k) → prod_map f id <$> d = d.
Proof.
  intros Hf. rewrite <- (list_fmap_id d) at 2.
  apply list_fmap_ext. intros _ [k v] _. cbn. by rewrite Hf.
Qed.

Lemma match_module_prefixes_eq {V} (sd : list (string * V)) ckpt_first mod_first
    mod_rest :
  head sd.*1 = Some ckpt_first →
  match_module_prefixes sd (mod_first :: mod_rest)
  = let key_count_diff :=
      (Z.of_nat (count_module mod_first) - Z.of_nat (count_module ckpt_first))%Z in
    if decide (key_count_diff > 0)%Z then
      Some (rename_keys (λ k, str_repeat (Z.to_nat key_count_diff) "module." +:+ k) sd)
    else if decide (key_count_diff < 0)%Z then
      Some (rename_keys
              (λ k, str_drop (String.length "module."
                              * Z.to_nat (Z.abs key_count_diff)) k) sd)
    else Some sd.
Proof. destruct sd as [|[k v] sd]; intros [= ->]; reflexivity. Qed.

(** X1 (lines 153-172 of [load_checkpoint]).  When the keys of the checkpoint
    are [c] copies of "module." in front of a name, the first name holding no
    "module", and the first key of the model holds "module" [m] times, the
    state dict handed to the model has every key with [m] copies of "module."
    in front of the same name, whichever of the three branches runs; no item
    is lost and the order is kept. *)
Theorem match_module_prefixes_aligns {V} (c m : nat) (name0 : string) (v0 : V)
    (rest : list (string * V)) (mod_first : string) (mod_rest : list string) :
  count_module name0 = 0%nat →
  count_module mod_first = m →
  NoDup (name0 :: rest.*1) →
  match_module_prefixes
    (prod_map (λ k, str_repeat c "module." +:+ k) id <$> (name0, v0) :: rest)
    (mod_first :: mod_rest)
  = Some (prod_map (λ k, str_repeat m "module." +:+ k) id <$> (name0, v0) :: rest).
Proof.
  intros Hname Hmod Hnd.
  change (name0 :: rest.*1) with (((name0, v0) :: rest).*1) in Hnd.
  set (items := (name0, v0) :: rest) in *.
  rewrite (match_module_prefixes_eq _ (str_repeat c "module." +:+ name0)) by done.
  rewrite count_module_repeat, Hname, Hmod, Nat.add_0_r. cbv zeta.
  destruct (decide _) as [Hgt|Hle]; [|destruct (decide _) as [Hlt|Hge]].
  - replace (Z.to_nat (Z.of_nat m - Z.of_nat c)) with (m - c)%nat by lia.
    assert (Hk : ∀ k, ((λ k, str_repeat (m - c) "module." +:+ k)
                         ∘ (λ k, str_repeat c "module." +:+ k)) k
                      = str_repeat m "module." +:+ k).
    { intros k. cbn. rewrite <- str_repeat_add. f_equal. f_equal. lia. }
    f_equal. rewrite rename_keys_fmap; [by apply fmap_keys_ext|].
    rewrite (list_fmap_ext _ (λ k, str_repeat m "module." +:+ k) _)
      by (intros; apply Hk).
    by apply prefix_keys_NoDup.
  - replace (Z.to_nat (Z.abs (Z.of_nat m - Z.of_nat c))) with (c - m)%nat by lia.
    assert (Hk : ∀ k, ((λ k, str_drop (String.length "module." * (c - m)) k)
                         ∘ (λ k, str_repeat c "module." +:+ k)) k
                      = str_repeat m "module." +:+ k).
    { intros k. cbn [compose].
      replace c with ((c - m) + m)%nat at 2 by lia.
      by rewrite str_repeat_add, str_drop_repeat. }
    f_equal. rewrite rename_keys_fmap; [by apply fmap_keys_ext|].
    rewrite (list_fmap_ext _ (λ k, str_repeat m "module." +:+ k) _)
      by (intros; apply Hk).
    by apply prefix_keys_NoDup.
  - by replace c with m by lia.
Qed.

Lemma match_module_prefixes_aligns_witness :
  match_module_prefixes
    (prod_map (λ k, str_repeat 2 "module." +:+ k) id
       <$> [("backbone.weight", 1%nat); ("energy_head.bias", 2%nat)])
    ["backbone.weight"; "energy_head.bias"]
  = Some (prod_map (λ k, str_repeat 0 "module." +:+ k) id
            <$> [("backbone.weight", 1%nat); ("energy_head.bias", 2%nat)]).
Proof.
  apply (match_module_prefixes_aligns 2 0 "backbone.weight" 1%nat
           [("energy_head.bias", 2%nat)] "backbone.weight" ["energy_head.bias"]).
  - reflexivity.
  - reflexivity.
  - by_eval.
Defined.

(** X2 (lines 153-172 of [load_checkpoint]).  Round trip: a state dict that
    was given extra "module." prefixes for a model whose keys hold "module"
    more often is given back unchanged when it is then matched against a
    model whose keys hold "module" as often as the state dict first did.
    Adding the prefixes loses no item. *)
Theorem match_module_prefixes_round_trip {V} (sd : list (string * V))
    (ckpt_first mod_first orig_first : string) (mod_rest orig_rest : list string) :
  NoDup sd.*1 →
  head sd.*1 = Some ckpt_first →
  count_module orig_first = count_module ckpt_first →
  (count_module ckpt_first ≤ count_module mod_first)%nat →
  match_module_prefixes sd (mod_first :: mod_rest)
    ≫= (λ sd', match_module_prefixes sd' (orig_first :: orig_rest))
  = Some sd.
Proof.
  intros Hnd Hhd Horig Hle.
  rewrite (match_module_prefixes_eq _ ckpt_first) by done. cbv zeta.
  set (c := count_module ckpt_first) in *. set (m := count_module mod_first) in *.
  destruct (decide _) as [Hgt|_]; [|destruct (decide _) as [Hlt|_]]; [| lia |].
  - replace (Z.to_nat (Z.of_nat m - Z.of_nat c)) with (m - c)%nat by lia.
    rewrite rename_keys_NoDup by by apply prefix_keys_NoDup.
    cbn [mbind option_bind].
    rewrite (match_module_prefixes_eq
               _ (str_repeat (m - c) "module." +:+ ckpt_first)).
    2:{ destruct sd as [|[k v] sd]; [done|]. cbn in *. by simplify_eq. }
    rewrite count_module_repeat, Horig. fold c. cbv zeta.
    destruct (decide _) as [?|_]; [lia|].
    destruct (decide _) as [_|?]; [|lia].
    replace (Z.to_nat (Z.abs (Z.of_nat c - Z.of_nat (m - c + c))))
      with (m - c)%nat by lia.
    assert (Hk : ∀ k, ((λ k, str_drop (String.length "module." * (m - c)) k)
                         ∘ (λ k, str_repeat (m - c) "module." +:+ k)) k = k).
    { intros k. cbn [compose]. apply str_drop_repeat. }
    f_equal. rewrite rename_keys_fmap; [by apply fmap_keys_id|].
    rewrite (list_fmap_ext _ id _) by (intros; apply Hk).
    by rewrite list_fmap_id.
  - cbn [mbind option_bind].
    rewrite (match_module_prefixes_eq _ ckpt_first) by done. cbv zeta.
    rewrite Horig. fold c.
    destruct (decide _) as [?|_]; [lia|]. by destruct (decide _) as [?|_]; [lia|].
Qed.

Lemma match_module_prefixes_round_trip_witness :
  match_module_prefixes
    [("module.backbone.weight", 1%nat); ("module.energy_head.bias", 2%nat)]
    ["module.module.backbone.weight"]
    ≫= (λ sd', match_module_prefixes sd' ["module.backbone.weight"])
  = Some [("module.backbone.weight", 1%nat); ("module.energy_head.bias", 2%nat)].
Proof.
  apply (match_module_prefixes_round_trip
           [("module.backbone.weight", 1%nat); ("module.energy_head.bias", 2%nat)]
           "module.backbone.weight" "module.module.backbone.weight"
           "module.backbone.weight" [] []).
  - by_eval.
  - reflexivity.
  - reflexivity.
  - vm_compute. lia.
Defined.

(** ** [_merge_mt_outputs] and [_forward] *)

Lemma pop_all_from {V} (ks : list string) (acc : list V) (m : gmap string V) vs m' :
  foldM (λ '(tensors, merged_outputs) key,
           let* (v, merged_outputs) := dict_pop merged_outputs key in
           Ok (tensors ++ [v], merged_outputs)) (acc, m) ks = Ok (vs, m') →
  ∃ values, vs = acc ++ values ∧
            Forall2 (λ k v, m !! k = Some v) ks values ∧
            NoDup ks ∧
            ∀ k, m' !! k = if decide (k ∈ ks) then None else m !! k.
Proof.
  revert acc m. induction ks as [|k ks IH]; intros acc m H; cbn [foldM rbind] in H.
  - injection H as <- <-. exists []. rewrite app_nil_r.
    split_and!; [done|constructor|constructor|].
    intros k. destruct (decide (k ∈ [])) as [Hin|]; [|done].
    by apply elem_of_nil in Hin.
  - unfold dict_pop in H at 1. destruct (m !! k) as [v|] eqn:Hk; [|done].
    cbn [rbind] in H. apply IH in H as (values & -> & Hall & Hnd & Hm').
    assert (Hks : k ∉ ks).
    { intros Hin. apply list_elem_of_lookup in Hin as [i Hi].
      destruct (Forall2_lookup_l _ _ _ _ _ Hall Hi) as (v' & _ & Hv').
      by rewrite lookup_delete_eq in Hv'. }
    exists (v :: values). split_and!.
    + by rewrite <- app_assoc.
    + constructor; [done|]. eapply Forall2_impl; [exact Hall|].
      intros k' v' Hv'. by apply lookup_delete_Some in Hv' as [_ ?].
    + by constructor.
    + intros k'. rewrite Hm'.
      destruct (decide (k' ∈ ks)) as [Hin|Hin].
      * rewrite decide_True; [done|by right].
      * destruct (decide (k' = k)) as [->|Hne].
        -- rewrite decide_True by left. apply lookup_delete_eq.
        -- rewrite decide_False by (by intros [?|?]%elem_of_cons).
           by apply lookup_delete_ne.
Qed.

Lemma pop_all_Ok {V} (m : gmap string V) ks vs m' :
  pop_all m ks = Ok (vs, m') →
  Forall2 (λ k v, m !! k = Some v) ks vs ∧ NoDup ks ∧
  ∀ k, m' !! k = if decide (k ∈ ks) then None else m !! k.
Proof. intros (values & -> & ? & ? & ?)%pop_all_from. done. Qed.

Lemma pop_all_present {V} (ks : list string) (acc : list V) (m : gmap string V) :
  NoDup ks → (∀ k, k ∈ ks → is_Some (m !! k)) →
  is_ok (foldM (λ '(tensors, merged_outputs) key,
                  let* (v, merged_outputs) := dict_pop merged_outputs key in
                  Ok (tensors ++ [v], merged_outputs)) (acc, m) ks) = true.
Proof.
  revert acc m. induction ks as [|k ks IH]; intros acc m Hnd Hin; [done|].
  cbn [foldM rbind]. unfold dict_pop at 1.
  destruct (Hin k) as [v ->]; [left|]. cbn [rbind].
  apply NoDup_cons in Hnd as [Hk Hnd]. apply IH; [done|].
  intros k' Hk'. rewrite lookup_delete_ne by (by intros ->).
  apply Hin. by right.
Qed.

Lemma elem_of_concat_2 {A} (x : A) (l : list A) (ls : list (list A)) :
  x ∈ l → l ∈ ls → x ∈ concat ls.
Proof.
  intros Hx. induction ls as [|l' ls IH]; intros Hl; [by apply elem_of_nil in Hl|].
  cbn. apply elem_of_app. apply elem_of_cons in Hl as [->|Hl]; [by left|].
  right. by apply IH.
Qed.

(** The loop of [_merge_mt_outputs] from any round on. *)
Lemma merge_from {V} (stack : list V → result V) (l : list (string * list string))
    (m m' : gmap string V) :
  foldM (merge_target stack) m l = Ok m' →
  NoDup (concat l.*2 ++ l.*1) →
  (∀ t ks, (t, ks) ∈ l →
     ∃ vs st, Forall2 (λ k v, m !! k = Some v) ks vs ∧ stack vs = Ok st ∧
              m' !! t = Some st) ∧
  (∀ k, k ∈ concat l.*2 → m' !! k = None) ∧
  (∀ k, k ∉ concat l.*2 → k ∉ l.*1 → m' !! k = m !! k).
Proof.
  revert m. induction l as [|[t ks] l IH]; intros m H Hnd.
  { injection H as <-. split_and!; [|by intros ? ?%elem_of_nil|done].
    by intros ?? ?%elem_of_nil. }
  cbn [foldM] in H. unfold merge_target at 1 in H.
  destruct (pop_all m ks) as [[vs m1]|] eqn:Hpop; [|done]. cbn [rbind] in H.
  destruct (stack vs) as [st|] eqn:Hst; [|done]. cbn [rbind] in H.
  apply pop_all_Ok in Hpop as (Hvs & _ & Hm1).
  cbn [fmap list_fmap concat fst snd] in Hnd.
  change (list_fmap _ _ snd l) with (l.*2) in Hnd.
  change (list_fmap _ _ fst l) with (l.*1) in Hnd.
  apply NoDup_app in Hnd as (Hnd1 & Hdisj & Hnd2).
  apply NoDup_app in Hnd1 as (_ & Hks & Hnd1).
  apply NoDup_cons in Hnd2 as (Ht & Hnd2).
  assert (Htks : t ∉ ks ++ concat l.*2).
  { intros Hin. apply (Hdisj _ Hin). left. }
  destruct (IH _ H) as (IH1 & IH2 & IH3).
  { apply NoDup_app. split_and!; [done| |done].
    intros k Hk Hk'. apply (Hdisj k); [apply elem_of_app; by right|by right]. }
  assert (Hm2 : ∀ k, k ∉ ks → k ≠ t → <[t:=st]> m1 !! k = m !! k).
  { intros k Hk Hne. rewrite lookup_insert_ne by done.
    rewrite Hm1. by rewrite decide_False. }
  split_and!.
  - intros t' ks' [[= -> ->]|Hin]%elem_of_cons.
    + exists vs, st. split_and!; [done..|].
      rewrite IH3; [apply lookup_insert_eq| |done].
      intros Hin. apply Htks, elem_of_app. by right.
    + destruct (IH1 _ _ Hin) as (vs' & st' & Hvs' & Hst' & Hm').
      exists vs', st'. split_and!; [|done..].
      assert (Hsub : ∀ k, k ∈ ks' → k ∈ concat l.*2).
      { intros k Hk. apply (elem_of_concat_2 _ ks'); [done|].
        apply list_elem_of_fmap. by exists (t', ks'). }
      clear -Hvs' Hm2 Hsub Hks Htks.
      induction Hvs' as [|k v ks' vs' Hk _ IHf]; constructor.
      * rewrite <- Hk. symmetry. apply Hm2.
        -- intros Hin. apply (Hks _ Hin), Hsub. left.
        -- intros ->. apply Htks, elem_of_app. right. apply Hsub. left.
      * apply IHf. intros k' Hk'. apply Hsub. by right.
  - intros k [Hk|Hk]%elem_of_app; [|by apply IH2].
    destruct (decide (k ∈ concat l.*2)) as [?|Hnot]; [by apply IH2|].
    rewrite IH3; [|done|].
    + rewrite lookup_insert_ne.
      * rewrite Hm1. by rewrite decide_True.
      * intros ->. apply Htks, elem_of_app. by left.
    + intros Hin. apply (Hdisj k); [apply elem_of_app; by left|by right].
  - intros k Hk Hk'. apply not_elem_of_app in Hk as [Hk1 Hk2].
    apply not_elem_of_cons in Hk' as [Hne Hk'].
    rewrite IH3 by done. by apply Hm2.
Qed.

(** X3 (lines 673-682).  When [_merge_mt_outputs] returns and no per-task key
    occurs twice or is also the name of a target, every merged target holds the
    stack of the tensors that the outputs had under its per-task keys, in the
    order of the keys; the per-task keys are gone from the result; and every
    other key holds what it held in the outputs. *)
Theorem merge_mt_outputs_spec {Tgt V} (stack : list V → result V)
    (self : @Trainer Tgt) (outputs merged : gmap string V) :
  NoDup (concat (multi_task_targets_items self).*2
         ++ (multi_task_targets_items self).*1) →
  _merge_mt_outputs stack self outputs = Ok merged →
  (∀ target_name target_key_list,
     (target_name, target_key_list) ∈ multi_task_targets_items self →
     ∃ tensors stacked,
       Forall2 (λ key v, outputs !! key = Some v) target_key_list tensors ∧
       stack tensors = Ok stacked ∧
       merged !! target_name = Some stacked) ∧
  (∀ key, key ∈ concat (multi_task_targets_items self).*2 →
          merged !! key = None) ∧
  (∀ key, key ∉ concat (multi_task_targets_items self).*2 →
          key ∉ (multi_task_targets_items self).*1 →
          merged !! key = outputs !! key).
Proof. intros Hnd H. by apply (merge_from stack). Qed.

Lemma merge_mt_outputs_spec_witness :
  let outputs : gmap string (list nat) :=
    {[ "energy_task_0" := [8]; "energy_task_1" := [8]; "energy_task_2" := [8];
       "forces_task_0" := [20; 3]; "forces_task_1" := [20; 3];
       "forces_task_2" := [20; 3]; "aux" := [8; 4] ]}%nat in
  let merged : gmap string (list nat) :=
    {[ "energy" := [8; 3]; "forces" := [20; 3; 3]; "aux" := [8; 4] ]}%nat in
  _merge_mt_outputs stack_dim1 example_trainer outputs = Ok merged ∧
  (∃ tensors stacked,
     Forall2 (λ key v, outputs !! key = Some v)
             ["energy_task_0"; "energy_task_1"; "energy_task_2"] tensors ∧
     stack_dim1 tensors = Ok stacked ∧ merged !! "energy" = Some stacked) ∧
  merged !! "energy_task_1" = None ∧
  merged !! "aux" = outputs !! "aux".
Proof.
  intros outputs merged.
  assert (Hm : _merge_mt_outputs stack_dim1 example_trainer outputs = Ok merged)
    by by_eval.
  destruct (merge_mt_outputs_spec stack_dim1 example_trainer outputs merged)
    as (Htargets & Hkeys & Hother).
  - by_eval.
  - exact Hm.
  - split_and!.
    + exact Hm.
    + apply Htargets. by_eval.
    + apply Hkeys. by_eval.
    + apply Hother; by_eval.
Defined.

(** X4 (lines 673-682).  [_merge_mt_outputs] does not return when the
    outputs lack one of the per-task keys (the [pop] raises); here too no
    per-task key occurs twice or names a target. *)
Theorem merge_mt_outputs_missing {Tgt V} (stack : list V → result V)
    (self : @Trainer Tgt) (outputs : gmap string V) target_name target_key_list key :
  NoDup (concat (multi_task_targets_items self).*2
         ++ (multi_task_targets_items self).*1) →
  (target_name, target_key_list) ∈ multi_task_targets_items self →
  key ∈ target_key_list →
  outputs !! key = None →
  is_ok (_merge_mt_outputs stack self outputs) = false.
Proof.
  intros Hnd Hitem Hkey Hnone.
  destruct (_merge_mt_outputs stack self outputs) as [merged|e] eqn:Hm; [|done].
  destruct (merge_from stack _ _ _ Hm Hnd) as (Htargets & _).
  destruct (Htargets _ _ Hitem) as (tensors & _ & Hall & _).
  apply list_elem_of_lookup in Hkey as [i Hi].
  destruct (Forall2_lookup_l _ _ _ _ _ Hall Hi) as (v & _ & Hv). congruence.
Qed.

Lemma merge_mt_outputs_missing_witness :
  is_ok (_merge_mt_outputs stack_dim1 example_trainer
           ({[ "energy_task_0" := [8]; "energy_task_1" := [8];
               "forces_task_0" := [20; 3]; "forces_task_1" := [20; 3];
               "forces_task_2" := [20; 3] ]}%nat : gmap string (list nat)))
  = false.
Proof.
  apply (merge_mt_outputs_missing stack_dim1 example_trainer _ "energy"
           ["energy_task_0"; "energy_task_1"; "energy_task_2"] "energy_task_2").
  - by_eval.
  - by_eval.
  - by_eval.
  - reflexivity.
Defined.

Lemma stack_dim1_same (vs : list (list nat)) d0 ds :
  vs ≠ [] → Forall (λ v, v = d0 :: ds) vs →
  stack_dim1 vs = Ok (d0 :: length vs :: ds).
Proof.
  destruct vs as [|v vs]; [done|]. intros _ [-> Hall]%Forall_cons.
  unfold stack_dim1. by rewrite bool_decide_eq_true_2.
Qed.

Lemma Forall2_lookup_same {V} (m : gmap string V) ks vs v :
  Forall2 (λ k v, m !! k = Some v) ks vs →
  (∀ k, k ∈ ks → m !! k = Some v) →
  length vs = length ks ∧ Forall (λ v', v' = v) vs.
Proof.
  induction 1 as [|k v' ks vs Hk _ IH]; intros Hm; [by split|].
  destruct IH as [Hlen Hall].
  { intros k' Hk'. apply Hm. by right. }
  split; [cbn; by rewrite Hlen|]. constructor; [|done].
  rewrite (Hm k) in Hk by left. by injection Hk.
Qed.

(** The loop of [_merge_mt_outputs] on shapes succeeds when all the tensors
    of a target have the same shape of rank at least 1. *)
Lemma merge_shapes_ok (shape : string → list nat) (l : list (string * list string))
    (m : gmap string (list nat)) :
  NoDup (concat l.*2 ++ l.*1) →
  (∀ t ks, (t, ks) ∈ l →
     ks ≠ [] ∧ shape t ≠ [] ∧ ∀ k, k ∈ ks → m !! k = Some (shape t)) →
  is_ok (foldM (merge_target stack_dim1) m l) = true.
Proof.
  revert m. induction l as [|[t ks] l IH]; intros m Hnd Hl; [done|].
  cbn [foldM]. unfold merge_target at 1.
  destruct (Hl t ks) as (Hne & Hsh & Hks); [left|].
  cbn [fmap list_fmap concat fst snd] in Hnd.
  change (list_fmap _ _ snd l) with (l.*2) in Hnd.
  change (list_fmap _ _ fst l) with (l.*1) in Hnd.
  apply NoDup_app in Hnd as (Hnd1 & Hdisj & Hnd2).
  apply NoDup_app in Hnd1 as (Hndks & Hksd & Hnd1).
  apply NoDup_cons in Hnd2 as (Ht & Hnd2).
  assert (Hpop := pop_all_present ks [] m Hndks).
  fold (pop_all m ks) in Hpop.
  destruct (pop_all m ks) as [[vs m1]|] eqn:Hpop'.
  2:{ exfalso. cbn in Hpop. apply Is_true_true_2 in Hpop; [done|].
      intros k Hk. rewrite (Hks k Hk). by eexists. }
  clear Hpop. apply pop_all_Ok in Hpop' as (Hvs & _ & Hm1). cbn [rbind].
  destruct (Forall2_lookup_same _ _ _ _ Hvs Hks) as [Hlen Hall].
  destruct (shape t) as [|d0 ds] eqn:Hshape; [done|].
  rewrite (stack_dim1_same vs d0 ds); [|by destruct vs, ks|done].
  cbn [rbind]. apply IH.
  { apply NoDup_app. split_and!; [done| |done].
    intros k Hk Hk'. apply (Hdisj k); [apply elem_of_app; by right|by right]. }
  intros t' ks' Hin. destruct (Hl t' ks') as (Hne' & Hsh' & Hks'); [by right|].
  split_and!; [done..|]. intros k Hk.
  assert (Hkc : k ∈ concat l.*2).
  { apply (elem_of_concat_2 _ ks'); [done|].
    apply list_elem_of_fmap. by exists (t', ks'). }
  rewrite lookup_insert_ne.
  - rewrite Hm1. rewrite decide_False; [by apply Hks'|].
    intros Hkk. by apply (Hksd k).
  - intros ->. apply (Hdisj k); [apply elem_of_app; by right|left].
Qed.

Lemma filter_Forall_id {A} (P : A → Prop) `{∀ x, Decision (P x)} (l : list A) :
  Forall P l → filter P l = l.
Proof.
  induction 1 as [|x l Hx _ IH]; [done|]. by rewrite filter_cons_True, IH.
Qed.

Lemma load_task_targets_items {Tgt} to_dict (self : @Trainer Tgt) :
  (0 < num_tasks self)%nat →
  multi_task_targets_items (load_task to_dict self)
  = multi_task_targets (load_task to_dict self).
Proof.
  intros Hn. apply filter_Forall_id, Forall_forall.
  intros [t ks] Hin. apply list_elem_of_fmap in Hin as ([t' c] & [= -> ->] & _).
  cbn. destruct (num_tasks self); [lia|done].
Qed.

Lemma load_task_targets_elem {Tgt} to_dict (self : @Trainer Tgt) t ks :
  (t, ks) ∈ multi_task_targets (load_task to_dict self) ↔
  (∃ c, (t, c) ∈ outputs_config self) ∧
  ks = (λ task_idx, t +:+ "_task_" +:+ pretty task_idx) <$> seq 0 (num_tasks self).
Proof.
  cbn [multi_task_targets load_task]. rewrite list_elem_of_fmap. split.
  - intros ([t' c] & [= -> ->] & Hin). split; [by exists c|done].
  - intros [[c Hin] ->]. by exists (t, c).
Qed.

(** X5 (lines 214-231 of [load_task], 673-711).  After [load_task] with at
    least one task, [_forward] returns when the model gives, for every
    configured target and every task index below [num_tasks], a tensor under
    the key "<target>_task_<index>", of one shape per target, of rank 1 for a
    system-level target and of rank 2 for an atom-level one: the target then
    holds a tensor with [num_tasks] as a new second dimension, which the
    validation accepts.  No per-task key occurs twice or names a target. *)
Theorem forward_after_load_task {Tgt} (to_dict : OutputTarget → gmap string string)
    (self0 : @Trainer Tgt) (outputs : gmap string (list nat))
    (shape : string → list nat) :
  let self := load_task to_dict self0 in
  (0 < num_tasks self0)%nat →
  NoDup (concat (multi_task_targets_items self).*2
         ++ (multi_task_targets_items self).*1) →
  (∀ t c, (t, c) ∈ outputs_config self0 →
     (configured_level (to_dict c) = "system" ∧ length (shape t) = 1%nat) ∨
     (configured_level (to_dict c) = "atom" ∧ length (shape t) = 2%nat)) →
  (∀ t c i, (t, c) ∈ outputs_config self0 → (i < num_tasks self0)%nat →
     outputs !! (t +:+ "_task_" +:+ pretty i) = Some (shape t)) →
  ∃ merged,
    _forward self outputs = Ok merged ∧
    ∀ t c, (t, c) ∈ outputs_config self0 →
      merged !! t = Some (take 1 (shape t) ++ num_tasks self0 :: drop 1 (shape t)).
Proof.
  intros self Hn Hnd Hlevel Hout. subst self.
  unfold _forward, _merge_mt_outputs.
  rewrite load_task_targets_items in Hnd |- * by done.
  set (self := load_task to_dict self0) in *.
  assert (Hitems : ∀ t ks, (t, ks) ∈ multi_task_targets self →
            length ks = num_tasks self0 ∧ shape t ≠ [] ∧
            ∀ k, k ∈ ks → outputs !! k = Some (shape t)).
  { intros t ks [[c Hc] ->]%load_task_targets_elem. split_and!.
    - by rewrite length_fmap, length_seq.
    - destruct (Hlevel t c Hc) as [[_ Hl]|[_ Hl]]; by destruct (shape t).
    - intros k (i & -> & Hi)%list_elem_of_fmap. apply (Hout t c); [done|].
      apply elem_of_seq in Hi. lia. }
  assert (Hok := merge_shapes_ok shape (multi_task_targets self) outputs Hnd).
  destruct (foldM (merge_target stack_dim1) outputs (multi_task_targets self))
    as [merged|e] eqn:Hm.
  2:{ exfalso. cbn in Hok. apply Is_true_true_2 in Hok; [done|].
      intros t ks Hin. destruct (Hitems t ks Hin) as (Hlen & Hsh & Hks).
      split_and!; [|done..]. intros ->. cbn in Hlen. lia. }
  clear Hok. destruct (merge_from _ _ _ _ Hm Hnd) as (Htargets & _).
  assert (Hmerged : ∀ t c, (t, c) ∈ outputs_config self0 →
            merged !! t
            = Some (take 1 (shape t) ++ num_tasks self0 :: drop 1 (shape t))).
  { intros t c Hc.
    destruct (Htargets t ((λ task_idx, t +:+ "_task_" +:+ pretty task_idx)
                            <$> seq 0 (num_tasks self0)))
      as (vs & st & Hvs & Hst & ->).
    { apply load_task_targets_elem. split; [by exists c|done]. }
    destruct (Hitems t _ (proj2 (load_task_targets_elem to_dict self0 t _)
                            (conj (ex_intro _ c Hc) eq_refl)))
      as (Hlen & Hsh & Hks).
    destruct (Forall2_lookup_same _ _ _ _ Hvs Hks) as [Hlen' Hall].
    destruct (shape t) as [|d0 ds]; [done|].
    rewrite (stack_dim1_same vs d0 ds) in Hst; [| |done].
    2:{ intros ->. rewrite Hlen in Hlen'. cbn in Hlen'. lia. }
    injection Hst as <-. cbn. by rewrite Hlen', Hlen. }
  exists merged. split; [|done]. cbn [rbind].
  destruct (_validate_mt_outputs self merged) as [ws|e] eqn:Hv; [done|].
  exfalso.
  assert (Hv' : _validate_mt_outputs self merged
                = Ok ([] ++ missing_targets merged (output_targets self))).
  { apply validate_mt_outputs_from. split; [|done].
    apply Forall_forall. intros [t0 d] ([t c] & [= -> ->] & Hc)%list_elem_of_fmap.
    unfold accepts. cbn [fst snd]. rewrite (Hmerged t c Hc).
    change (num_tasks self) with (num_tasks self0). unfold shape_ok.
    destruct (Hlevel t c Hc) as [[-> Hl]|[-> Hl]]; [left|right];
      (split; [done|]); destruct (shape t) as [|d0 [|d1 [|d2 ds]]]; done. }
  congruence.
Qed.

Lemma forward_after_load_task_witness :
  let outputs : gmap string (list nat) :=
    {[ "energy_task_0" := [8]; "energy_task_1" := [8]; "energy_task_2" := [8];
       "forces_task_0" := [20; 3]; "forces_task_1" := [20; 3];
       "forces_task_2" := [20; 3] ]}%nat in
  let shape := λ t : string, if decide (t = "energy") then [8] else [20; 3]%nat in
  ∃ merged,
    _forward (load_task example_to_dict example_trainer) outputs = Ok merged ∧
    ∀ t c, (t, c) ∈ outputs_config example_trainer →
      merged !! t
      = Some (take 1 (shape t) ++ num_tasks example_trainer :: drop 1 (shape t)).
Proof.
  intros outputs shape.
  apply (forward_after_load_task example_to_dict example_trainer outputs shape).
  - vm_compute. lia.
  - by_eval.
  - intros t c Hin. apply list_elem_of_In in Hin.
    destruct Hin as [[= <- <-]|[[= <- <-]|[]]]; [left|right]; split; reflexivity.
  - intros t c i Hin Hi. change (num_tasks example_trainer) with 3%nat in Hi.
    apply list_elem_of_In in Hin.
    destruct Hin as [[= <- <-]|[[= <- <-]|[]]];
      (destruct i as [|[|[|i]]]; [reflexivity..|lia]).
Defined.

(** ** [_compute_metrics] in training and in eval mode *)

Section metrics_modes.
Context {Tgt Sel : Type}.
Variable cat_targets : list Tgt → result Tgt.
Variable select : Tgt → matrix bool → result Sel.
Variable abs_error : Sel → Sel → result (scalar * nat).
Variable denormalize_tensors :
  list (@Batch Tgt) → string → Sel * Sel → list bool → result (Sel * Sel).
Variable denormalize_context :
  list (@Batch Tgt) → gmap string Sel → result (list (@Batch Tgt) * gmap string Sel).
Variable base_compute_metrics :
  gmap string Sel → list (@Batch Tgt) → gmap string scalar → result (gmap string scalar).
Implicit Types (self : @Trainer Tgt) (metrics : gmap string scalar).

(** The loop that resets the training accumulators. *)
Lemma reset_loop (l : list nat) self self' :
  foldM (λ self task_idx,
           let* self := reset Train Energy task_idx self in
           reset Train Forces task_idx self) self l = Ok self' →
  evolves (λ e, ∃ q i, i ∈ l ∧ e = WasReset Train q i) self self' ∧
  ∀ q i, i ∈ l → maes Train q (per_task self') !! i = Some MAE_new.
Proof.
  revert self. induction l as [|i l IH]; intros self H; cbn [foldM] in H.
  { injection H as <-. split; [apply evolves_refl|]. by intros ?? ?%elem_of_nil. }
  destruct (reset Train Energy i self) as [s1|] eqn:H1; [|done]. cbn [rbind] in H.
  destruct (reset Train Forces i s1) as [s2|] eqn:H2; [|done]. cbn [rbind] in H.
  apply IH in H as [Hev Hnew].
  apply reset_Ok in H1 as (Hev1 & Hnew1 & _).
  apply reset_Ok in H2 as (Hev2 & Hnew2 & _).
  split.
  - eapply evolves_trans; [|eapply evolves_trans].
    + eapply evolves_weaken; [|exact Hev1]. intros e ->. exists Energy, i.
      split; [left|done].
    + eapply evolves_weaken; [|exact Hev2]. intros e ->. exists Forces, i.
      split; [left|done].
    + eapply evolves_weaken; [|exact Hev]. intros e (q & j & Hj & ->).
      exists q, j. split; [by right|done].
  - intros q j [->|Hj]%elem_of_cons; [|by apply Hnew].
    destruct (decide (i ∈ l)) as [Hi|Hi]; [by apply Hnew|].
    destruct Hev as (_ & _ & _ & Hunt). rewrite Hunt.
    2:{ intros e (q' & j & Hj & ->) [[=]|[= _ ->]]. done. }
    destruct q; [|done].
    destruct Hev2 as (_ & _ & _ & Hunt2). rewrite Hunt2; [done|].
    intros e -> [[=]|[=]].
Qed.
Lemma evolves_frame (E : event → Prop) self self' :
  evolves E self self' →
  training self' = training self ∧ step self' = step self ∧
  print_every self' = print_every self ∧ num_tasks self' = num_tasks self.
Proof. intros [-> _]. done. Qed.

Lemma compute_metrics_Ok outputs batch_list metrics self metrics' self' :
  _compute_metrics cat_targets select abs_error denormalize_tensors
    denormalize_context base_compute_metrics outputs batch_list metrics self
  = Ok (metrics', self') →
  evolves (metrics_event self) self self' ∧
  (training self = true → print_every self ≠ 0%nat) ∧
  (training self = true → (step self mod print_every self = 0)%nat →
   ∀ q i, (i < num_tasks self)%nat →
          maes Train q (per_task self') !! i = Some MAE_new) ∧
  (training self = false ∨ (step self mod print_every self ≠ 0)%nat →
   evolves (λ e, ∃ q i, e = Updated (metric_phase self) q i) self self').
Proof.
  unfold _compute_metrics. intros H. inv_bind H. injection H as <- <-.
  match goal with
  | H : _compute_per_task_metrics _ _ _ _ _ _ _ = Ok _ |- _ =>
      apply compute_per_task_metrics_Ok in H as [Hev _]
  end.
  assert (Hupd : evolves (λ e, ∃ q i, e = Updated (metric_phase self) q i) self t).
  { eapply evolves_weaken; [|exact Hev]. intros e (task & q & _ & _ & ->). eauto. }
  destruct (evolves_frame _ _ _ Hev) as (Htr & Hstep & Hpe & Hn).
  match goal with
  | H : (if training ?s then _ else _) = Ok _ |- _ => rename H into Hreset
  end.
  rewrite Htr, Hpe, Hstep, Hn in Hreset.
  destruct (training self) eqn:Htrain.
  2:{ injection Hreset as <-. split_and!; [|done..| by intros _].
      eapply evolves_weaken; [|exact Hupd]. intros e ?. by left. }
  destruct (decide (print_every self = 0%nat)) as [|Hpe0]; [done|].
  destruct (decide (step self mod print_every self = 0)%nat) as [Hp|Hp].
  - apply reset_loop in Hreset as [Hres Hnew]. split_and!; [|done| |].
    + eapply evolves_trans.
      * eapply evolves_weaken; [|exact Hupd]. intros e ?. by left.
      * eapply evolves_weaken; [|exact Hres]. intros e (q & i & Hi & ->).
        right. split_and!; [done..|]. exists q, i.
        split; [|done]. apply elem_of_seq in Hi. lia.
    + intros _ _ q i Hi. apply Hnew. apply elem_of_seq. lia.
    + intros [?|?]; done.
  - injection Hreset as <-. split_and!; [|done|done|by intros _].
    eapply evolves_weaken; [|exact Hupd]. intros e ?. by left.
Qed.
End metrics_modes.

Lemma is_ok_Ok {A} (r : result A) : is_ok r = true → ∃ a, r = Ok a.
Proof. destruct r; [by eexists|done]. Qed.

(** X6 (lines 509-526, 615-671).  A call of [_compute_metrics] that returns
    leaves the accumulators of the other phase as they were: in training mode
    the validation accumulators of every task, in eval mode the
    training accumulators; and no event it logs is about them. *)
Theorem compute_metrics_other_phase {Tgt Sel : Type}
    (cat_targets : list Tgt → result Tgt)
    (select : Tgt → matrix bool → result Sel)
    (abs_error : Sel → Sel → result (scalar * nat))
    (denormalize_tensors :
       list (@Batch Tgt) → string → Sel * Sel → list bool → result (Sel * Sel))
    (denormalize_context :
       list (@Batch Tgt) → gmap string Sel
       → result (list (@Batch Tgt) * gmap string Sel))
    (base_compute_metrics :
       gmap string Sel → list (@Batch Tgt) → gmap string scalar
       → result (gmap string scalar))
    (outputs : gmap string Tgt) (batch_list : list (@Batch Tgt))
    (metrics metrics' : gmap string scalar) (self self' : @Trainer Tgt) :
  _compute_metrics cat_targets select abs_error denormalize_tensors
    denormalize_context base_compute_metrics outputs batch_list metrics self
  = Ok (metrics', self') →
  let other := if training self then Val else Train in
  (∀ q i, maes other q (per_task self') !! i = maes other q (per_task self) !! i) ∧
  ∃ evs, logged self self' evs ∧ Forall (λ e, ∀ q i, ¬ touches other q i e) evs.
Proof.
  intros H other. apply compute_metrics_Ok in H as (Hev & _).
  assert (Hno : ∀ e, metrics_event self e → ∀ q i, ¬ touches other q i e).
  { subst other. unfold metrics_event, metric_phase.
    intros e [(q' & i' & ->)|(Htr & _ & q' & i' & _ & ->)] q i.
    - destruct (training self); intros [[=]|[=]].
    - rewrite Htr. intros [[=]|[=]]. }
  destruct Hev as (_ & (evs & Hevs & Hall) & _ & Hunt). split.
  - intros q i. apply Hunt. intros e He. by apply Hno.
  - exists evs. split; [done|]. eapply Forall_impl; [exact Hall|]. exact Hno.
Qed.

Lemma compute_metrics_other_phase_witness :
  ∃ metrics' self',
    _compute_metrics example_cat example_select example_abs_error
      example_denormalize example_denormalize_context example_base_compute_metrics
      {[ "energy" := (); "forces" := () ]} [example_batch] ∅ example_trainer
    = Ok (metrics', self') ∧
    ∀ q i, maes Val q (per_task self') !! i
           = maes Val q (per_task example_trainer) !! i.
Proof.
  destruct (is_ok_Ok
              (_compute_metrics example_cat example_select example_abs_error
                 example_denormalize example_denormalize_context
                 example_base_compute_metrics
                 {[ "energy" := (); "forces" := () ]} [example_batch] ∅
                 example_trainer))
    as [[metrics' self'] H]; [vm_compute; reflexivity|].
  exists metrics', self'. split; [exact H|].
  exact (proj1 (compute_metrics_other_phase _ _ _ _ _ _ _ _ _ _ _ _ H)).
Defined.

(** X7 (lines 662-669).  When [_compute_metrics] returns in training mode on
    a step that [print_every] divides, every training accumulator of a task
    index below [num_tasks] is in its initial state afterwards, whatever the
    batch added to it; on any other step, and in eval mode, the call resets
    nothing: it only logs updates of the accumulators of the phase at hand. *)
Theorem compute_metrics_print_step {Tgt Sel : Type}
    (cat_targets : list Tgt → result Tgt)
    (select : Tgt → matrix bool → result Sel)
    (abs_error : Sel → Sel → result (scalar * nat))
    (denormalize_tensors :
       list (@Batch Tgt) → string → Sel * Sel → list bool → result (Sel * Sel))
    (denormalize_context :
       list (@Batch Tgt) → gmap string Sel
       → result (list (@Batch Tgt) * gmap string Sel))
    (base_compute_metrics :
       gmap string Sel → list (@Batch Tgt) → gmap string scalar
       → result (gmap string scalar))
    (outputs : gmap string Tgt) (batch_list : list (@Batch Tgt))
    (metrics metrics' : gmap string scalar) (self self' : @Trainer Tgt) :
  _compute_metrics cat_targets select abs_error denormalize_tensors
    denormalize_context base_compute_metrics outputs batch_list metrics self
  = Ok (metrics', self') →
  (training self = true → (step self mod print_every self = 0)%nat →
   ∀ q i, (i < num_tasks self)%nat →
          maes Train q (per_task self') !! i = Some MAE_new) ∧
  (training self = false ∨ (step self mod print_every self ≠ 0)%nat →
   ∃ evs, logged self self' evs ∧
          Forall (λ e, ∃ q i, e = Updated (metric_phase self) q i) evs).
Proof.
  intros H. apply compute_metrics_Ok in H as (_ & _ & Hprint & Hother).
  split; [exact Hprint|]. intros Hcase.
  by destruct (Hother Hcase) as (_ & Hevs & _).
Qed.

Lemma compute_metrics_print_step_witness :
  (∃ metrics' self',
     _compute_metrics example_cat example_select example_abs_error
       example_denormalize example_denormalize_context example_base_compute_metrics
       {[ "energy" := (); "forces" := () ]} [example_batch] ∅ example_trainer
     = Ok (metrics', self') ∧
     ∀ q i, (i < 3)%nat → maes Train q (per_task self') !! i = Some MAE_new) ∧
  (∃ metrics' self' evs,
     _compute_metrics example_cat example_select example_abs_error
       example_denormalize example_denormalize_context example_base_compute_metrics
       {[ "energy" := (); "forces" := () ]} [example_batch] ∅
       (set_step 3 example_trainer)
     = Ok (metrics', self') ∧
     logged (set_step 3 example_trainer) self' evs ∧
     Forall (λ e, ∃ q i, e = Updated Train q i) evs).
Proof.
  split.
  - destruct (is_ok_Ok
                (_compute_metrics example_cat example_select example_abs_error
                   example_denormalize example_denormalize_context
                   example_base_compute_metrics
                   {[ "energy" := (); "forces" := () ]} [example_batch] ∅
                   example_trainer))
      as [[metrics' self'] H]; [vm_compute; reflexivity|].
    exists metrics', self'. split; [exact H|].
    apply (proj1 (compute_metrics_print_step _ _ _ _ _ _ _ _ _ _ _ _ H));
      reflexivity.
  - destruct (is_ok_Ok
                (_compute_metrics example_cat example_select example_abs_error
                   example_denormalize example_denormalize_context
                   example_base_compute_metrics
                   {[ "energy" := (); "forces" := () ]} [example_batch] ∅
                   (set_step 3 example_trainer)))
      as [[metrics' self'] H]; [vm_compute; reflexivity|].
    destruct (proj2 (compute_metrics_print_step _ _ _ _ _ _ _ _ _ _ _ _ H))
      as (evs & Hlog & Hall); [right; vm_compute; lia|].
    exists metrics', self', evs. split; [exact H|]. split; [exact Hlog|exact Hall].
Defined.

(** X8 (lines 662-665).  With [print_every] equal to zero [_compute_metrics]
    never returns in training mode: the step counter is taken modulo zero. *)
Theorem compute_metrics_print_every_zero {Tgt Sel : Type}
    (cat_targets : list Tgt → result Tgt)
    (select : Tgt → matrix bool → result Sel)
    (abs_error : Sel → Sel → result (scalar * nat))
    (denormalize_tensors :
       list (@Batch Tgt) → string → Sel * Sel → list bool → result (Sel * Sel))
    (denormalize_context :
       list (@Batch Tgt) → gmap string Sel
       → result (list (@Batch Tgt) * gmap string Sel))
    (base_compute_metrics :
       gmap string Sel → list (@Batch Tgt) → gmap string scalar
       → result (gmap string scalar))
    (outputs : gmap string Tgt) (batch_list : list (@Batch Tgt))
    (metrics : gmap string scalar) (self : @Trainer Tgt) :
  training self = true → print_every self = 0%nat →
  is_ok (_compute_metrics cat_targets select abs_error denormalize_tensors
           denormalize_context base_compute_metrics outputs batch_list metrics self)
  = false.
Proof.
  intros Htr Hpe.
  destruct (_compute_metrics _ _ _ _ _ _ _ _ _ _) as [[metrics' self']|e] eqn:H;
    [|done].
  apply compute_metrics_Ok in H as (_ & Hne & _). by destruct (Hne Htr).
Qed.

Lemma compute_metrics_print_every_zero_witness :
  is_ok (_compute_metrics example_cat example_select example_abs_error
           example_denormalize example_denormalize_context
           example_base_compute_metrics
           {[ "energy" := (); "forces" := () ]} [example_batch] ∅
           (load_task example_to_dict
              {| multi_task_config := example_config;
                 outputs_config := example_outputs_config;
                 print_every := 0;
                 loss_fns := [example_energy_loss];
                 training := true;
                 step := 0;
                 normalizers := ∅;
                 typed_output_targets := ∅;
                 output_targets := [];
                 multi_task_targets := [];
                 per_task := per_task example_trainer |}))
  = false.
Proof.
  apply compute_metrics_print_every_zero; reflexivity.
Defined.

Lemma foldM_fails {A B} (f : B → A → result B) (xs : list A) (x : A) (acc : B) :
  x ∈ xs → (∀ b, is_ok (f b x) = false) → is_ok (foldM f acc xs) = false.
Proof.
  intros Hx Hf. revert acc.
  induction xs as [|y xs IH]; intros acc; [by apply elem_of_nil in Hx|].
  cbn [foldM]. apply elem_of_cons in Hx as [<-|Hx].
  - specialize (Hf acc). by destruct (f acc x).
  - destruct (f acc y); [|done]. cbn [rbind]. by apply IH.
Qed.

(** X9 (lines 631-646).  [_compute_metrics] never returns when the outputs
    hold a key that is not a configured target ([self.typed_output_targets]
    has no such key), or one whose configured level is neither "system" nor
    "atom". *)
Theorem compute_metrics_unknown_output {Tgt Sel : Type}
    (cat_targets : list Tgt → result Tgt)
    (select : Tgt → matrix bool → result Sel)
    (abs_error : Sel → Sel → result (scalar * nat))
    (denormalize_tensors :
       list (@Batch Tgt) → string → Sel * Sel → list bool → result (Sel * Sel))
    (denormalize_context :
       list (@Batch Tgt) → gmap string Sel
       → result (list (@Batch Tgt) * gmap string Sel))
    (base_compute_metrics :
       gmap string Sel → list (@Batch Tgt) → gmap string scalar
       → result (gmap string scalar))
    (outputs : gmap string Tgt) (batch_list : list (@Batch Tgt))
    (metrics : gmap string scalar) (self : @Trainer Tgt)
    (target_name : string) (target_value : Tgt) :
  outputs !! target_name = Some target_value →
  (typed_output_targets self !! target_name = None ∨
   ∃ output_target,
     typed_output_targets self !! target_name = Some output_target ∧
     level output_target ≠ "system" ∧ level output_target ≠ "atom") →
  is_ok (_compute_metrics cat_targets select abs_error denormalize_tensors
           denormalize_context base_compute_metrics outputs batch_list metrics self)
  = false.
Proof.
  intros Hout Hbad. unfold _compute_metrics.
  destruct (cat1 _) as [batch_idx|]; [|done]. cbn [rbind].
  destruct (cat2 _) as [task_mask|]; [|done]. cbn [rbind].
  destruct (index_rows _ _) as [task_mask_node|]; [|done]. cbn [rbind].
  match goal with
  | |- is_ok (rbind ?m _) = false =>
      assert (Hm : is_ok m = false); [|by destruct m]
  end.
  apply (foldM_fails _ _ (target_name, target_value)).
  { by apply elem_of_map_to_list. }
  intros aggregated_outputs. unfold getitem.
  destruct Hbad as [->|(output_target & -> & Hs & Ha)]; [done|].
  cbn [rbind]. by rewrite !decide_False.
Qed.

Lemma compute_metrics_unknown_output_witness :
  is_ok (_compute_metrics example_cat example_select example_abs_error
           example_denormalize example_denormalize_context
           example_base_compute_metrics
           {[ "energy" := (); "forces" := (); "stress" := () ]} [example_batch] ∅
           example_trainer)
  = false.
Proof.
  apply (compute_metrics_unknown_output _ _ _ _ _ _ _ _ _ _ "stress" ()).
  - reflexivity.
  - left. reflexivity.
Defined.

(** ** The accumulator dictionaries after [load_task] *)

Lemma fresh_maes_lookup (n i : nat) :
  fresh_maes n !! i = if decide (i < n)%nat then Some MAE_new else None.
Proof.
  unfold fresh_maes. destruct (decide (i < n)%nat) as [Hi|Hi].
  - apply elem_of_list_to_map.
    + rewrite <- list_fmap_compose.
      rewrite (list_fmap_ext _ id (seq 0 n)) by done.
      rewrite list_fmap_id. apply NoDup_seq.
    + apply list_elem_of_fmap. exists i. split; [done|]. apply elem_of_seq. lia.
  - apply not_elem_of_list_to_map. rewrite <- list_fmap_compose.
    rewrite (list_fmap_ext _ id (seq 0 n)) by done.
    rewrite list_fmap_id. rewrite elem_of_seq. lia.
Qed.

Lemma load_task_maes {Tgt : Type} (to_dict : OutputTarget → gmap string string)
    (self : @Trainer Tgt) (p : phase) (q : quantity) (i : nat) :
  maes p q (per_task (load_task to_dict self)) !! i = fresh_maes (num_tasks self) !! i.
Proof. by destruct p, q. Qed.

(** X10 (lines 240-255).  After [load_task] each of the four accumulator
    dictionaries holds an accumulator in its initial state under every task
    index below [num_tasks], and nothing under any other key. *)
Theorem load_task_accumulators {Tgt : Type}
    (to_dict : OutputTarget → gmap string string) (self : @Trainer Tgt)
    (p : phase) (q : quantity) (i : nat) :
  maes p q (per_task (load_task to_dict self)) !! i
  = if decide (i < num_tasks self)%nat then Some MAE_new else None.
Proof. rewrite load_task_maes. apply fresh_maes_lookup. Qed.

Section accumulator_keys.
Context {Tgt Sel : Type}.
Variable cat_targets : list Tgt → result Tgt.
Variable select : Tgt → matrix bool → result Sel.
Variable abs_error : Sel → Sel → result (scalar * nat).
Variable to_dict : OutputTarget → gmap string string.
Variable denormalize_tensors :
  list (@Batch Tgt) → string → Sel * Sel → list bool → result (Sel * Sel).
Variable denormalize_context :
  list (@Batch Tgt) → gmap string Sel → result (list (@Batch Tgt) * gmap string Sel).
Variable base_compute_metrics :
  gmap string Sel → list (@Batch Tgt) → gmap string scalar → result (gmap string scalar).
Implicit Types (self : @Trainer Tgt) (metrics : gmap string scalar).

Lemma load_task_keys self : keys_are_tasks (load_task to_dict self).
Proof.
  intros p q i. rewrite load_task_maes, fresh_maes_lookup.
  change (num_tasks (load_task to_dict self)) with (num_tasks self).
  destruct (decide (i < num_tasks self)%nat); split; try done.
Qed.

Lemma evolves_keys (E : event → Prop) self self' :
  evolves E self self' →
  num_tasks self' = num_tasks self ∧ (keys_are_tasks self → keys_are_tasks self').
Proof.
  intros Hev. destruct (evolves_frame _ _ _ Hev) as (_ & _ & _ & Hn).
  split; [done|]. intros Hk p q i. rewrite Hn, <- (Hk p q i).
  destruct Hev as (_ & _ & Hdom & _). by rewrite <- !elem_of_dom, Hdom.
Qed.

Lemma validate_evolves loader self metrics self' :
  validate cat_targets select abs_error denormalize_tensors
    denormalize_context base_compute_metrics loader self = Ok (metrics, self') →
  evolves (λ _, True) (set_training false self) self'.
Proof.
  unfold validate. intros H. inv_bind H.
  match goal with
  | H : base_validate _ _ _ _ _ _ _ _ = Ok _ |- _ =>
      apply base_validate_Ok in H; rename H into Hbase
  end.
  eapply evolves_trans; [eapply evolves_weaken; [|exact Hbase]; done|].
  match type of H with
  | foldM _ (_, ?t) _ = _ =>
      apply (foldM_inv (λ st, evolves (λ _, True) t st.2)) in H;
        [exact H| |apply evolves_refl]
  end.
  intros [m s] i [m1 s1] _ Hs Hstep. cbn [fst snd] in *.
  unfold validate_step in Hstep. inv_bind Hstep. injection Hstep as <- <-.
  repeat match goal with
  | H : reset _ _ _ _ = Ok _ |- _ => apply reset_Ok in H as (H & _)
  end.
  eapply evolves_trans; [exact Hs|].
  eapply evolves_trans; eapply evolves_weaken; try eassumption; done.
Qed.

Lemma load_checkpoint_per_task checkpoint_step checkpoint_normalizers self :
  per_task (load_checkpoint checkpoint_step checkpoint_normalizers self)
  = per_task self ∧
  num_tasks (load_checkpoint checkpoint_step checkpoint_normalizers self)
  = num_tasks self.
Proof.
  unfold load_checkpoint.
  change (per_task self)
    with (per_task (set_step (default 0%nat checkpoint_step) self)).
  change (num_tasks self)
    with (num_tasks (set_step (default 0%nat checkpoint_step) self)).
  generalize (set_step (default 0%nat checkpoint_step) self).
  induction checkpoint_normalizers as [|[key state] l IH]; intros s; [done|].
  cbn [foldl]. destruct (normalizers s !! key); [|apply IH].
  destruct (IH (set_normalizers (<[key:=state]> (normalizers s)) s)) as [-> ->].
  done.
Qed.

Lemma run_operation_keys self (o : @operation Tgt) :
  let self' := run_operation cat_targets select abs_error to_dict
                 denormalize_tensors denormalize_context base_compute_metrics
                 self o in
  num_tasks self' = num_tasks self ∧ (keys_are_tasks self → keys_are_tasks self').
Proof.
  destruct o as [|cs cn|out bl|outputs bl metrics|loader]; cbn.
  - split; [done|]. intros _. apply load_task_keys.
  - destruct (load_checkpoint_per_task cs cn self) as [Hp Hn].
    split; [done|]. intros Hk p q i. rewrite Hp, Hn. apply Hk.
  - done.
  - destruct (_compute_metrics _ _ _ _ _ _ _ _ _ self) as [[m s]|] eqn:Hm; [|done].
    apply compute_metrics_Ok in Hm as (Hev & _). by eapply evolves_keys.
  - destruct (validate _ _ _ _ _ _ _ self) as [[m s]|] eqn:Hv; [|done].
    apply validate_evolves in Hv. by apply evolves_keys in Hv.
Qed.
End accumulator_keys.

(** X11 (lines 240-255, 509-526, 586-612, 662-669).  Whatever operations run
    after [load_task] (loading a checkpoint, computing a loss, computing
    metrics, validating, loading the task again), the number of tasks stays
    what it was and each of the four accumulator dictionaries keeps exactly
    the task indices below it as keys: an accumulator is never added, and
    never removed. *)
Theorem accumulator_keys_invariant {Tgt Sel : Type}
    (cat_targets : list Tgt → result Tgt)
    (select : Tgt → matrix bool → result Sel)
    (abs_error : Sel → Sel → result (scalar * nat))
    (to_dict : OutputTarget → gmap string string)
    (denormalize_tensors :
       list (@Batch Tgt) → string → Sel * Sel → list bool → result (Sel * Sel))
    (denormalize_context :
       list (@Batch Tgt) → gmap string Sel
       → result (list (@Batch Tgt) * gmap string Sel))
    (base_compute_metrics :
       gmap string Sel → list (@Batch Tgt) → gmap string scalar
       → result (gmap string scalar))
    (self0 : @Trainer Tgt) (operations : list (@operation Tgt)) :
  let self :=
    foldl (run_operation cat_targets select abs_error to_dict denormalize_tensors
             denormalize_context base_compute_metrics)
          (load_task to_dict self0) operations in
  num_tasks self = num_tasks self0 ∧
  ∀ p q i, is_Some (maes p q (per_task self) !! i) ↔ (i < num_tasks self0)%nat.
Proof.
  cbv zeta.
  assert (Hn0 : num_tasks (load_task to_dict self0) = num_tasks self0) by done.
  assert (Hk0 := load_task_keys to_dict self0).
  revert Hn0 Hk0. generalize (load_task to_dict self0).
  induction operations as [|o l IH]; intros s Hn Hk.
  - split; [done|]. intros p q i. by rewrite <- Hn.
  - cbn [foldl].
    destruct (run_operation_keys cat_targets select abs_error to_dict
                denormalize_tensors denormalize_context base_compute_metrics s o)
      as [Hn' Hk'].
    apply IH; [congruence|by apply Hk'].
Qed.

(** X12 (lines 586-612).  After [load_task] and any operations, the closing
    loop of [validate] never raises: [validate] returns exactly when the
    validation pass of the base trainer returns. *)
Theorem validate_closing_loop_returns {Tgt Sel : Type}
    (cat_targets : list Tgt → result Tgt)
    (select : Tgt → matrix bool → result Sel)
    (abs_error : Sel → Sel → result (scalar * nat))
    (to_dict : OutputTarget → gmap string string)
    (denormalize_tensors :
       list (@Batch Tgt) → string → Sel * Sel → list bool → result (Sel * Sel))
    (denormalize_context :
       list (@Batch Tgt) → gmap string Sel
       → result (list (@Batch Tgt) * gmap string Sel))
    (base_compute_metrics :
       gmap string Sel → list (@Batch Tgt) → gmap string scalar
       → result (gmap string scalar))
    (self0 : @Trainer Tgt) (operations : list (@operation Tgt))
    (loader : list (gmap string Tgt * list (@Batch Tgt))) :
  let self :=
    foldl (run_operation cat_targets select abs_error to_dict denormalize_tensors
             denormalize_context base_compute_metrics)
          (load_task to_dict self0) operations in
  is_ok (validate cat_targets select abs_error denormalize_tensors
           denormalize_context base_compute_metrics loader self)
  = is_ok (base_validate cat_targets select abs_error denormalize_tensors
             denormalize_context base_compute_metrics loader self).
Proof.
  cbv zeta.
  assert (Hk : keys_are_tasks
            (foldl (run_operation cat_targets select abs_error to_dict
                      denormalize_tensors denormalize_context base_compute_metrics)
                   (load_task to_dict self0) operations)).
  { assert (Hk0 := load_task_keys to_dict self0).
    revert Hk0. generalize (load_task to_dict self0).
    induction operations as [|o l IH]; intros s Hk; [done|].
    cbn [foldl]. apply IH.
    by apply (run_operation_keys cat_targets select abs_error to_dict
                denormalize_tensors denormalize_context base_compute_metrics s o). }
  revert Hk. generalize (foldl (run_operation cat_targets select abs_error to_dict
                                  denormalize_tensors denormalize_context
                                  base_compute_metrics)
                               (load_task to_dict self0) operations).
  intros self Hk. unfold validate.
  destruct (base_validate _ _ _ _ _ _ loader self) as [[m0 s0]|] eqn:Hb; [|done].
  cbn [rbind is_ok].
  apply base_validate_Ok in Hb.
  destruct (evolves_keys _ _ _ Hb) as [_ Hk0]. specialize (Hk0 Hk).
  destruct (validate_loop (seq 0 (num_tasks s0)) m0 s0 (NoDup_seq _ _))
    as (m' & s' & -> & _); [|done].
  intros q i Hi%elem_of_seq. apply Hk0. lia.
Qed.

(** ** Tasks with an active example *)

Section active_tasks.
Context {Tgt Sel : Type}.
Variable cat_targets : list Tgt → result Tgt.
Variable select : Tgt → matrix bool → result Sel.
Variable abs_error : Sel → Sel → result (scalar * nat).
Variable denormalize_tensors :
  list (@Batch Tgt) → string → Sel * Sel → list bool → result (Sel * Sel).
Implicit Types (self : @Trainer Tgt) (batch_list : list (@Batch Tgt))
  (task : TaskConfig) (metrics : gmap string scalar).





End active_tasks.



(** ** More on the loss *)

Lemma of_nat_1 : of_nat 1 = Fin 1.
Proof. by_eval. Qed.

(** X14 (lines 52-61).  The numerator of the [mean] reduction is the sum of
    the whole loss tensor, masked or not: when the mask has no true entry, or
    just one, [mean] returns what [sum] returns. *)
Theorem reduce_loss_mean_few_valid (loss : matrix scalar) (mask : matrix bool) :
  (count_true (telems mask) ≤ 1)%nat →
  _reduce_loss loss mask "mean" = _reduce_loss loss mask "sum".
Proof.
  intros Hc. rewrite reduce_loss_mean. unfold _reduce_loss.
  rewrite decide_True by done. unfold mean_spec, safe_quotient, reduce_bt_sum.
  destruct (decide _) as [|Hne]; [done|].
  replace (count_true (telems mask)) with 1%nat by lia.
  by rewrite of_nat_1, fdiv_1.
Qed.

Lemma reduce_loss_mean_few_valid_witness :
  _reduce_loss (Mat 2 [[num 3; num 5]; [num 7; num 11]])
               (Mat 2 [[false; false]; [false; false]]) "mean"
  = _reduce_loss (Mat 2 [[num 3; num 5]; [num 7; num 11]])
                 (Mat 2 [[false; false]; [false; false]]) "sum".
Proof.
  apply reduce_loss_mean_few_valid. vm_compute. lia.
Defined.

Lemma traverse_fails {A B} (f : A → result B) (xs : list A) (x : A) :
  x ∈ xs → is_ok (f x) = false → is_ok (traverse f xs) = false.
Proof.
  intros Hx Hf. induction xs as [|y xs IH]; [by apply elem_of_nil in Hx|].
  cbn [traverse]. apply elem_of_cons in Hx as [<-|Hx].
  - by destruct (f x).
  - destruct (f y); [|done]. cbn [rbind].
    specialize (IH Hx). by destruct (traverse f xs).
Qed.

(** X15 (lines 449-461).  [_compute_loss] never returns when a configured
    loss term names a target that is not a configured output, that the model
    outputs lack, or whose ground truth "<target>_onehot" a batch lacks. *)
Theorem compute_loss_missing {Tgt : Type}
    (cat_targets : list Tgt → result Tgt) (norm : Normalizer → Tgt → Tgt)
    (self : @Trainer Tgt) (out : gmap string Tgt) (batch_list : list (@Batch Tgt))
    (loss_info : @LossFn Tgt) :
  loss_info ∈ loss_fns self →
  typed_output_targets self !! target (config loss_info) = None ∨
  out !! target (config loss_info) = None ∨
  (∃ b, b ∈ batch_list ∧
        attrs b !! (target (config loss_info) +:+ "_onehot") = None) →
  is_ok (_compute_loss cat_targets norm self out batch_list) = false.
Proof.
  intros Hin Hbad. unfold _compute_loss.
  destruct (cat1 (batch <$> batch_list)) as [batch_idx|]; [|done]. cbn [rbind].
  destruct (cat1 (fixed <$> batch_list)) as [fixed|]; [|done]. cbn [rbind].
  destruct (cat2 (task_mask <$> batch_list)) as [task_mask|]; [|done].
  cbn [rbind].
  match goal with
  | |- is_ok (rbind ?m _) = false =>
      assert (Hm : is_ok m = false); [|by destruct m]
  end.
  apply (traverse_fails _ _ loss_info Hin). unfold loss_term, getitem.
  destruct (typed_output_targets self !! _) as [output_target|] eqn:Hty; [|done].
  cbn [rbind].
  destruct (traverse _ batch_list) as [targets|] eqn:Htr; [|done]. cbn [rbind].
  destruct (cat_targets targets) as [tgt|]; [|done]. cbn [rbind].
  destruct Hbad as [?|[->|(b & Hb & Hattr)]]; [done|done|].
  assert (Hf := traverse_fails
            (λ b, getitem (attrs b) (target (config loss_info) +:+ "_onehot"))
            batch_list b Hb).
  unfold getitem in Hf. rewrite Hattr in Hf. specialize (Hf eq_refl).
  by rewrite Htr in Hf.
Qed.

Lemma compute_loss_missing_witness :
  is_ok (_compute_loss example_cat (λ _ x, x) example_trainer
           {[ "forces" := () ]} [example_batch]) = false.
Proof.
  apply (compute_loss_missing example_cat (λ _ x, x) example_trainer
           {[ "forces" := () ]} [example_batch] example_energy_loss).
  - apply list_elem_of_here.
  - right. left. reflexivity.
Defined.

Lemma fadd_comm (x y : scalar) : fadd x y = fadd y x.
Proof. destruct x, y; cbn; try done. by rewrite Qcplus_comm. Qed.

Lemma fadd_assoc (x y z : scalar) : fadd x (fadd y z) = fadd (fadd x y) z.
Proof. destruct x, y, z; cbn; try done. by rewrite Qcplus_assoc. Qed.

Lemma fadd_0_l (x : scalar) : fadd (Fin 0) x = x.
Proof. by rewrite fadd_comm, fadd_0_r. Qed.

Lemma foldl_fadd (a : scalar) (l : list scalar) :
  foldl fadd a l = fadd a (fsum l).
Proof.
  unfold fsum. revert a. induction l as [|x l IH]; intros a; cbn [foldl].
  - by rewrite fadd_0_r.
  - by rewrite IH, (IH (fadd (Fin 0) x)), fadd_0_l, fadd_assoc.
Qed.

Lemma fsum_cons (x : scalar) (l : list scalar) : fsum (x :: l) = fadd x (fsum l).
Proof. unfold fsum at 1. cbn [foldl]. by rewrite foldl_fadd, fadd_0_l. Qed.

Lemma fsum_Permutation (l l' : list scalar) : l ≡ₚ l' → fsum l = fsum l'.
Proof.
  induction 1 as [|x l l' _ IH|x y l|l l' l'' _ IH1 _ IH2].
  - done.
  - by rewrite !fsum_cons, IH.
  - rewrite !fsum_cons, !fadd_assoc. by rewrite (fadd_comm y x).
  - congruence.
Qed.

Lemma traverse_cons_Ok {A B} (f : A → result B) x xs l :
  traverse f (x :: xs) = Ok l ↔
  ∃ y ys, f x = Ok y ∧ traverse f xs = Ok ys ∧ l = y :: ys.
Proof.
  cbn [traverse]. destruct (f x) as [y|]; cbn [rbind].
  - destruct (traverse f xs) as [ys|]; cbn [rbind].
    + split; [intros [= <-]; by eauto|]. by intros (? & ? & [= <-] & [= <-] & ->).
    + split; [done|]. by intros (? & ? & _ & ? & _).
  - split; [done|]. by intros (? & ? & ? & _).
Qed.

Lemma traverse_Permutation {A B} (f : A → result B) (xs ys : list A) :
  xs ≡ₚ ys → ∀ l, traverse f xs = Ok l → ∃ l', traverse f ys = Ok l' ∧ l ≡ₚ l'.
Proof.
  induction 1 as [|x xs ys _ IH|x y xs|xs ys zs _ IH1 _ IH2]; intros l Hl.
  - by exists l.
  - apply traverse_cons_Ok in Hl as (v & vs & Hv & Hvs & ->).
    destruct (IH _ Hvs) as (vs' & Hvs' & Hp).
    exists (v :: vs'). split; [|by constructor].
    apply traverse_cons_Ok. by exists v, vs'.
  - apply traverse_cons_Ok in Hl as (v & vs0 & Hv & Hvs & ->).
    apply traverse_cons_Ok in Hvs as (w & vs & Hw & Hvs & ->).
    exists (w :: v :: vs). split; [|by constructor].
    apply traverse_cons_Ok. exists w, (v :: vs). split_and!; [done| |done].
    apply traverse_cons_Ok. by exists v, vs.
  - destruct (IH1 _ Hl) as (l1 & Hl1 & Hp1).
    destruct (IH2 _ Hl1) as (l2 & Hl2 & Hp2).
    exists l2. split; [done|]. by etrans.
Qed.

Lemma loss_term_frame {Tgt : Type} (cat_targets : list Tgt → result Tgt)
    (norm : Normalizer → Tgt → Tgt) (self self' : @Trainer Tgt) out batch_list
    batch_idx free_mask task_mask loss_info :
  multi_task_config self' = multi_task_config self →
  typed_output_targets self' = typed_output_targets self →
  normalizers self' = normalizers self →
  loss_term cat_targets norm self' out batch_list batch_idx free_mask task_mask
            loss_info
  = loss_term cat_targets norm self out batch_list batch_idx free_mask task_mask
              loss_info.
Proof.
  intros H1 H2 H3.
  unfold loss_term, loss_target, _apply_loss_coefficient, num_tasks.
  by rewrite H1, H2, H3.
Qed.

(** X16 (lines 450-507).  In the exact arithmetic of this development the
    total loss does not depend on the order of the configured loss terms:
    with the terms permuted, [_compute_loss] returns exactly when it did and
    returns the same value. *)
Theorem compute_loss_order {Tgt : Type}
    (cat_targets : list Tgt → result Tgt) (norm : Normalizer → Tgt → Tgt)
    (self self' : @Trainer Tgt) (out : gmap string Tgt)
    (batch_list : list (@Batch Tgt)) :
  multi_task_config self' = multi_task_config self →
  typed_output_targets self' = typed_output_targets self →
  normalizers self' = normalizers self →
  loss_fns self' ≡ₚ loss_fns self →
  is_ok (_compute_loss cat_targets norm self' out batch_list)
  = is_ok (_compute_loss cat_targets norm self out batch_list) ∧
  ∀ loss, _compute_loss cat_targets norm self out batch_list = Ok loss →
          _compute_loss cat_targets norm self' out batch_list = Ok loss.
Proof.
  intros H1 H2 H3 Hp.
  assert (Hone : ∀ s s' : @Trainer Tgt,
            multi_task_config s' = multi_task_config s →
            typed_output_targets s' = typed_output_targets s →
            normalizers s' = normalizers s →
            loss_fns s' ≡ₚ loss_fns s →
            ∀ loss, _compute_loss cat_targets norm s out batch_list = Ok loss →
                    _compute_loss cat_targets norm s' out batch_list = Ok loss).
  { clear. intros s s' H1 H2 H3 Hp loss. unfold _compute_loss. intros H.
    destruct (cat1 (batch <$> batch_list)) as [batch_idx|]; [|done].
    destruct (cat1 (fixed <$> batch_list)) as [fixed|]; [|done].
    destruct (cat2 (task_mask <$> batch_list)) as [task_mask|]; [|done].
    cbn [rbind] in *.
    destruct (traverse _ (loss_fns s)) as [losses|] eqn:Ht; [|done].
    cbn [rbind] in H. injection H as <-.
    symmetry in Hp. destruct (traverse_Permutation _ _ _ Hp _ Ht) as (l' & Hl' & Hpl).
    rewrite (traverse_ext _
               (loss_term cat_targets norm s out batch_list batch_idx
                  ((λ f, bool_decide (f = 0%Z)) <$> fixed) task_mask))
      by (intros; by apply loss_term_frame).
    rewrite Hl'. cbn [rbind]. do 2 f_equal.
    apply fsum_Permutation. by rewrite Hpl. }
  split; [|by apply Hone].
  destruct (_compute_loss cat_targets norm self out batch_list) as [v|] eqn:Hv.
  - by rewrite (Hone self self' H1 H2 H3 Hp v Hv).
  - destruct (_compute_loss cat_targets norm self' out batch_list) as [v'|] eqn:Hv';
      [|done].
    symmetry in Hp.
    rewrite (Hone self' self (eq_sym H1) (eq_sym H2) (eq_sym H3) Hp v' Hv') in Hv.
    done.
Qed.

Lemma compute_loss_order_witness :
  let forces_loss : @LossFn unit :=
    {| config := {| target := "forces"; reduction := "mean" |};
       fn := λ _ _, Mat 3 [[num 1; num 0; num 0]; [num 4; num 0; num 0]] |} in
  let trainer := λ fns : list (@LossFn unit),
    load_task example_to_dict
      {| multi_task_config := example_config;
         outputs_config := example_outputs_config;
         print_every := 10;
         loss_fns := fns;
         training := true;
         step := 0;
         normalizers := ∅;
         typed_output_targets := ∅;
         output_targets := [];
         multi_task_targets := [];
         per_task := per_task example_trainer |} in
  _compute_loss example_cat (λ _ x, x) (trainer [forces_loss; example_energy_loss])
    {[ "energy" := (); "forces" := () ]} [example_batch]
  = Ok (T0 (num 11)).
Proof.
  intros forces_loss trainer.
  apply (proj2 (compute_loss_order example_cat (λ _ x, x)
                  (trainer [example_energy_loss; forces_loss])
                  (trainer [forces_loss; example_energy_loss])
                  {[ "energy" := (); "forces" := () ]} [example_batch]
                  eq_refl eq_refl eq_refl (Permutation_swap _ _ _))).
  by_eval.
Defined.

(** ** The reported per-task values are those of the batch *)

Section batch_values.
Context {Tgt Sel : Type}.
Variable cat_targets : list Tgt → result Tgt.
Variable select : Tgt → matrix bool → result Sel.
Variable abs_error : Sel → Sel → result (scalar * nat).
Variable denormalize_tensors :
  list (@Batch Tgt) → string → Sel * Sel → list bool → result (Sel * Sel).
Implicit Types (self : @Trainer Tgt) (batch_list : list (@Batch Tgt))
  (task : TaskConfig) (metrics : gmap string scalar).

Lemma dom_set_maes (p q p' q' : _) (i : nat) (m : MeanAbsoluteError)
    (s : PerTaskMetrics) (e : event) :
  is_Some (maes p' q' s !! i) →
  dom (maes p q (log e (set_maes p' q' (<[i := m]> (maes p' q' s)) s)))
  = dom (maes p q s).
Proof.
  intros Hi. rewrite maes_log, maes_set_maes.
  destruct (decide _) as [[-> ->]|]; [|done].
  apply dom_insert_lookup_L. done.
Qed.

Lemma forward_sim self1 self2 (p : phase) (q : quantity) (i : nat)
    (preds target : Sel) (v : scalar) self1' :
  same_but_accumulators self1 self2 →
  forward abs_error p q i preds target self1 = Ok (v, self1') →
  ∃ self2', forward abs_error p q i preds target self2 = Ok (v, self2') ∧
            same_but_accumulators self1' self2'.
Proof.
  intros [Hf Hdom] H. unfold forward in *.
  destruct (getitem (maes p q (per_task self1)) i) as [m1|] eqn:H1; [|done].
  cbn [rbind] in H. apply getitem_Ok in H1.
  assert (is_Some (maes p q (per_task self2) !! i)) as [m2 H2].
  { apply elem_of_dom. rewrite Hdom. apply elem_of_dom. by eexists. }
  rewrite (proj2 (getitem_Ok _ _ _) H2). cbn [rbind].
  destruct (abs_error preds target) as [[err n]|]; [|done]. cbn [rbind] in *.
  injection H as <- <-. eexists. split; [done|]. split.
  - rewrite Hf. done.
  - intros p' q'. cbn [per_task set_per_task].
    rewrite !dom_set_maes by by eexists. apply Hdom.
Qed.

Lemma per_task_step_sim outputs batch_list metrics self1 self2 task metrics'
    self1' :
  same_but_accumulators self1 self2 →
  per_task_step cat_targets select abs_error denormalize_tensors
    outputs batch_list (metrics, self1) task = Ok (metrics', self1') →
  ∃ self2',
    per_task_step cat_targets select abs_error denormalize_tensors
      outputs batch_list (metrics, self2) task = Ok (metrics', self2') ∧
    same_but_accumulators self1' self2'.
Proof.
  intros Hsame H. unfold per_task_step in *.
  assert (Htr : training self2 = training self1) by (destruct Hsame as [-> _]; done).
  rewrite Htr.
  destruct (activity_mask batch_list task) as [mask|]; [|done].
  cbn [rbind] in *. destruct (negb (any mask)).
  { injection H as <- <-. by exists self2. }
  inv_bind H. injection H as <- <-.
  match goal with
  | H1 : forward _ _ Energy _ _ _ self1 = Ok (_, ?u1),
    H2 : forward _ _ Forces _ _ _ ?u1 = Ok _ |- _ =>
      destruct (forward_sim _ _ _ _ _ _ _ _ _ Hsame H1) as (u2 & H1' & Hsame1);
      destruct (forward_sim _ _ _ _ _ _ _ _ _ Hsame1 H2) as (u2' & H2' & Hsame2)
  end.
  exists u2'. split; [|done].
  repeat (cbn [rbind];
          match goal with
          | E : ?m = Ok _ |- context [rbind ?m _] => rewrite E
          end).
  done.
Qed.
Lemma per_task_loop_sim outputs batch_list (l : list TaskConfig) metrics
    self1 self2 metrics' self1' :
  same_but_accumulators self1 self2 →
  foldM (per_task_step cat_targets select abs_error denormalize_tensors
           outputs batch_list) (metrics, self1) l = Ok (metrics', self1') →
  ∃ self2',
    foldM (per_task_step cat_targets select abs_error denormalize_tensors
             outputs batch_list) (metrics, self2) l = Ok (metrics', self2') ∧
    same_but_accumulators self1' self2'.
Proof.
  revert metrics self1 self2. induction l as [|task l IH];
    intros metrics self1 self2 Hsame H; cbn [foldM] in *.
  { injection H as <- <-. by exists self2. }
  destruct (per_task_step _ _ _ _ _ _ (metrics, self1) task) as [[m1 u1]|] eqn:H1;
    [|done].
  cbn [rbind] in H.
  destruct (per_task_step_sim _ _ _ _ _ _ _ _ Hsame H1) as (u2 & -> & Hsame1).
  cbn [rbind]. by apply (IH m1 u1).
Qed.
End batch_values.

(** X17 (lines 515-584).  The values that [_compute_per_task_metrics] reports
    are those of the batch alone, in training mode as in eval mode: on two
    trainers that differ only in what their accumulators hold, it returns the
    same metrics (and raises on the one exactly if it raises on the other). *)
Theorem compute_per_task_metrics_batch_only {Tgt Sel : Type}
    (cat_targets : list Tgt → result Tgt)
    (select : Tgt → matrix bool → result Sel)
    (abs_error : Sel → Sel → result (scalar * nat))
    (denormalize_tensors :
       list (@Batch Tgt) → string → Sel * Sel → list bool → result (Sel * Sel))
    (outputs : gmap string Tgt) (batch_list : list (@Batch Tgt))
    (self1 self2 : @Trainer Tgt) :
  same_but_accumulators self1 self2 →
  match _compute_per_task_metrics cat_targets select abs_error denormalize_tensors
          outputs batch_list self1,
        _compute_per_task_metrics cat_targets select abs_error denormalize_tensors
          outputs batch_list self2 with
  | Ok (metrics1, _), Ok (metrics2, _) => metrics1 = metrics2
  | Raise _, Raise _ => True
  | _, _ => False
  end.
Proof.
  intros Hsame.
  assert (Hsame' : same_but_accumulators self2 self1).
  { destruct Hsame as [Hf Hdom]. split; [|by intros p q; rewrite Hdom].
    rewrite Hf. by destruct self1. }
  unfold _compute_per_task_metrics.
  assert (Hcfg : multi_task_config self2 = multi_task_config self1)
    by (destruct Hsame as [-> _]; done).
  rewrite Hcfg.
  destruct (foldM _ (∅, self1) _) as [[m1 u1]|] eqn:H1.
  - destruct (per_task_loop_sim _ _ _ _ _ _ _ _ _ _ _ _ Hsame H1) as (u2 & -> & _).
    done.
  - destruct (foldM _ (∅, self2) _) as [[m2 u2]|] eqn:H2; [|done].
    destruct (per_task_loop_sim _ _ _ _ _ _ _ _ _ _ _ _ Hsame' H2) as (u1 & H1' & _).
    congruence.
Qed.

Lemma compute_per_task_metrics_batch_only_witness :
  let used :=
    set_per_task
      (set_maes Train Energy
         (<[0%nat := {| sum_abs_error := num 5; total := 2 |}]>
            (maes Train Energy (per_task example_trainer)))
         (per_task example_trainer))
      example_trainer in
  match _compute_per_task_metrics example_cat example_select example_abs_error
          example_denormalize {[ "energy" := (); "forces" := () ]} [example_batch]
          example_trainer,
        _compute_per_task_metrics example_cat example_select example_abs_error
          example_denormalize {[ "energy" := (); "forces" := () ]} [example_batch]
          used with
  | Ok (metrics1, _), Ok (metrics2, _) => metrics1 = metrics2
  | Raise _, Raise _ => True
  | _, _ => False
  end.
Proof.
  intros used. apply compute_per_task_metrics_batch_only. split.
  - reflexivity.
  - intros [] []; by_eval.
Defined.

(** ** More on [_apply_loss_coefficient] *)

Lemma fmul_1_r (x : scalar) : fmul x (Fin 1) = x.
Proof.
  destruct x as [a| | |]; cbn; try done.
  by rewrite Qcmult_1_r.
Qed.

Lemma zip_with_fmul_ones (row coeff : list scalar) :
  Forall (λ c, c = Fin 1) coeff → (length row ≤ length coeff)%nat →
  zip_with fmul row coeff = row.
Proof.
  intros Hall. revert row.
  induction Hall as [|c coeff -> _ IH]; intros [|x row] Hlen; cbn in *;
    [done|lia|done|].
  rewrite fmul_1_r, IH; [done|lia].
Qed.

Lemma task_by_idx_elem (c : MultiTaskConfig) (t : nat) (task : TaskConfig) :
  task_by_idx c t = Ok task → task ∈ tasks c ∧ idx task = t.
Proof.
  unfold task_by_idx.
  destruct (list_find _ _) as [[i x]|] eqn:Hf; [|done]. intros [= ->].
  apply list_find_Some in Hf as (Hi & Hx & _).
  split; [by eapply list_elem_of_lookup_2|done].
Qed.

Lemma traverse_length {A B} (f : A → result B) (xs : list A) (l : list B) :
  traverse f xs = Ok l → length l = length xs.
Proof.
  revert l. induction xs as [|x xs IH]; intros l H.
  - by injection H as <-.
  - apply traverse_cons_Ok in H as (y & ys & _ & Hys & ->). cbn. by rewrite (IH ys).
Qed.

(** X18 (lines 412-428).  A loss of shape (n, num_tasks) for a target that
    no task gives a coefficient comes back unchanged from
    [_apply_loss_coefficient]: every task's coefficient defaults to 1.0 (each
    task index below [num_tasks] being the index of a configured task). *)
Theorem apply_loss_coefficient_default {Tgt : Type} (self : @Trainer Tgt)
    (loss : matrix scalar) (loss_info : @LossFn Tgt) :
  m_cols loss = num_tasks self → mat_wf loss →
  (∀ t, (t < num_tasks self)%nat →
        ∃ task, task ∈ tasks (multi_task_config self) ∧ idx task = t) →
  (∀ task, task ∈ tasks (multi_task_config self) →
           loss_coefficients task !! target (config loss_info) = None) →
  _apply_loss_coefficient self loss loss_info = Ok loss.
Proof.
  intros Hc Hwf Htasks Hnone. unfold _apply_loss_coefficient.
  rewrite (traverse_ok _ (λ _, Fin 1)).
  - cbn [rbind]. rewrite mul_row_same by by rewrite length_fmap, length_seq.
    destruct loss as [c rows]. cbn [m_cols m_rows] in *. do 2 f_equal.
    rewrite <- (list_fmap_id rows) at 2. apply list_fmap_ext.
    intros i row Hrow. cbn. apply zip_with_fmul_ones.
    + apply Forall_forall. by intros x (? & -> & _)%list_elem_of_fmap.
    + rewrite length_fmap, length_seq, <- Hc.
      unfold mat_wf in Hwf. cbn [m_cols m_rows] in Hwf.
      rewrite Forall_forall in Hwf.
      rewrite (Hwf row); [done|]. by eapply list_elem_of_lookup_2.
  - intros t Ht%elem_of_seq.
    destruct (task_by_idx_ok _ t (Htasks t ltac:(lia))) as [task Htask].
    rewrite Htask. cbn [rbind].
    apply task_by_idx_elem in Htask as [Hin _]. by rewrite (Hnone task Hin).
Qed.

Lemma apply_loss_coefficient_default_witness :
  _apply_loss_coefficient example_trainer (Mat 3 [[num 3; num 5; num 7]])
    {| config := {| target := "stress"; reduction := "mean" |};
       fn := λ _ _, Mat 3 [[num 3; num 5; num 7]] |}
  = Ok (Mat 3 [[num 3; num 5; num 7]]).
Proof.
  apply apply_loss_coefficient_default.
  - reflexivity.
  - repeat constructor.
  - intros t Ht. change (num_tasks example_trainer) with 3%nat in Ht.
    destruct t as [|[|[|t]]]; [| | |lia].
    + eexists. split; [apply list_elem_of_here|reflexivity].
    + eexists. split; [apply list_elem_of_further, list_elem_of_here|reflexivity].
    + eexists. split; [do 2 apply list_elem_of_further; apply list_elem_of_here
                      |reflexivity].
  - intros task Hin. apply list_elem_of_In in Hin.
    destruct Hin as [<-|[<-|[<-|[]]]]; reflexivity.
Defined.

(** X19 (lines 412-428).  [_apply_loss_coefficient] never returns for a loss
    whose number of columns is neither [num_tasks] nor 1, unless there is just
    one task: the product with the [num_tasks] coefficients cannot be
    broadcast. *)
Theorem apply_loss_coefficient_shape {Tgt : Type} (self : @Trainer Tgt)
    (loss : matrix scalar) (loss_info : @LossFn Tgt) :
  m_cols loss ≠ num_tasks self → m_cols loss ≠ 1%nat → num_tasks self ≠ 1%nat →
  is_ok (_apply_loss_coefficient self loss loss_info) = false.
Proof.
  intros H1 H2 H3. unfold _apply_loss_coefficient.
  destruct (traverse _ _) as [coeff|] eqn:Hc; [|done]. cbn [rbind].
  apply traverse_length in Hc. rewrite length_seq in Hc.
  unfold mul_row, bdim. rewrite Hc. by rewrite !decide_False.
Qed.

Lemma apply_loss_coefficient_shape_witness :
  is_ok (_apply_loss_coefficient example_trainer (Mat 2 [[num 3; num 5]])
           example_energy_loss) = false.
Proof.
  apply apply_loss_coefficient_shape.
  - vm_compute. lia.
  - vm_compute. lia.
  - vm_compute. lia.
Defined.
